(** * Solana NFT collection generator: job queue, batch orchestrator, packaging

    A shallow embedding of the two back ends of the repository:

    - the direct-image generator ([backend/server.js]): [createJobQueue],
      the [/api/generate] handler, zero padding of indices;
    - the AI studio ([ai-nft-studio]): the [Job] table, [JobService]
      (single-flight batch processing, regeneration) and
      [MetadataService.createCollectionPackage].

    JavaScript integers are modelled as [Z]; the few places where the source
    can produce [Infinity] or [NaN] from integers (a division by zero) are
    modelled by [JsNum].  Asynchronous methods are programs of a small
    resumption monad whose [Await] nodes are the [await] points of the
    source, so that the same definition can be run to completion or
    interleaved with other invocations. *)

From Stdlib Require Import ZArith List String Ascii Bool Lia Permutation.
Import ListNotations.
Open Scope string_scope.
Open Scope list_scope.
Open Scope Z_scope.

Set Implicit Arguments.

(* ================================================================== *)
(** * JavaScript numbers and strings *)
(* ================================================================== *)

Module Js.

(** The result of an arithmetic operation on integers that may divide by
    zero. *)
Inductive JsNum :=
| Num (z : Z)
| Infinity
| NegInfinity
| NaN.

(** The ceiling of the quotient of two integers, the second not zero. *)
Definition ceil_quot (n e : Z) : Z := - ((- n) / e).

(** [Math.ceil(n / e)] for integers [n] and [e]. *)
Definition ceil_div (n e : Z) : JsNum :=
  if e =? 0 then
    if 0 <? n then Infinity
    else if n <? 0 then NegInfinity
    else NaN
  else Num (ceil_quot n e).

(** [len < x] for an integer [len]; every comparison with [NaN] is false. *)
Definition lt_num (len : Z) (x : JsNum) : bool :=
  match x with
  | Num z => len <? z
  | Infinity => true
  | NegInfinity => false
  | NaN => false
  end.

(** Number of iterations of [for (let i = 0; i < x; i++)].  The loop does
    not end for [Infinity]; the source never reaches it in that case. *)
Definition iterations (x : JsNum) : nat :=
  match x with
  | Num z => Z.to_nat z
  | _ => 0%nat
  end.

Definition digit (d : Z) : ascii :=
  ascii_of_nat (48 + Z.to_nat d).

(** Decimal digits of a non-negative integer, most significant first. *)
Fixpoint digits_fuel (fuel : nat) (n : Z) (acc : string) : string :=
  let acc' := String (digit (n mod 10)) acc in
  match fuel with
  | O => acc'
  | S fuel' => if n / 10 =? 0 then acc' else digits_fuel fuel' (n / 10) acc'
  end.

Definition digits (n : Z) : string :=
  digits_fuel (Z.to_nat (Z.log2 n)) n EmptyString.

(** [String(n)] for an integer [n]. *)
Definition string_of_Z (n : Z) : string :=
  if n <? 0 then ("-" ++ digits (- n))%string else digits n.

(** [String(x)] for a [JsNum]. *)
Definition string_of_num (x : JsNum) : string :=
  match x with
  | Num z => string_of_Z z
  | Infinity => "Infinity"
  | NegInfinity => "-Infinity"
  | NaN => "NaN"
  end.

Fixpoint repeat_string (n : nat) (c : string) : string :=
  match n with
  | O => EmptyString
  | S n' => (c ++ repeat_string n' c)%string
  end.

(** [s.padStart(target, pad)] for a one-character [pad]. *)
Definition padStart (target : nat) (pad : string) (s : string) : string :=
  (repeat_string (target - String.length s) pad ++ s)%string.

(** [for (let i = start; ...; i++) body] executed [n] times on a state. *)
Fixpoint for_loop {S : Type} (n : nat) (i : Z) (body : Z -> S -> S) (s : S) : S :=
  match n with
  | O => s
  | Datatypes.S n' => for_loop n' (i + 1) body (body i s)
  end.

(** [l[i] = x] for an index within the array. *)
Fixpoint set_nth {A : Type} (l : list A) (i : nat) (x : A) : list A :=
  match l, i with
  | [], _ => []
  | _ :: r, O => x :: r
  | y :: r, Datatypes.S i' => y :: set_nth r i' x
  end.

(** [s.replace(/[^a-zA-Z0-9]/g, '_')] *)
Definition sanitize (s : string) : string :=
  string_of_list_ascii
    (map (fun c : ascii =>
            let n := nat_of_ascii c in
            if ((48 <=? n) && (n <=? 57) || (65 <=? n) && (n <=? 90)
                || (97 <=? n) && (n <=? 122))%nat%bool
            then c else "_"%char)
         (list_ascii_of_string s)).

Fixpoint starts_with (p l : list ascii) : bool :=
  match p, l with
  | [], _ => true
  | _ :: _, [] => false
  | a :: p', b :: l' => Ascii.eqb a b && starts_with p' l'
  end.

(** [s.endsWith(suffix)] *)
Definition ends_with (suffix s : string) : bool :=
  starts_with (rev (list_ascii_of_string suffix)) (rev (list_ascii_of_string s)).

End Js.

(* ================================================================== *)
(** * Direct-image generator: [backend/server.js] *)
(* ================================================================== *)

Module Server.
Import Js.

(** An uploaded file (multer): the form field it came from and its
    content, kept opaque. *)
Record File := mkFile {
  fieldname : string;
  buffer : string
}.

Record Tier := mkTier {
  type : string;
  nftCount : Z;
  editionsPerImage : Z;
  artIdPrefix : string;
  images : list File
}.

(** [sourceImage] is [images[imageIndex]], [None] standing for
    [undefined]. *)
Record Job := mkJob {
  sourceImage : option File;
  rarityTier : string;
  artId : string;
  editionNumber : Z;
  editionTotal : Z;
  globalIndex : Z
}.

(** The error thrown by [createJobQueue]; [message] renders it. *)
Record TierError := mkTierError {
  err_tier : string;
  err_needed : JsNum;
  err_provided : nat
}.

Definition quote : string := String (ascii_of_nat 34) EmptyString.

Definition message (e : TierError) : string :=
  ("Tier " ++ quote ++ err_tier e ++ quote ++ " needs "
     ++ string_of_num (err_needed e) ++ " images but only "
     ++ string_of_Z (Z.of_nat (err_provided e)) ++ " provided")%string.

(** The two variables the loops of [createJobQueue] update. *)
Record Queue := mkQueue {
  jobQueue : list Job;
  currentIndex : Z
}.

Definition push (j : Z -> Job) (q : Queue) : Queue :=
  mkQueue (jobQueue q ++ [j (currentIndex q)]) (currentIndex q + 1).

Definition editionsForThisImage (t : Tier) (imageIndex : Z) : Z :=
  Z.min (editionsPerImage t) (nftCount t - imageIndex * editionsPerImage t).

(** Body of the loop over [edition]. *)
Definition edition_body (t : Tier) (imageIndex : Z) (edition : Z) (q : Queue) : Queue :=
  push (fun idx =>
          mkJob (nth_error (images t) (Z.to_nat imageIndex))
                (type t)
                (artIdPrefix t ++ "-" ++ string_of_Z (imageIndex + 1))%string
                edition
                (editionsForThisImage t imageIndex)
                idx) q.

(** Body of the loop over [imageIndex]. *)
Definition image_body (t : Tier) (imageIndex : Z) (q : Queue) : Queue :=
  for_loop (Z.to_nat (editionsForThisImage t imageIndex)) 1
           (edition_body t imageIndex) q.

Definition imagesNeeded (t : Tier) : JsNum :=
  ceil_div (nftCount t) (editionsPerImage t).

(** [images.length < imagesNeeded] *)
Definition short (t : Tier) : bool :=
  lt_num (Z.of_nat (List.length (images t))) (imagesNeeded t).

(** Body of the loop over the tiers: the capacity check, then the images. *)
Definition tier_body (t : Tier) (q : Queue) : TierError + Queue :=
  if short t then
    inl (mkTierError (type t) (imagesNeeded t) (List.length (images t)))
  else
    inr (for_loop (iterations (imagesNeeded t)) 0 (image_body t) q).

Fixpoint tiers_loop (rarityTiers : list Tier) (q : Queue) : TierError + Queue :=
  match rarityTiers with
  | [] => inr q
  | t :: rest =>
      match tier_body t q with
      | inl e => inl e
      | inr q' => tiers_loop rest q'
      end
  end.

(** [createJobQueue(rarityTiers, totalSupply)]; [totalSupply] is not used
    by the source function. *)
Definition createJobQueue (rarityTiers : list Tier) (totalSupply : Z)
  : TierError + list Job :=
  match tiers_loop rarityTiers (mkQueue [] 0) with
  | inl e => inl e
  | inr q => inr (jobQueue q)
  end.

(** ** Vocabulary for the statements about [createJobQueue] *)

(** The queue is numbered by position. *)
Definition numbered (q : Queue) : Prop :=
  currentIndex q = Z.of_nat (List.length (jobQueue q))
  /\ map globalIndex (jobQueue q) = map Z.of_nat (seq 0 (List.length (jobQueue q))).

(** The jobs pushed for image [i] of tier [t] when the queue holds [start]
    jobs: the closed form of the loop over [edition]. *)
Definition block_job (t : Tier) (i start : Z) (m : nat) : Job :=
  mkJob (nth_error (images t) (Z.to_nat i))
        (type t)
        (artIdPrefix t ++ "-" ++ string_of_Z (i + 1))%string
        (1 + Z.of_nat m)
        (editionsForThisImage t i)
        (start + Z.of_nat m).

Definition block_of (t : Tier) (i start : Z) : list Job :=
  map (block_job t i start) (seq 0 (Z.to_nat (editionsForThisImage t i))).

Definition Block : Type := Tier * Z * list Job.

Definition block_jobs (b : Block) : list Job := snd b.
Definition block_slot (b : Block) : Tier * Z := fst b.

Fixpoint image_blocks (t : Tier) (m : nat) (i start : Z) : list Block :=
  match m with
  | O => []
  | S m' =>
      (t, i, block_of t i start)
        :: image_blocks t m' (i + 1) (start + Z.of_nat (List.length (block_of t i start)))
  end.

Fixpoint plan_blocks (rarityTiers : list Tier) (start : Z) : list Block :=
  match rarityTiers with
  | [] => []
  | t :: rest =>
      let bs := image_blocks t (iterations (imagesNeeded t)) 0 start in
      bs ++ plan_blocks rest (start + Z.of_nat (List.length (flat_map block_jobs bs)))
  end.

(** The image slots of a plan, in the order the loops visit them. *)
Definition plan_slots (rarityTiers : list Tier) : list (Tier * Z) :=
  flat_map (fun t => map (fun i => (t, Z.of_nat i)) (seq 0 (iterations (imagesNeeded t))))
           rarityTiers.

(** What a block of editions of one image looks like. *)
Definition edition_block (b : Block) : Prop :=
  let t := fst (fst b) in
  let i := snd (fst b) in
  let allocated := Z.min (editionsPerImage t) (nftCount t - i * editionsPerImage t) in
  List.length (snd b) = Z.to_nat allocated
  /\ forall k j, nth_error (snd b) k = Some j ->
       editionNumber j = Z.of_nat k + 1
       /\ 1 <= editionNumber j <= editionsPerImage t
       /\ editionTotal j = allocated
       /\ editionTotal j = Z.of_nat (List.length (snd b))
       /\ rarityTier j = type t
       /\ sourceImage j = nth_error (images t) (Z.to_nat i).

(** ** [shuffleArray]

    Fisher-Yates on a copy of the array.  [pick i] is the value of
    [Math.floor(Math.random() * (i + 1))] drawn at index [i]. *)

Definition swap {A : Type} (l : list A) (i j : nat) : list A :=
  match nth_error l i, nth_error l j with
  | Some a, Some b => set_nth (set_nth l i b) j a
  | _, _ => l
  end.

Fixpoint shuffle_loop {A : Type} (pick : nat -> nat) (i : nat) (shuffled : list A) : list A :=
  match i with
  | O => shuffled
  | S i' => shuffle_loop pick i' (swap shuffled i (pick i))
  end.

Definition shuffleArray {A : Type} (pick : nat -> nat) (array : list A) : list A :=
  shuffle_loop pick (List.length array - 1) array.

(** ** [generateMetadata] *)

Record CollectionData := mkCollectionData {
  projectName : string;
  symbol : string;
  description : string;
  royaltyFee : Z;
  externalUrl : option string;
  creatorWallet : string;
  creatorShare : option Z;
  collectionNumber : Z;
  season : string;
  seriesSlug : string
}.

Inductive AttrValue :=
| VStr (s : string)
| VNum (z : Z).

Record Options := mkOptions {
  colorPalette : option (string * string);
  sha256Hash : option string
}.

Record Metadata := mkMetadata {
  md_name : string;
  md_symbol : string;
  md_description : string;
  md_seller_fee_basis_points : Z;
  md_image : string;
  md_external_url : string;
  md_file_uri : string;
  md_creator : string * Z;
  md_collection : string * string;
  md_attributes : list (string * AttrValue);
  md_sha256_hash : option string
}.

Definition or_default {A : Type} (o : option A) (d : A) : A :=
  match o with Some a => a | None => d end.

(** [x || d] for a number [x] that may be missing: 0 is falsy. *)
Definition or_number (o : option Z) (d : Z) : Z :=
  match o with
  | Some 0 | None => d
  | Some z => z
  end.

(** [royaltyFee] is a whole number of percent here, so that
    [Math.round(royaltyFee * 100)] is the product. *)

Definition generateMetadata (job : Job) (collectionData : CollectionData)
           (paddedIndex : string) (options : Options) : Metadata :=
  mkMetadata
    (projectName collectionData ++ " #" ++ paddedIndex)%string
    (symbol collectionData)
    (description collectionData)
    (royaltyFee collectionData * 100)
    ("ipfs://<CID>/" ++ paddedIndex ++ ".png")%string
    (or_default (externalUrl collectionData) EmptyString)
    (paddedIndex ++ ".png")%string
    (creatorWallet collectionData, or_number (creatorShare collectionData) 100)
    (projectName collectionData, symbol collectionData)
    ([ ("collection_number", VNum (collectionNumber collectionData));
       ("season", VStr (season collectionData));
       ("series_slug", VStr (seriesSlug collectionData));
       ("rarity_tier", VStr (rarityTier job));
       ("edition_total", VNum (editionTotal job));
       ("edition_number", VNum (editionNumber job));
       ("art_id", VStr (artId job)) ]
     ++ match colorPalette options with
        | Some (p1, p2) => [ ("palette_primary", VStr p1); ("palette_secondary", VStr p2) ]
        | None => []
        end)
    (sha256Hash options).

(** ** The archive (JSZip)

    [file] replaces an entry of the same name and appends otherwise;
    [folder] adds a directory entry. *)

Inductive Content :=
| Dir
| Image (data : string)
| Json (m : Metadata).

Definition Zip := list (string * Content).

Fixpoint zip_file (name : string) (c : Content) (z : Zip) : Zip :=
  match z with
  | [] => [(name, c)]
  | (n, c') :: r =>
      if String.eqb n name then (n, c) :: r else (n, c') :: zip_file name c r
  end.

Definition zip_folder (name : string) (z : Zip) : Zip :=
  zip_file (name ++ "/")%string Dir z.

(** ** [POST /api/generate] *)

Record AdvancedOptions := mkAdvancedOptions {
  randomizeOrder : bool;
  calculateColorPalette : bool;
  calculateSHA256 : bool
}.

Inductive Response :=
| BadRequest (error : string)
| ServerError (details : string)
| Archive (filename : string) (zip : Zip).

Definition paddedIndex (i : Z) : string :=
  padStart 5 "0" (string_of_Z i).

Section Handler.
(** The collaborators of the handler: the random draws of the shuffle,
    the PNG conversion (which may fail), the palette extraction and the
    hash. *)
Variable pick : nat -> nat.
Variable toPng : string -> option string.
Variable extractDominantColors : string -> string * string.
Variable calculateSHA256_of : string -> string.

Fixpoint index_tiers (i : Z) (rarityTiers : list Tier) : list (Z * Tier) :=
  match rarityTiers with
  | [] => []
  | t :: r => (i, t) :: index_tiers (i + 1) r
  end.

(** [rarityTiers.map(tier => ({...tier, images: uploadedFiles.filter(...)}))] *)
Definition processedTiers (rarityTiers : list Tier) (uploadedFiles : list File) : list Tier :=
  map (fun it : Z * Tier =>
         let (i, t) := it in
         mkTier (type t) (nftCount t) (editionsPerImage t) (artIdPrefix t)
                (filter (fun f =>
                           String.prefix ("tier_" ++ string_of_Z i ++ "_")%string
                                         (fieldname f))
                        uploadedFiles))
      (index_tiers 0 rarityTiers).

Definition undefined_job : string :=
  "Cannot read properties of undefined (reading 'sourceImage')".
Definition undefined_image : string :=
  "Cannot read properties of undefined (reading 'buffer')".

(** Body of the loop [for (let i = 0; i < totalSupply; i++)]; an
    exception leaves the loop. *)
Definition process_nft (collectionData : CollectionData) (advancedOptions : AdvancedOptions)
           (finalQueue : list Job) (i : Z) (acc : string + Zip) : string + Zip :=
  match acc with
  | inl e => inl e
  | inr zip =>
      match nth_error finalQueue (Z.to_nat i) with
      | None => inl undefined_job
      | Some job =>
          match sourceImage job with
          | None => inl undefined_image
          | Some img =>
              let imageBuffer := buffer img in
              let processedImageBuffer := or_default (toPng imageBuffer) imageBuffer in
              let options :=
                mkOptions
                  (if calculateColorPalette advancedOptions
                   then Some (extractDominantColors processedImageBuffer) else None)
                  (if calculateSHA256 advancedOptions
                   then Some (calculateSHA256_of processedImageBuffer) else None) in
              let metadata := generateMetadata job collectionData (paddedIndex i) options in
              inr (zip_file ("json/" ++ paddedIndex i ++ ".json")%string (Json metadata)
                     (zip_file ("images/" ++ paddedIndex i ++ ".png")%string
                               (Image processedImageBuffer) zip))
          end
      end
  end.

Definition generate (collectionData : CollectionData) (rarityTiers : list Tier)
           (totalSupply : Z) (advancedOptions : AdvancedOptions)
           (uploadedFiles : list File) : Response :=
  match uploadedFiles with
  | [] => BadRequest "No images uploaded"
  | _ =>
      match createJobQueue (processedTiers rarityTiers uploadedFiles) totalSupply with
      | inl e => ServerError (message e)
      | inr jobQueue =>
          if negb (Z.of_nat (List.length jobQueue) =? totalSupply) then
            BadRequest ("Job queue length ("
                          ++ string_of_Z (Z.of_nat (List.length jobQueue))
                          ++ ") doesn't match total supply ("
                          ++ string_of_Z totalSupply ++ ")")%string
          else
            let finalQueue :=
              if randomizeOrder advancedOptions then shuffleArray pick jobQueue else jobQueue in
            match for_loop (Z.to_nat totalSupply) 0
                           (process_nft collectionData advancedOptions finalQueue)
                           (inr (zip_folder "json" (zip_folder "images" []))) with
            | inl e => ServerError e
            | inr zip =>
                Archive (sanitize (projectName collectionData) ++ "_collection.zip")%string zip
            end
      end
  end.
End Handler.

(** ** Sample data *)

Definition image (n : string) : File := mkFile ("tier_0_" ++ n) n.

Definition tier_unique : Tier :=
  mkTier "1/1" 2 1 "U" [image "A"; image "B"].

Definition tier_common : Tier :=
  mkTier "common" 4 2 "C" [image "C"; image "D"].

Definition tier_7_3 : Tier :=
  mkTier "limited" 7 3 "L" [image "E"; image "F"; image "G"].

Definition tier_5_4 : Tier :=
  mkTier "rare" 5 1 "R" [image "H"; image "I"; image "J"; image "K"].

Definition queue_7_3 : list Job :=
  Eval vm_compute in
    match createJobQueue [tier_7_3] 7 with
    | inr q => q
    | inl _ => []
    end.

End Server.

(* ================================================================== *)
(** * AI studio: the [Job] table, [JobService], [MetadataService] *)
(* ================================================================== *)

Module Studio.
Import Js.

(** ** Rows of the [jobs] and [collections] tables

    Only the columns the modelled methods read or write are kept
    ([image_url], [style_preset], [negative_prompt], [seed] and the
    timestamps are left out). *)

Inductive Status := pending | generating | generated | approved | error.

Definition Status_eqb (a b : Status) : bool :=
  match a, b with
  | pending, pending | generating, generating | generated, generated
  | approved, approved | error, error => true
  | _, _ => false
  end.

Record Job := mkJob {
  id : string;
  collection_id : string;
  edition_number : Z;
  edition_in_drop : Z;
  status : Status;
  image_path : option string;
  metadata_path : option string;
  ai_prompt : string;
  error_message : option string;
  retry_count : Z
}.

Record Collection := mkCollection {
  c_id : string;
  name : string;
  symbol : string;
  description : string;
  collection_number : Z;
  total_supply : Z;
  drop_supply : Z;
  drop_number : Z
}.

(** The columns [Job.updateStatus] receives in [additionalData]. *)
Inductive Field := f_image_path | f_metadata_path | f_error_message.

Definition set_status (st : Status) (j : Job) : Job :=
  mkJob (id j) (collection_id j) (edition_number j) (edition_in_drop j) st
        (image_path j) (metadata_path j) (ai_prompt j) (error_message j) (retry_count j).

Definition set_field (fv : Field * option string) (j : Job) : Job :=
  match fst fv with
  | f_image_path =>
      mkJob (id j) (collection_id j) (edition_number j) (edition_in_drop j) (status j)
            (snd fv) (metadata_path j) (ai_prompt j) (error_message j) (retry_count j)
  | f_metadata_path =>
      mkJob (id j) (collection_id j) (edition_number j) (edition_in_drop j) (status j)
            (image_path j) (snd fv) (ai_prompt j) (error_message j) (retry_count j)
  | f_error_message =>
      mkJob (id j) (collection_id j) (edition_number j) (edition_in_drop j) (status j)
            (image_path j) (metadata_path j) (ai_prompt j) (snd fv) (retry_count j)
  end.

Definition bump_retry (j : Job) : Job :=
  mkJob (id j) (collection_id j) (edition_number j) (edition_in_drop j) (status j)
        (image_path j) (metadata_path j) (ai_prompt j) (error_message j) (retry_count j + 1).

(** ** Archive entries ([archiver]) *)

Record CollectionMetadata := mkCollectionMetadata {
  cm_name : string;
  cm_symbol : string;
  cm_description : string;
  cm_attributes : list (string * string)
}.

Inductive Doc :=
| CollectionJson (m : CollectionMetadata)
| Readme (c : Collection) (approvedCount : nat).

(** [archive.file(path, {name})] and [archive.append(content, {name})]. *)
Inductive Entry :=
| FileEntry (path : string) (entry_name : string)
| DataEntry (content : Doc) (entry_name : string).

(** ** The state the methods act on

    [jobs] and [collections] are the tables, [files] the paths that exist
    on disk, [archives] the ZIP files written with their entries,
    [isProcessing] the flag of the [JobService] singleton and
    [aiRequests] the job ids for which the image provider was called,
    oldest first. *)
Record World := mkWorld {
  jobs : list Job;
  collections : list Collection;
  files : list string;
  archives : list (string * list Entry);
  isProcessing : bool;
  aiRequests : list string
}.

Definition set_jobs (js : list Job) (w : World) : World :=
  mkWorld js (collections w) (files w) (archives w) (isProcessing w) (aiRequests w).
Definition set_files (fs : list string) (w : World) : World :=
  mkWorld (jobs w) (collections w) fs (archives w) (isProcessing w) (aiRequests w).
Definition set_archives (ar : list (string * list Entry)) (w : World) : World :=
  mkWorld (jobs w) (collections w) (files w) ar (isProcessing w) (aiRequests w).
Definition set_isProcessing (b : bool) (w : World) : World :=
  mkWorld (jobs w) (collections w) (files w) (archives w) b (aiRequests w).
Definition set_aiRequests (r : list string) (w : World) : World :=
  mkWorld (jobs w) (collections w) (files w) (archives w) (isProcessing w) r.

(** ** Asynchronous operations: the calls the services [await] *)

Inductive Op : Type -> Type :=
| JobFindById (jobId : string) : Op (option Job)
| JobFindByCollectionId (collectionId : string) (st : option Status) (limit : option Z)
  : Op (list Job)
| JobUpdateStatus (jobId : string) (st : Status) (additionalData : list (Field * option string))
  : Op bool
| JobIncrementRetryCount (jobId : string) : Op bool
| CollectionFindById (collectionId : string) : Op (option Collection)
| GenerateImage (prompt : string) (jobId : string) : Op string
| ArchiveFinalize (zipPath : string) (entries : list Entry) : Op string.

(** The environment of a run: the configuration read from [process.env]
    and, for every operation, whether it fails and with which message
    (a storage error, a provider error, an archiver error).  An operation
    with the same arguments meets the same fate throughout a run. *)
Record Env := mkEnv {
  initialBatchSize : Z;
  continueBatchSize : Z;
  uploadsDir : string;
  outputDir : string;
  fails : forall X : Type, Op X -> option string
}.

Definition path_join (dir file : string) : string := (dir ++ "/" ++ file)%string.

Definition or_empty (o : option string) : string :=
  match o with Some s => s | None => EmptyString end.

(** *** SQL *)

Fixpoint insert_by_edition (j : Job) (l : list Job) : list Job :=
  match l with
  | [] => [j]
  | x :: r =>
      if edition_number j <? edition_number x then j :: l
      else x :: insert_by_edition j r
  end.

(** [ORDER BY edition_number ASC].  SQLite leaves the order of rows of
    equal number open; here the later row of the table comes first. *)
Definition order_by_edition (l : list Job) : list Job :=
  fold_right insert_by_edition [] l.

(** [LIMIT ?]: a negative limit is no limit. *)
Definition sql_limit (limit : Z) (l : list Job) : list Job :=
  if limit <? 0 then l else firstn (Z.to_nat limit) l.

Definition select_by_collection (collectionId : string) (st : option Status)
           (limit : option Z) (table : list Job) : list Job :=
  let rows :=
    filter (fun j =>
              String.eqb (collection_id j) collectionId
              && match st with Some s => Status_eqb (status j) s | None => true end)
           table in
  let sorted := order_by_edition rows in
  match limit with
  | Some n => if n =? 0 then sorted else sql_limit n sorted
  | None => sorted
  end.

Definition update_where_id (jobId : string) (f : Job -> Job) (table : list Job) : list Job :=
  map (fun j => if String.eqb (id j) jobId then f j else j) table.

Definition changes (jobId : string) (table : list Job) : bool :=
  existsb (fun j => String.eqb (id j) jobId) table.

Definition apply_update (st : Status) (additionalData : list (Field * option string))
           (j : Job) : Job :=
  fold_left (fun r fv => set_field fv r) additionalData (set_status st j).

Definition generate_failed (msg : string) : string :=
  ("Failed to generate image: " ++ msg)%string.

Section Run.
Variable env : Env.

(** The effect and the result of an operation that succeeds. *)
Definition effect (X : Type) (op : Op X) (w : World) : X * World :=
  match op in Op T return T * World with
  | JobFindById jobId =>
      (find (fun j => String.eqb (id j) jobId) (jobs w), w)
  | JobFindByCollectionId cid st limit =>
      (select_by_collection cid st limit (jobs w), w)
  | JobUpdateStatus jobId st additionalData =>
      (changes jobId (jobs w),
       set_jobs (update_where_id jobId (apply_update st additionalData) (jobs w)) w)
  | JobIncrementRetryCount jobId =>
      (changes jobId (jobs w), set_jobs (update_where_id jobId bump_retry (jobs w)) w)
  | CollectionFindById cid =>
      (find (fun c => String.eqb (c_id c) cid) (collections w), w)
  | GenerateImage prompt jobId =>
      let imagePath := path_join (uploadsDir env) (jobId ++ ".png")%string in
      (imagePath, set_files (imagePath :: files w) w)
  | ArchiveFinalize zipPath entries =>
      (zipPath, set_archives ((zipPath, entries) :: archives w)
                             (set_files (zipPath :: files w) w))
  end.

(** What issuing the operation does whether it then succeeds or not. *)
Definition request (X : Type) (op : Op X) (w : World) : World :=
  match op with
  | GenerateImage _ jobId => set_aiRequests (aiRequests w ++ [jobId]) w
  | _ => w
  end.

(** The message of the rejection, as the caller sees it. *)
Definition rejection (X : Type) (op : Op X) (msg : string) : string :=
  match op with
  | GenerateImage _ _ => generate_failed msg
  | _ => msg
  end.

Definition perform (X : Type) (op : Op X) (w : World) : (string + X) * World :=
  let w1 := request op w in
  match fails env op with
  | Some msg => (inl (rejection op msg), w1)
  | None => let (x, w2) := effect op w1 in (inr x, w2)
  end.
End Run.

(** ** Programs

    [Act] is a synchronous access to the state, [Await] an [await] of an
    operation: the continuation receives the rejection message or the
    result.  Errors are their messages. *)
Inductive Prog (A : Type) : Type :=
| Ret (a : A)
| Throw (e : string)
| Act (X : Type) (f : World -> X * World) (k : X -> Prog A)
| Await (X : Type) (op : Op X) (k : string + X -> Prog A).

Arguments Ret {A} a.
Arguments Throw {A} e.
Arguments Act {A X} f k.
Arguments Await {A X} op k.

Fixpoint bind {A B : Type} (p : Prog A) (f : A -> Prog B) : Prog B :=
  match p with
  | Ret a => f a
  | Throw e => Throw e
  | Act g k => Act g (fun x => bind (k x) f)
  | Await op k => Await op (fun r => bind (k r) f)
  end.

(** [try { p } catch (e) { h e }] *)
Fixpoint try_catch {A : Type} (p : Prog A) (h : string -> Prog A) : Prog A :=
  match p with
  | Ret a => Ret a
  | Throw e => h e
  | Act g k => Act g (fun x => try_catch (k x) h)
  | Await op k => Await op (fun r => try_catch (k r) h)
  end.

(** [await op]: a rejection is thrown. *)
Definition await {X : Type} (op : Op X) : Prog X :=
  Await op (fun r => match r with inl e => Throw e | inr x => Ret x end).

Definition get {X : Type} (f : World -> X) : Prog X :=
  Act (fun w => (f w, w)) Ret.

Definition put (f : World -> World) : Prog unit :=
  Act (fun w => (tt, f w)) Ret.

Notation "x <- p ;; q" := (bind p (fun x => q))
  (at level 61, p at next level, right associativity).
Notation "p ;; q" := (bind p (fun _ => q))
  (at level 61, right associativity).

Section Semantics.
Variable env : Env.

(** Running a program to completion, nothing else running meanwhile. *)
Fixpoint run {A : Type} (p : Prog A) (w : World) : (string + A) * World :=
  match p with
  | Ret a => (inr a, w)
  | Throw e => (inl e, w)
  | Act f k => let (x, w') := f w in run (k x) w'
  | Await op k => let (r, w') := perform env op w in run (k r) w'
  end.

(** An invocation between two steps of the event loop: finished, or
    suspended at an [await]. *)
Inductive Task (A : Type) : Type :=
| Finished (r : string + A)
| Waiting (X : Type) (op : Op X) (k : string + X -> Prog A).

Arguments Finished {A} r.
Arguments Waiting {A X} op k.

(** The synchronous part of a program, up to its next [await]. *)
Fixpoint advance {A : Type} (p : Prog A) (w : World) : Task A * World :=
  match p with
  | Ret a => (Finished (inr a), w)
  | Throw e => (Finished (inl e), w)
  | Act f k => let (x, w') := f w in advance (k x) w'
  | Await op k => (Waiting op k, w)
  end.

Record System (A : Type) := mkSystem {
  world : World;
  tasks : list (Task A)
}.

(** A step of the event loop: a new invocation starts and runs to its
    first [await], or the awaited operation of a suspended invocation
    completes (it takes effect then) and the invocation runs to its next
    [await].  Resuming a finished invocation does nothing. *)
Inductive Action (A : Type) :=
| Call (p : Prog A)
| Resume (i : nat).

Arguments Call {A} p.
Arguments Resume {A} i.

Definition step {A : Type} (a : Action A) (s : System A) : System A :=
  match a with
  | Call p =>
      let (t, w) := advance p (world s) in
      mkSystem w (tasks s ++ [t])
  | Resume i =>
      match nth_error (tasks s) i with
      | Some (Waiting op k) =>
          let (r, w1) := perform env op (world s) in
          let (t, w2) := advance (k r) w1 in
          mkSystem w2 (set_nth (tasks s) i t)
      | _ => s
      end
  end.

Definition exec {A : Type} (l : list (Action A)) (s : System A) : System A :=
  fold_left (fun s a => step a s) l s.

Definition is_waiting {A : Type} (t : Task A) : bool :=
  match t with Waiting _ _ => true | Finished _ => false end.

(** The invocations that have started and not finished. *)
Definition in_flight {A : Type} (s : System A) : nat :=
  List.length (filter is_waiting (tasks s)).
End Semantics.

Arguments Finished {A} r.
Arguments Waiting {A X} op k.
Arguments Call {A} p.
Arguments Resume {A} i.

(** ** [JobService] *)

Section Services.
Variable env : Env.

Definition processJob (job : Job) : Prog unit :=
  try_catch
    (await (JobUpdateStatus (id job) generating []) ;;
     imagePath <- await (GenerateImage (ai_prompt job) (id job)) ;;
     await (JobUpdateStatus (id job) generated [(f_image_path, Some imagePath)]) ;;
     Ret tt)
    (fun e => Throw e).

(** The loop [for (const job of pendingJobs)] of both batch methods;
    [processedJobs] is the array the loop pushes to. *)
Fixpoint process_jobs (pendingJobs processedJobs : list Job) : Prog (list Job) :=
  match pendingJobs with
  | [] => Ret processedJobs
  | job :: rest =>
      processedJobs' <-
        try_catch
          (processJob job ;;
           Ret (processedJobs ++ [job]))
          (fun e =>
             await (JobUpdateStatus (id job) error [(f_error_message, Some e)]) ;;
             await (JobIncrementRetryCount (id job)) ;;
             Ret processedJobs) ;;
      process_jobs rest processedJobs'
  end.

Definition already_in_progress : string := "Job processing already in progress".
Definition no_pending_jobs : string := "No pending jobs found".

Definition processInitialBatch (collectionId : string) : Prog (list Job) :=
  try_catch
    (busy <- get isProcessing ;;
     if busy : bool then Throw already_in_progress
     else
       put (set_isProcessing true) ;;
       pendingJobs <- await (JobFindByCollectionId collectionId (Some pending)
                                                   (Some (initialBatchSize env))) ;;
       if (List.length pendingJobs =? 0)%nat then Throw no_pending_jobs
       else
         processedJobs <- process_jobs pendingJobs [] ;;
         put (set_isProcessing false) ;;
         Ret processedJobs)
    (fun e => put (set_isProcessing false) ;; Throw e).

Definition continueBatchProcessing (collectionId : string) : Prog (list Job) :=
  try_catch
    (busy <- get isProcessing ;;
     if busy : bool then Throw already_in_progress
     else
       put (set_isProcessing true) ;;
       pendingJobs <- await (JobFindByCollectionId collectionId (Some pending)
                                                   (Some (continueBatchSize env))) ;;
       if (List.length pendingJobs =? 0)%nat then
         put (set_isProcessing false) ;;
         Ret []
       else
         processedJobs <- process_jobs pendingJobs [] ;;
         put (set_isProcessing false) ;;
         Ret processedJobs)
    (fun e => put (set_isProcessing false) ;; Throw e).

(** [path && fs.existsSync(path)]: [null] and the empty string are
    falsy. *)
Definition exists_file (path : option string) (w : World) : bool :=
  match path with
  | Some p => negb (String.eqb p EmptyString) && existsb (String.eqb p) (files w)
  | None => false
  end.

Definition unlink (path : option string) (w : World) : World :=
  match path with
  | Some p => set_files (filter (fun q => negb (String.eqb q p)) (files w)) w
  | None => w
  end.

(** The first part of [regenerateJob]: find the job, delete its old
    image, reset the row. *)
Definition regenerate_reset (jobId : string) : Prog Job :=
  found <- await (JobFindById jobId) ;;
  match found with
  | None => Throw "Job not found"
  | Some job =>
      put (fun w => if exists_file (image_path job) w then unlink (image_path job) w else w) ;;
      await (JobUpdateStatus jobId pending
                             [(f_image_path, None); (f_metadata_path, None);
                              (f_error_message, None)]) ;;
      Ret job
  end.

Definition regenerateJob (jobId : string) : Prog bool :=
  try_catch
    (job <- regenerate_reset jobId ;;
     processJob job ;;
     Ret true)
    (fun e => Throw e).

(** [POST /api/jobs/:id/regenerate]: the status code and the message of
    the response. *)
Definition post_regenerate (jobId : string) : Prog (Z * string) :=
  try_catch
    (found <- await (JobFindById jobId) ;;
     match found with
     | None => Ret (404, "Job not found")
     | Some job =>
         if negb (Status_eqb (status job) generated || Status_eqb (status job) error)
         then Ret (400, "Job must be in generated or error status to regenerate")
         else
           regenerateJob jobId ;;
           Ret (200, "Job regeneration started")
     end)
    (fun e => Ret (500, "Failed to regenerate job")).

(** ** [MetadataService] *)

(** The fields of [generateNFTMetadata] that carry the edition number. *)
Record NFTMetadata := mkNFTMetadata {
  nft_name : string;
  nft_symbol : string;
  nft_description : string;
  nft_image : string;
  nft_file_uri : string
}.

Definition generateNFTMetadata (job : Job) (collection : Collection) : NFTMetadata :=
  mkNFTMetadata
    (name collection ++ " #" ++ string_of_Z (edition_in_drop job))%string
    (symbol collection)
    (description collection)
    (string_of_Z (edition_in_drop job) ++ ".png")%string
    (string_of_Z (edition_in_drop job) ++ ".png")%string.

Definition generateCollectionMetadata (collection : Collection) : CollectionMetadata :=
  mkCollectionMetadata
    (name collection) (symbol collection) (description collection)
    [ ("Collection Number", string_of_Z (collection_number collection));
      ("Total Supply", string_of_Z (total_supply collection));
      ("Drop Supply", string_of_Z (drop_supply collection));
      ("Drop Number", string_of_Z (drop_number collection));
      ("Generation Type", "AI Powered") ].

(** Body of [approvedJobs.forEach]: the entries one job adds. *)
Definition job_entries (w : World) (job : Job) : list Entry :=
  let editionNumber := string_of_Z (edition_in_drop job) in
  (if exists_file (image_path job) w
   then [FileEntry (or_empty (image_path job)) (editionNumber ++ ".png")%string] else [])
  ++
  (if exists_file (metadata_path job) w
   then [FileEntry (or_empty (metadata_path job)) (editionNumber ++ ".json")%string] else []).

Definition collection_not_found : string := "Collection not found".
Definition no_approved_jobs : string := "No approved jobs found for collection".

Definition createCollectionPackage (collectionId : string) : Prog string :=
  try_catch
    (found <- await (CollectionFindById collectionId) ;;
     match found with
     | None => Throw collection_not_found
     | Some collection =>
         approvedJobs <- await (JobFindByCollectionId collectionId (Some approved) None) ;;
         if (List.length approvedJobs =? 0)%nat then Throw no_approved_jobs
         else
           let zipPath :=
             path_join (outputDir env)
                       (sanitize (name collection) ++ "_"
                          ++ string_of_Z (collection_number collection) ++ ".zip")%string in
           entries <- get (fun w =>
             [DataEntry (CollectionJson (generateCollectionMetadata collection))
                        "collection.json"]
             ++ flat_map (job_entries w) approvedJobs
             ++ [DataEntry (Readme collection (List.length approvedJobs)) "README.md"]) ;;
           await (ArchiveFinalize zipPath entries)
     end)
    (fun e => Throw e).
End Services.

(** ** Vocabulary of the statements *)

Definition is_generate {X : Type} (op : Op X) : bool :=
  match op with
  | GenerateImage _ _ => true
  | _ => false
  end.

(** The storage and the archiver work; only the image provider may fail. *)
Definition only_generation_fails (env : Env) : Prop :=
  forall (X : Type) (op : Op X), is_generate op = false -> fails env op = None.

(** However the awaited operations resolve and whatever the state is when
    the invocation resumes, [p] started in [w] ends, by a return or by an
    error, in a state whose flag is false. *)
Fixpoint releases {A : Type} (p : Prog A) (w : World) : Prop :=
  match p with
  | Ret _ => isProcessing w = false
  | Throw _ => isProcessing w = false
  | Act f k => releases (k (fst (f w))) (snd (f w))
  | Await _ k => forall r w', releases (k r) w'
  end.

(** The same for the returns of [p] only. *)
Fixpoint returns_unlocked {A : Type} (p : Prog A) (w : World) : Prop :=
  match p with
  | Ret _ => isProcessing w = false
  | Throw _ => True
  | Act f k => returns_unlocked (k (fst (f w))) (snd (f w))
  | Await _ k => forall r w', returns_unlocked (k r) w'
  end.

(** The rows a batch leaves behind. *)
Definition image_of (env : Env) (j : Job) : string :=
  path_join (uploadsDir env) (id j ++ ".png")%string.

Definition failed_row (msg : string) (j : Job) : Job :=
  mkJob (id j) (collection_id j) (edition_number j) (edition_in_drop j) error
        (image_path j) (metadata_path j) (ai_prompt j)
        (Some (generate_failed msg)) (retry_count j + 1).

Definition generated_row (env : Env) (j : Job) : Job :=
  mkJob (id j) (collection_id j) (edition_number j) (edition_in_drop j) generated
        (Some (image_of env j)) (metadata_path j) (ai_prompt j)
        (error_message j) (retry_count j).

(** The provider's answer for the snapshot [j] decides the row [r]. *)
Definition outcome_by (env : Env) (j r : Job) : Job :=
  match fails env (GenerateImage (ai_prompt j) (id j)) with
  | Some msg => failed_row msg r
  | None => generated_row env r
  end.

Definition outcome (env : Env) (j : Job) : Job := outcome_by env j j.

Definition succeeds (env : Env) (j : Job) : bool :=
  match fails env (GenerateImage (ai_prompt j) (id j)) with
  | Some _ => false
  | None => true
  end.

Definition in_batch (batch : list Job) (j : Job) : bool :=
  existsb (fun b => String.eqb (id b) (id j)) batch.

Definition settle (env : Env) (batch : list Job) (j : Job) : Job :=
  if in_batch batch j then outcome env j else j.

(** The state after the body of the batch loop for the snapshot [j], when
    only the provider may fail. *)
Definition job_step (env : Env) (j : Job) (w : World) : World :=
  match fails env (GenerateImage (ai_prompt j) (id j)) with
  | Some msg =>
      mkWorld
        (update_where_id (id j) bump_retry
           (update_where_id (id j)
              (apply_update error [(f_error_message, Some (generate_failed msg))])
              (update_where_id (id j) (apply_update generating []) (jobs w))))
        (collections w) (files w) (archives w) (isProcessing w)
        (aiRequests w ++ [id j])
  | None =>
      mkWorld
        (update_where_id (id j)
           (apply_update generated [(f_image_path, Some (image_of env j))])
           (update_where_id (id j) (apply_update generating []) (jobs w)))
        (collections w) (image_of env j :: files w) (archives w) (isProcessing w)
        (aiRequests w ++ [id j])
  end.

Definition find_job (jobId : string) (table : list Job) : option Job :=
  find (fun j => String.eqb (id j) jobId) table.

(** What the batch did for the snapshot [j]: the provider was called for
    it, and its row records the failure (status, message, one more retry)
    or the image. *)
Definition settled (env : Env) (w' : World) (j : Job) : Prop :=
  In (id j) (aiRequests w')
  /\ exists row,
       find_job (id j) (jobs w') = Some row
       /\ match fails env (GenerateImage (ai_prompt j) (id j)) with
          | Some msg =>
              status row = error
              /\ error_message row = Some (generate_failed msg)
              /\ retry_count row = retry_count j + 1
          | None =>
              status row = generated
              /\ image_path row = Some (image_of env j)
              /\ retry_count row = retry_count j
          end.

(** The rows of a regeneration: after the reset, after a successful
    generation, after a failed one. *)
Definition reset_row (j : Job) : Job :=
  mkJob (id j) (collection_id j) (edition_number j) (edition_in_drop j) pending
        None None (ai_prompt j) None (retry_count j).

Definition regenerated_row (env : Env) (j : Job) : Job :=
  mkJob (id j) (collection_id j) (edition_number j) (edition_in_drop j) generated
        (Some (image_of env j)) None (ai_prompt j) None (retry_count j).

Definition stuck_row (j : Job) : Job :=
  mkJob (id j) (collection_id j) (edition_number j) (edition_in_drop j) generating
        None None (ai_prompt j) None (retry_count j).

(** Kinds of archive entries. *)
Definition is_image_entry (e : Entry) : bool :=
  match e with
  | FileEntry _ n => ends_with ".png" n
  | DataEntry _ _ => false
  end.

Definition is_metadata_entry (e : Entry) : bool :=
  match e with
  | FileEntry _ n => ends_with ".json" n
  | DataEntry _ _ => false
  end.

Definition is_manifest_entry (e : Entry) : bool :=
  match e with
  | DataEntry (CollectionJson _) n => String.eqb n "collection.json"
  | _ => false
  end.

Definition is_readme_entry (e : Entry) : bool :=
  match e with
  | DataEntry (Readme _ _) n => String.eqb n "README.md"
  | _ => false
  end.

Definition count (f : Entry -> bool) (l : list Entry) : nat :=
  List.length (filter f l).

(** ** Sample data *)

Definition sample_env : Env :=
  mkEnv 3 100 "uploads" "output"
        (fun X op => match op with
                     | GenerateImage _ "j2" => Some "quota exceeded"
                     | _ => None
                     end).

Definition sample_job (jobId : string) (n : Z) (st : Status)
           (img md : option string) : Job :=
  mkJob jobId "c1" n n st img md "a fox" None 0.

Definition sample_world : World :=
  mkWorld [ sample_job "j1" 1 pending None None;
            sample_job "j2" 2 pending None None;
            sample_job "j3" 3 generated (Some "uploads/j3.png") None;
            sample_job "j4" 4 approved (Some "uploads/j4.png") (Some "output/j4.json") ]
          [ mkCollection "c1" "Foxes" "FOX" "Some foxes" 1 4 4 1;
            mkCollection "c2" "Empty" "EMP" "Nothing yet" 2 0 0 1 ]
          [ "uploads/j3.png"; "uploads/j4.png"; "output/j4.json" ]
          [] false [].

End Studio.

(* ================================================================== *)
(** * More of the direct-image generator *)
(* ================================================================== *)

Module ServerExtra.
Import Js Server.

(** The number a string of decimal digits denotes, read from the left
    with [v] as the value read so far. *)
Definition digit_value (c : ascii) : Z := Z.of_nat (nat_of_ascii c) - 48.

Fixpoint number_from (s : string) (v : Z) : Z :=
  match s with
  | EmptyString => v
  | String c r => number_from r (10 * v + digit_value c)
  end.

Definition number_of (s : string) : Z := number_from s 0.




(** A job whose [globalIndex] is moved up by [k]. *)
Definition shift (k : Z) (j : Job) : Job :=
  mkJob (sourceImage j) (rarityTier j) (artId j) (editionNumber j) (editionTotal j)
        (globalIndex j + k).

(** The job carries an image of a tier of the plan, and the tier's label. *)
Definition sourced (rarityTiers : list Tier) (j : Job) : Prop :=
  exists t img,
    In t rarityTiers /\ In img (images t)
    /\ sourceImage j = Some img /\ rarityTier j = type t.

(** The two file names of item [i] of the archive. *)
Definition item_names (i : Z) : list string :=
  [ ("images/" ++ paddedIndex i ++ ".png")%string;
    ("json/" ++ paddedIndex i ++ ".json")%string ].




(** ** Sample data *)





End ServerExtra.

(* ================================================================== *)
(** * More of the AI studio *)
(* ================================================================== *)

Module StudioExtra.
Import Js Studio.

(** ** [Job.createBatch], [Job.deleteByCollectionId] and
    [Collection.getStats] on the table

    [uuid i] is the identifier [uuidv4()] gives the job of edition [i].
    [failure] is the error [stmt.finalize] reports, if any: the
    transaction is then rolled back and the table is as it was.  An error
    of [COMMIT] itself is not modelled. *)

Definition new_job (uuid : Z -> string) (collectionId aiPrompt : string) (i : Z) : Job :=
  mkJob (uuid i) collectionId i i pending None None aiPrompt None 0.

Definition createBatch_jobs (uuid : Z -> string) (collectionId : string)
           (totalSupply : Z) (aiPrompt : string) : list Job :=
  for_loop (Z.to_nat totalSupply) 1
           (fun i jobs => jobs ++ [new_job uuid collectionId aiPrompt i]) [].

(** [INSERT]: the primary key refuses a second row with the same [id]. *)
Definition insert_row (table : list Job) (j : Job) : list Job :=
  if changes (id j) table then table else table ++ [j].

Definition createBatch (failure : option string) (uuid : Z -> string)
           (collectionId : string) (totalSupply : Z) (aiPrompt : string)
           (table : list Job) : (string + list Job) * list Job :=
  match failure with
  | Some e => (inl e, table)
  | None =>
      let jobs := createBatch_jobs uuid collectionId totalSupply aiPrompt in
      (inr jobs, fold_left insert_row jobs table)
  end.

(** [DELETE FROM jobs WHERE collection_id = ?]: the number of rows deleted
    and the table left. *)
Definition deleteByCollectionId (collectionId : string) (table : list Job)
  : nat * list Job :=
  (List.length (filter (fun j => String.eqb (collection_id j) collectionId) table),
   filter (fun j => negb (String.eqb (collection_id j) collectionId)) table).

(** [COUNT( * )] and the five [SUM(CASE WHEN status = ... )] of [getStats];
    a [SUM] over no row is [NULL]. *)
Record Stats := mkStats {
  total_jobs : nat;
  pending_jobs : option nat;
  generating_jobs : option nat;
  generated_jobs : option nat;
  approved_jobs : option nat;
  error_jobs : option nat
}.

Definition count_status (st : Status) (rows : list Job) : nat :=
  List.length (filter (fun j => Status_eqb (status j) st) rows).

Definition sum_status (st : Status) (rows : list Job) : option nat :=
  match rows with
  | [] => None
  | _ :: _ => Some (count_status st rows)
  end.

Definition getStats (collectionId : string) (table : list Job) : Stats :=
  let rows := filter (fun j => String.eqb (collection_id j) collectionId) table in
  mkStats (List.length rows)
          (sum_status pending rows) (sum_status generating rows)
          (sum_status generated rows) (sum_status approved rows)
          (sum_status error rows).

(** ** [JobService.approveJob], [MetadataService.saveMetadata] and
    [POST /api/jobs/:id/approve] *)

Section Approve.
Variable env : Env.
(** Whether [fs.writeFileSync] fails at a path, and with which message. *)
Variable write_fails : string -> option string.

Definition metadata_of (env : Env) (jobId : string) : string :=
  path_join (outputDir env) (jobId ++ ".json")%string.

Definition saveMetadata (jobId : string) (metadata : NFTMetadata) : Prog string :=
  try_catch
    (let metadataPath := metadata_of env jobId in
     match write_fails metadataPath with
     | Some e => Throw e
     | None =>
         put (fun w => set_files (metadataPath :: files w) w) ;;
         Ret metadataPath
     end)
    (fun e => Throw e).

Definition not_generated : string := "Job must be in generated status to approve".
Definition job_not_found : string := "Job not found".
Definition null_collection : string := "Cannot read properties of null (reading 'name')".

Definition approveJob (jobId : string) : Prog bool :=
  try_catch
    (found <- await (JobFindById jobId) ;;
     match found with
     | None => Throw job_not_found
     | Some job =>
         if negb (Status_eqb (status job) generated) then Throw not_generated
         else
           collection <- await (CollectionFindById (collection_id job)) ;;
           match collection with
           | None => Throw null_collection
           | Some c =>
               let metadata := generateNFTMetadata job c in
               metadataPath <- saveMetadata (id job) metadata ;;
               await (JobUpdateStatus jobId approved
                                      [(f_metadata_path, Some metadataPath)]) ;;
               Ret true
           end
     end)
    (fun e => Throw e).

Definition post_approve (jobId : string) : Prog (Z * string) :=
  try_catch
    (found <- await (JobFindById jobId) ;;
     match found with
     | None => Ret (404, "Job not found")
     | Some job =>
         if negb (Status_eqb (status job) generated)
         then Ret (400, "Job must be in generated status to approve")
         else
           approveJob jobId ;;
           Ret (200, "Job approved successfully")
     end)
    (fun e => Ret (500, "Failed to approve job")).

(** ** [POST /api/jobs/batch-approve]

    The answer when [job_ids] is an array: the [results] and the [errors]
    (the second [errors] key of the object literal, the array, is the one
    that stays). *)
Record BatchAnswer := mkBatchAnswer {
  code : Z;
  message : string;
  results : list bool;
  errors : list (string * string)
}.

Fixpoint batch_approve_loop (job_ids : list string) (results : list bool)
         (errors : list (string * string)) : Prog (list bool * list (string * string)) :=
  match job_ids with
  | [] => Ret (results, errors)
  | jobId :: rest =>
      acc <-
        try_catch
          (found <- await (JobFindById jobId) ;;
           match found with
           | None => Ret (results, errors ++ [(jobId, "Job not found")])
           | Some job =>
               if negb (Status_eqb (status job) generated)
               then Ret (results,
                         errors ++ [(jobId, "Job must be in generated status to approve")])
               else
                 approvedJob <- approveJob jobId ;;
                 Ret (results ++ [approvedJob], errors)
           end)
          (fun e => Ret (results, errors ++ [(jobId, e)])) ;;
      batch_approve_loop rest (fst acc) (snd acc)
  end.

Definition post_batch_approve (job_ids : list string) : Prog BatchAnswer :=
  try_catch
    (if (List.length job_ids =? 0)%nat
     then Ret (mkBatchAnswer 400 "job_ids must be a non-empty array" [] [])
     else
       acc <- batch_approve_loop job_ids [] [] ;;
       Ret (mkBatchAnswer 200 EmptyString (fst acc) (snd acc)))
    (fun e => Ret (mkBatchAnswer 500 "Failed to batch approve jobs" [] [])).

End Approve.

(** ** [MetadataService.cleanupTempFiles] *)

Definition unlink_if_exists (path : option string) (w : World) : World :=
  if exists_file path w then unlink path w else w.

Definition cleanup_job (w : World) (job : Job) : World :=
  unlink_if_exists (metadata_path job) (unlink_if_exists (image_path job) w).

Definition cleanupTempFiles (collectionId : string) : Prog unit :=
  try_catch
    (jobs <- await (JobFindByCollectionId collectionId None None) ;;
     put (fun w => fold_left cleanup_job jobs w) ;;
     Ret tt)
    (fun e => Throw e).

(** The paths [cleanupTempFiles] deletes: the image and metadata paths of
    the jobs, [null] and the empty string apart. *)
Definition refers (path : option string) (q : string) : bool :=
  match path with
  | Some p => negb (String.eqb p EmptyString) && String.eqb q p
  | None => false
  end.

Definition referenced (jobs : list Job) (q : string) : bool :=
  existsb (fun j => refers (image_path j) q || refers (metadata_path j) q) jobs.

(** ** Vocabulary of the statements *)

(** Ascending edition numbers. *)
Fixpoint ascending (l : list Job) : Prop :=
  match l with
  | [] => True
  | x :: r => Forall (fun y => edition_number x <= edition_number y) r /\ ascending r
  end.

(** Strictly increasing edition numbers. *)
Fixpoint increasing (l : list Job) : Prop :=
  match l with
  | [] => True
  | x :: r => Forall (fun y => edition_number x < edition_number y) r /\ increasing r
  end.

Definition matches (collectionId : string) (st : option Status) (j : Job) : Prop :=
  collection_id j = collectionId
  /\ match st with Some s => status j = s | None => True end.

(** The [WHERE] clause of [findByCollectionId]. *)
Definition matchb (collectionId : string) (st : option Status) (j : Job) : bool :=
  String.eqb (collection_id j) collectionId
  && match st with Some s => Status_eqb (status j) s | None => true end.

(** [lo, lo + 1, ...], [n] numbers. *)
Fixpoint count_from (lo : Z) (n : nat) : list Z :=
  match n with
  | O => []
  | S n' => lo :: count_from (lo + 1) n'
  end.

(** The row of an approved job. *)
Definition approved_row (env : Env) (j : Job) : Job :=
  mkJob (id j) (collection_id j) (edition_number j) (edition_in_drop j) approved
        (image_path j) (Some (metadata_of env (id j))) (ai_prompt j)
        (error_message j) (retry_count j).

(** The columns a batch never writes. *)
Definition identity (j : Job) : string * string * Z * Z * string * option string :=
  (id j, collection_id j, edition_number j, edition_in_drop j, ai_prompt j,
   metadata_path j).

(** The path and the entries of the archive [createCollectionPackage]
    writes for the approved jobs it fetched, in state [w]. *)
Definition zip_path (env : Env) (collection : Collection) : string :=
  path_join (outputDir env)
            (sanitize (name collection) ++ "_"
               ++ string_of_Z (collection_number collection) ++ ".zip")%string.

Definition package_entries (w : World) (collection : Collection)
           (approvedJobs : list Job) : list Entry :=
  [DataEntry (CollectionJson (generateCollectionMetadata collection)) "collection.json"]
  ++ flat_map (job_entries w) approvedJobs
  ++ [DataEntry (Readme collection (List.length approvedJobs)) "README.md"].

Definition find_collection (collectionId : string) (w : World) : option Collection :=
  find (fun c => String.eqb (c_id c) collectionId) (collections w).

(** Every job of the list can be approved in state [w]: its metadata file
    can be written, it is [generated] and its collection exists. *)
Definition approvable (env : Env) (write_fails : string -> option string)
           (job_ids : list string) (w : World) : Prop :=
  forall jobId, In jobId job_ids ->
    write_fails (metadata_of env jobId) = None
    /\ exists job c,
         find_job jobId (jobs w) = Some job
         /\ status job = generated
         /\ find_collection (collection_id job) w = Some c.

(** ** Sample data *)

Definition sample_uuid (i : Z) : string := ("job-" ++ string_of_Z i)%string.

(** The sample state after the metadata file of job [j4] was lost. *)
Definition half_world : World :=
  set_files ["uploads/j3.png"; "uploads/j4.png"] sample_world.

Definition broken_env : Env :=
  mkEnv 3 100 "uploads" "output"
        (fun X op =>
           match op with
           | GenerateImage _ "j1" => Some "quota exceeded"
           | JobUpdateStatus "j1" error _ => Some "SQLITE_BUSY"
           | JobFindByCollectionId "c2" _ _ => Some "SQLITE_IOERR"
           | _ => None
           end).

End StudioExtra.

(* ================================================================== *)
(** * Properties of the direct-image generator *)
(* ================================================================== *)

Module ServerFacts.
Import Js Server.

(** ** Loops *)

Lemma for_loop_invariant (S : Type) (P : S -> Prop) (body : Z -> S -> S) :
  (forall i s, P s -> P (body i s)) ->
  forall n i s, P s -> P (for_loop n i body s).
Proof.
  intros Hbody n; induction n as [|n IH]; intros i s Hs; simpl; auto.
Qed.

(** ** The queue is numbered by position *)

Lemma numbered_push j q :
  (forall idx, globalIndex (j idx) = idx) -> numbered q -> numbered (push j q).
Proof.
  intros Hj [Hc Hm]. unfold numbered, push; simpl.
  rewrite length_app, map_app, Hm; simpl. split; [lia|].
  rewrite Nat.add_1_r, seq_S, map_app; simpl.
  now rewrite Hj, Hc.
Qed.

Lemma numbered_image_body t i q : numbered q -> numbered (image_body t i q).
Proof.
  intros Hq. unfold image_body. apply for_loop_invariant; auto.
  intros k s Hs. unfold edition_body. apply numbered_push; auto.
Qed.

Lemma numbered_tier_body t q q' :
  numbered q -> tier_body t q = inr q' -> numbered q'.
Proof.
  unfold tier_body. destruct (short t); [discriminate|].
  intros Hq [= <-]. apply for_loop_invariant; auto.
  intros i s. apply numbered_image_body.
Qed.

Lemma numbered_tiers_loop tiers : forall q q',
  numbered q -> tiers_loop tiers q = inr q' -> numbered q'.
Proof.
  induction tiers as [|t rest IH]; simpl; intros q q' Hq.
  - now intros [= <-].
  - destruct (tier_body t q) as [e|q1] eqn:Ht; [discriminate|].
    apply IH. eapply numbered_tier_body; eauto.
Qed.

(** ** Each tier adds [nftCount] jobs *)

Lemma length_edition_loop t i : forall k lo q,
  List.length (jobQueue (for_loop k lo (edition_body t i) q))
  = (List.length (jobQueue q) + k)%nat.
Proof.
  induction k as [|k IH]; intros lo q; simpl; [lia|].
  rewrite IH. unfold edition_body, push; simpl. rewrite length_app; simpl. lia.
Qed.

Lemma length_image_loop t :
  1 <= editionsPerImage t ->
  forall m i q, 0 <= i ->
  Z.of_nat (List.length (jobQueue (for_loop m i (image_body t) q)))
  = Z.of_nat (List.length (jobQueue q))
    + Z.min (nftCount t) ((i + Z.of_nat m) * editionsPerImage t)
    - Z.min (nftCount t) (i * editionsPerImage t).
Proof.
  intros He m; induction m as [|m IH]; intros i q Hi.
  - simpl. replace (i + 0) with i by lia. lia.
  - cbn [for_loop]. rewrite IH by lia.
    unfold image_body. rewrite length_edition_loop.
    unfold editionsForThisImage.
    replace (i + 1 + Z.of_nat m) with (i + Z.of_nat (S m)) by lia.
    nia.
Qed.

(** ** Closed form of the loops *)

Lemma edition_loop_eq t i : forall k lo q,
  for_loop k lo (edition_body t i) q
  = mkQueue
      (jobQueue q
       ++ map (fun m =>
                 mkJob (nth_error (images t) (Z.to_nat i)) (type t)
                       (artIdPrefix t ++ "-" ++ string_of_Z (i + 1))%string
                       (lo + Z.of_nat m) (editionsForThisImage t i)
                       (currentIndex q + Z.of_nat m))
              (seq 0 k))
      (currentIndex q + Z.of_nat k).
Proof.
  induction k as [|k IH]; intros lo q.
  - simpl. rewrite app_nil_r, Z.add_0_r. now destruct q.
  - cbn [for_loop]. rewrite IH. unfold edition_body, push; cbn [jobQueue currentIndex].
    rewrite <- app_assoc. f_equal; [|lia]. f_equal.
    cbn [seq map app]. rewrite !Z.add_0_r. f_equal.
    rewrite <- seq_shift, map_map. apply map_ext. intros m. f_equal; lia.
Qed.

Lemma image_body_eq t i q :
  image_body t i q
  = mkQueue (jobQueue q ++ block_of t i (currentIndex q))
            (currentIndex q + Z.of_nat (List.length (block_of t i (currentIndex q)))).
Proof.
  unfold image_body. rewrite edition_loop_eq. unfold block_of.
  now rewrite length_map, length_seq.
Qed.

Lemma image_loop_eq t : forall m i q,
  for_loop m i (image_body t) q
  = mkQueue
      (jobQueue q ++ flat_map block_jobs (image_blocks t m i (currentIndex q)))
      (currentIndex q
       + Z.of_nat (List.length (flat_map block_jobs (image_blocks t m i (currentIndex q))))).
Proof.
  induction m as [|m IH]; intros i q.
  - simpl. rewrite app_nil_r, Z.add_0_r. now destruct q.
  - cbn [for_loop]. rewrite IH, image_body_eq. cbn [jobQueue currentIndex image_blocks flat_map].
    unfold block_jobs at 3 5; cbn [snd].
    rewrite <- app_assoc. f_equal. rewrite length_app. lia.
Qed.

Lemma tiers_loop_eq tiers : forall q q',
  tiers_loop tiers q = inr q' ->
  q' = mkQueue
         (jobQueue q ++ flat_map block_jobs (plan_blocks tiers (currentIndex q)))
         (currentIndex q
          + Z.of_nat (List.length (flat_map block_jobs (plan_blocks tiers (currentIndex q))))).
Proof.
  induction tiers as [|t rest IH]; intros q q'; cbn [tiers_loop].
  - intros [= <-]. simpl. rewrite app_nil_r, Z.add_0_r. now destruct q.
  - unfold tier_body. destruct (short t); [discriminate|].
    intros H. apply IH in H. subst q'. rewrite image_loop_eq.
    cbn [jobQueue currentIndex plan_blocks].
    rewrite flat_map_app, <- app_assoc, length_app. f_equal. lia.
Qed.

(** ** Blocks *)

Lemma block_of_edition_block t i start :
  edition_block (t, i, block_of t i start).
Proof.
  unfold edition_block, block_of, editionsForThisImage; cbn [fst snd].
  rewrite length_map, length_seq. split; [reflexivity|].
  intros k j Hk.
  assert (Hlt : (k < Z.to_nat (Z.min (editionsPerImage t)
                                     (nftCount t - i * editionsPerImage t)))%nat).
  { assert (Hs : nth_error (map (block_job t i start)
                                 (seq 0 (Z.to_nat (Z.min (editionsPerImage t)
                                    (nftCount t - i * editionsPerImage t))))) k <> None)
      by congruence.
    apply nth_error_Some in Hs. now rewrite length_map, length_seq in Hs. }
  rewrite nth_error_map, nth_error_seq in Hk.
  destruct (Nat.ltb_spec k (Z.to_nat (Z.min (editionsPerImage t)
                                            (nftCount t - i * editionsPerImage t))));
    [|lia].
  cbn [option_map Nat.add] in Hk. injection Hk as <-.
  unfold block_job, editionsForThisImage;
    cbn [editionNumber editionTotal rarityTier sourceImage].
  repeat split; lia.
Qed.

Lemma image_blocks_ok t : forall m i start,
  Forall edition_block (image_blocks t m i start).
Proof.
  induction m as [|m IH]; intros i start; cbn [image_blocks]; constructor; auto.
  apply block_of_edition_block.
Qed.

Lemma image_blocks_slots t : forall m i start,
  0 <= i ->
  map block_slot (image_blocks t m i start)
  = map (fun k => (t, Z.of_nat k)) (seq (Z.to_nat i) m).
Proof.
  induction m as [|m IH]; intros i start Hi; cbn [image_blocks map seq]; [reflexivity|].
  unfold block_slot at 1; cbn [fst]. rewrite Z2Nat.id by lia. f_equal.
  rewrite IH by lia. now replace (Z.to_nat (i + 1)) with (S (Z.to_nat i)) by lia.
Qed.

Lemma plan_blocks_ok tiers : forall start,
  Forall edition_block (plan_blocks tiers start).
Proof.
  induction tiers as [|t rest IH]; intros start; cbn [plan_blocks]; [constructor|].
  apply Forall_app; split; [apply image_blocks_ok | apply IH].
Qed.

Lemma plan_blocks_slots tiers : forall start,
  map block_slot (plan_blocks tiers start) = plan_slots tiers.
Proof.
  induction tiers as [|t rest IH]; intros start; cbn [plan_blocks]; [reflexivity|].
  unfold plan_slots; cbn [flat_map]. rewrite map_app, IH.
  now rewrite image_blocks_slots by lia.
Qed.

(** ** A tier that passes the check adds [nftCount] jobs *)

Lemma ceil_quot_bounds n e :
  1 <= e -> (ceil_quot n e - 1) * e < n <= ceil_quot n e * e.
Proof.
  intros He. unfold ceil_quot.
  pose proof (Z.div_mod (- n) e ltac:(lia)) as Hdm.
  pose proof (Z.mod_pos_bound (- n) e ltac:(lia)) as Hb.
  nia.
Qed.

Lemma tier_body_length t q :
  1 <= editionsPerImage t -> 0 <= nftCount t -> short t = false ->
  exists q', tier_body t q = inr q'
             /\ Z.of_nat (List.length (jobQueue q'))
                = Z.of_nat (List.length (jobQueue q)) + nftCount t.
Proof.
  intros He Hn Hs. unfold tier_body. rewrite Hs. eexists; split; [reflexivity|].
  rewrite length_image_loop by lia.
  unfold imagesNeeded, ceil_div.
  destruct (Z.eqb_spec (editionsPerImage t) 0) as [|_]; [lia|]. cbn [iterations].
  pose proof (ceil_quot_bounds (nftCount t) He) as Hc.
  assert (0 <= ceil_quot (nftCount t) (editionsPerImage t)) by nia.
  rewrite Z2Nat.id by lia. lia.
Qed.

Lemma short_false_iff t :
  1 <= editionsPerImage t ->
  short t = false
  <-> ceil_quot (nftCount t) (editionsPerImage t) <= Z.of_nat (List.length (images t)).
Proof.
  intros He. unfold short, imagesNeeded, ceil_div.
  destruct (Z.eqb_spec (editionsPerImage t) 0) as [|_]; [lia|]. cbn [lt_num].
  rewrite Z.ltb_ge. reflexivity.
Qed.

Lemma tiers_loop_length tiers : forall q,
  (forall t, In t tiers ->
     1 <= editionsPerImage t /\ 0 <= nftCount t
     /\ ceil_quot (nftCount t) (editionsPerImage t) <= Z.of_nat (List.length (images t))) ->
  exists q', tiers_loop tiers q = inr q'
             /\ Z.of_nat (List.length (jobQueue q'))
                = Z.of_nat (List.length (jobQueue q)) + fold_right Z.add 0 (map nftCount tiers).
Proof.
  induction tiers as [|t rest IH]; intros q Hv; cbn [tiers_loop map fold_right].
  - exists q. split; [reflexivity|lia].
  - destruct (Hv t (or_introl eq_refl)) as (He & Hn & Hc).
    destruct (@tier_body_length t q He Hn) as (q1 & -> & Hl1).
    { now apply short_false_iff. }
    destruct (IH q1) as (q2 & -> & Hl2).
    { intros u Hu. apply Hv. now right. }
    exists q2. split; [reflexivity|lia].
Qed.

(** C1.  For every rarity-tier plan whose tiers have at least one edition
    per image, a non-negative count and at least
    [ceil(nftCount / editionsPerImage)] images, and whose counts sum to the
    declared total supply, [createJobQueue] returns a queue (it does not
    throw) of exactly [totalSupply] jobs, the length check of the
    [/api/generate] handler passes, and the [globalIndex] values are
    [0, 1, ..., totalSupply - 1] in queue order. *)
Theorem createJobQueue_covers_supply (rarityTiers : list Tier) (totalSupply : Z) :
  (forall t, In t rarityTiers ->
     1 <= editionsPerImage t /\ 0 <= nftCount t
     /\ ceil_quot (nftCount t) (editionsPerImage t) <= Z.of_nat (List.length (images t))) ->
  fold_right Z.add 0 (map nftCount rarityTiers) = totalSupply ->
  exists queue,
    createJobQueue rarityTiers totalSupply = inr queue
    /\ Z.of_nat (List.length queue) = totalSupply
    /\ negb (Z.of_nat (List.length queue) =? totalSupply) = false
    /\ map globalIndex queue = map Z.of_nat (seq 0 (Z.to_nat totalSupply)).
Proof.
  intros Hv Hsum. unfold createJobQueue.
  destruct (@tiers_loop_length rarityTiers (mkQueue [] 0) Hv) as (q & Hq & Hlen).
  rewrite Hq. exists (jobQueue q). cbn [jobQueue List.length] in Hlen.
  assert (Hn : numbered q).
  { eapply numbered_tiers_loop; [|exact Hq]. split; reflexivity. }
  assert (Hl : Z.of_nat (List.length (jobQueue q)) = totalSupply) by lia.
  split; [reflexivity|]. split; [exact Hl|]. split.
  - rewrite Hl, Z.eqb_refl. reflexivity.
  - destruct Hn as [_ Hm]. rewrite Hm, <- Hl, Nat2Z.id. reflexivity.
Qed.

(** C2.  Whenever [createJobQueue] returns a queue, the queue is the
    concatenation of one block of jobs per image slot of the plan, in plan
    order; the block of image [i] of a tier has
    [min(editionsPerImage, nftCount - i * editionsPerImage)] jobs (none when
    that is not positive), and its k-th job has [editionNumber] k, within
    [1, editionsPerImage], and [editionTotal] equal to that minimum, which
    is the number of jobs of the block.  For [nftCount = 7] and
    [editionsPerImage = 3] the three images receive 3, 3 and 1 editions. *)
Theorem createJobQueue_editions :
  (forall rarityTiers totalSupply queue,
     createJobQueue rarityTiers totalSupply = inr queue ->
     exists blocks : list Block,
       queue = flat_map block_jobs blocks
       /\ map block_slot blocks = plan_slots rarityTiers
       /\ Forall edition_block blocks)
  /\ (forall ty prefix a b c more,
        exists queue,
          createJobQueue [mkTier ty 7 3 prefix (a :: b :: c :: more)] 7 = inr queue
          /\ map (fun j => (sourceImage j, editionNumber j, editionTotal j)) queue
             = [ (Some a, 1, 3); (Some a, 2, 3); (Some a, 3, 3);
                 (Some b, 1, 3); (Some b, 2, 3); (Some b, 3, 3);
                 (Some c, 1, 1) ]).
Proof.
  split.
  - intros rarityTiers totalSupply queue. unfold createJobQueue.
    destruct (tiers_loop rarityTiers (mkQueue [] 0)) as [e|q] eqn:Hq; [discriminate|].
    intros [= <-]. apply tiers_loop_eq in Hq. subst q. cbn [jobQueue currentIndex app].
    exists (plan_blocks rarityTiers 0). split; [reflexivity|]. split.
    + apply plan_blocks_slots.
    + apply plan_blocks_ok.
  - intros ty prefix a b c more. eexists. split.
    + unfold createJobQueue; cbn [tiers_loop]. unfold tier_body.
      replace (short _) with false; [reflexivity|].
      symmetry. apply short_false_iff; cbn; [lia|]. unfold ceil_quot; cbn. lia.
    + reflexivity.
Qed.

Lemma first_short_tier rarityTiers :
  (exists t, In t rarityTiers /\ short t = true) ->
  exists before t after,
    rarityTiers = before ++ t :: after
    /\ Forall (fun u => short u = false) before
    /\ short t = true
    /\ forall q, tiers_loop rarityTiers q
                 = inl (mkTierError (type t) (imagesNeeded t) (List.length (images t))).
Proof.
  induction rarityTiers as [|u rest IH]; intros (t & Hin & Hs).
  - destruct Hin.
  - destruct (short u) eqn:Hu.
    + exists [], u, rest. repeat split; auto.
      intros q. cbn [tiers_loop]. unfold tier_body. now rewrite Hu.
    + destruct Hin as [->|Hin]; [congruence|].
      destruct (IH (ex_intro _ t (conj Hin Hs))) as (before & t' & after & -> & Hb & Ht' & Hr).
      exists (u :: before), t', after. repeat split; auto.
      intros q. cbn [app tiers_loop]. unfold tier_body at 1. rewrite Hu. apply Hr.
Qed.

(** C7.  When a plan contains a tier whose image list is shorter than
    [imagesNeeded], [createJobQueue] throws, at the first such tier, an
    error carrying that tier's label, the number of images needed and the
    number provided, whose difference, the shortfall, is positive; no queue
    is returned and the handler answers with an
    error instead of an archive.  A tier needing 5 images with 4 provided
    gives the message of the source. *)
Theorem createJobQueue_short_tier :
  (forall rarityTiers totalSupply,
     (exists t, In t rarityTiers /\ short t = true) ->
     exists before t after,
       rarityTiers = before ++ t :: after
       /\ Forall (fun u => short u = false) before
       /\ short t = true
       /\ createJobQueue rarityTiers totalSupply
          = inl (mkTierError (type t) (imagesNeeded t) (List.length (images t)))
       /\ forall needed, imagesNeeded t = Num needed ->
                         0 < needed - Z.of_nat (List.length (images t)))
  /\ (forall pick toPng colors sha collectionData rarityTiers totalSupply advanced files,
        (exists t, In t (processedTiers rarityTiers files) /\ short t = true) ->
        forall filename zip,
          generate pick toPng colors sha collectionData rarityTiers totalSupply advanced files
          <> Archive filename zip)
  /\ (forall ty prefix a b c d,
        createJobQueue [mkTier ty 5 1 prefix [a; b; c; d]] 5
        = inl (mkTierError ty (Num 5) 4)
        /\ message (mkTierError ty (Num 5) 4)
           = ("Tier " ++ quote ++ ty ++ quote ++ " needs 5 images but only 4 provided")%string).
Proof.
  split; [|split].
  - intros rarityTiers totalSupply Hex.
    destruct (first_short_tier rarityTiers Hex) as (before & t & after & -> & Hb & Ht & Hr).
    exists before, t, after. repeat split; auto.
    + unfold createJobQueue. rewrite Hr. reflexivity.
    + intros needed Hn. unfold short in Ht. rewrite Hn in Ht. cbn in Ht. lia.
  - intros pick toPng colors sha collectionData rarityTiers totalSupply advanced files Hex
           filename zip.
    destruct (first_short_tier _ Hex) as (before & t & after & Heq & _ & _ & Hr).
    unfold generate. destruct files as [|f files']; [discriminate|].
    unfold createJobQueue. rewrite Hr. discriminate.
  - intros ty prefix a b c d. split; reflexivity.
Qed.

(** The plan of two tiers, 2 unique and 4 common editions of 2 images
    each, with a total supply of 6. *)
Lemma createJobQueue_covers_supply_witness :
  fold_right Z.add 0 (map nftCount [tier_unique; tier_common]) = 6
  /\ exists queue,
       createJobQueue [tier_unique; tier_common] 6 = inr queue
       /\ Z.of_nat (List.length queue) = 6
       /\ negb (Z.of_nat (List.length queue) =? 6) = false
       /\ map globalIndex queue = map Z.of_nat (seq 0 (Z.to_nat 6)).
Proof.
  split; [reflexivity|].
  apply (@createJobQueue_covers_supply [tier_unique; tier_common] 6); [|reflexivity].
  intros t [<-|[<-|[]]]; unfold ceil_quot; cbn; lia.
Defined.

(** A tier of 7 editions, 3 per image. *)
Lemma createJobQueue_editions_witness :
  createJobQueue [tier_7_3] 7 = inr queue_7_3
  /\ exists blocks : list Block,
       queue_7_3 = flat_map block_jobs blocks
       /\ map block_slot blocks = plan_slots [tier_7_3]
       /\ Forall edition_block blocks.
Proof.
  split; [reflexivity|].
  apply (proj1 createJobQueue_editions [tier_7_3] 7 queue_7_3). reflexivity.
Defined.

(** A plan whose second tier needs 5 images and has 4. *)
Lemma createJobQueue_short_tier_witness :
  short tier_5_4 = true
  /\ exists before t after,
       [tier_unique; tier_5_4; tier_common] = before ++ t :: after
       /\ Forall (fun u => short u = false) before
       /\ short t = true
       /\ createJobQueue [tier_unique; tier_5_4; tier_common] 11
          = inl (mkTierError (type t) (imagesNeeded t) (List.length (images t)))
       /\ forall needed, imagesNeeded t = Num needed ->
                         0 < needed - Z.of_nat (List.length (images t)).
Proof.
  split; [reflexivity|].
  apply (proj1 createJobQueue_short_tier [tier_unique; tier_5_4; tier_common] 11).
  exists tier_5_4. split; [right; left; reflexivity | reflexivity].
Defined.

(** ** Decimal digits and zero padding *)

Lemma string_length_app (a b : string) :
  String.length (a ++ b) = (String.length a + String.length b)%nat.
Proof.
  induction a as [|c a IH]; simpl; [reflexivity|]. now rewrite IH.
Qed.

Lemma digits_fuel_length : forall (k fuel : nat) n acc,
  (k <= fuel)%nat ->
  0 <= n < 10 ^ (Z.of_nat k + 1) ->
  k = 0%nat \/ 10 ^ Z.of_nat k <= n ->
  String.length (digits_fuel fuel n acc) = (S k + String.length acc)%nat.
Proof.
  induction k as [|k IH]; intros fuel n acc Hf Hn Hk.
  - assert (n / 10 = 0) by (apply Z.div_small; cbn in Hn; lia).
    destruct fuel; cbn [digits_fuel]; [reflexivity|].
    rewrite H. reflexivity.
  - destruct Hk as [|Hk]; [discriminate|].
    destruct fuel as [|fuel]; [lia|].
    replace (Z.of_nat (S k)) with (Z.of_nat k + 1) in * by lia.
    rewrite (Z.pow_add_r 10 (Z.of_nat k + 1) 1) in Hn by lia.
    rewrite (Z.pow_add_r 10 (Z.of_nat k) 1) in Hk by lia.
    change (10 ^ 1) with 10 in *.
    assert (Hp : 0 < 10 ^ Z.of_nat k) by (apply Z.pow_pos_nonneg; lia).
    assert (Hlo : 10 ^ Z.of_nat k <= n / 10) by (apply Z.div_le_lower_bound; lia).
    assert (Hhi : n / 10 < 10 ^ (Z.of_nat k + 1)) by (apply Z.div_lt_upper_bound; lia).
    cbn [digits_fuel].
    destruct (Z.eqb_spec (n / 10) 0) as [E|_]; [lia|].
    rewrite IH; [cbn; lia | lia | lia | now right].
Qed.

Lemma digits_length (k : nat) n :
  0 <= n < 10 ^ (Z.of_nat k + 1) ->
  k = 0%nat \/ 10 ^ Z.of_nat k <= n ->
  String.length (digits n) = S k.
Proof.
  intros Hn Hk. unfold digits. rewrite (@digits_fuel_length k); cbn; try lia; auto.
  destruct Hk as [->|Hk]; [lia|].
  assert (Z.of_nat k <= Z.log2 n); [|lia].
  rewrite <- (Z.log2_pow2 (Z.of_nat k)) by lia.
  apply Z.log2_le_mono. etransitivity; [|exact Hk].
  apply Z.pow_le_mono_l. lia.
Qed.

Lemma paddedIndex_length i :
  0 <= i ->
  String.length (paddedIndex i) = Nat.max 5 (String.length (string_of_Z i)).
Proof.
  intros Hi. unfold paddedIndex, padStart. rewrite string_length_app.
  assert (Hr : forall m, String.length (repeat_string m "0") = m).
  { induction m as [|m IH]; cbn; [reflexivity|]. now rewrite IH. }
  rewrite Hr. lia.
Qed.

Lemma zip_file_in name c (z : Zip) : In (name, c) (zip_file name c z).
Proof.
  induction z as [|[n c'] r IH]; cbn; [now left|].
  destruct (String.eqb_spec n name) as [->|_]; [now left|now right].
Qed.

Lemma zip_file_keeps name c (z : Zip) n0 c0 :
  n0 <> name -> In (n0, c0) z -> In (n0, c0) (zip_file name c z).
Proof.
  intros Hne. induction z as [|[n c'] r IH]; cbn; [tauto|].
  intros [[= -> ->]|Hin].
  - destruct (String.eqb_spec n0 name); [contradiction|now left].
  - destruct (String.eqb_spec n name); right; auto.
Qed.

(** C9 (as amended).  The direct-image generator pads every index to 5
    characters with zeros, whatever the total supply: an index below 100000
    gives exactly 5 characters, an index of k+1 digits with k >= 5 gives
    k+1 characters.  The padded index is what the metadata name, the image
    URI and the two file names of that item in the archive carry.  The AI
    studio does not pad: its metadata name and file name carry the decimal
    edition number as it is. *)
Theorem paddedIndex_width :
  (forall i, 0 <= i < 100000 -> String.length (paddedIndex i) = 5%nat)
  /\ (forall (k : nat) i,
        (5 <= k)%nat -> 10 ^ Z.of_nat k <= i < 10 ^ (Z.of_nat k + 1) ->
        String.length (paddedIndex i) = S k)
  /\ (forall job collectionData i options,
        let m := generateMetadata job collectionData (paddedIndex i) options in
        md_name m = (projectName collectionData ++ " #" ++ paddedIndex i)%string
        /\ md_image m = ("ipfs://<CID>/" ++ paddedIndex i ++ ".png")%string
        /\ md_file_uri m = (paddedIndex i ++ ".png")%string)
  /\ (forall toPng colors sha collectionData advanced finalQueue i zip job img,
        nth_error finalQueue (Z.to_nat i) = Some job ->
        sourceImage job = Some img ->
        exists zip' data m,
          process_nft toPng colors sha collectionData advanced finalQueue i (inr zip)
          = inr zip'
          /\ In (("images/" ++ paddedIndex i ++ ".png")%string, Image data) zip'
          /\ In (("json/" ++ paddedIndex i ++ ".json")%string, Json m) zip'
          /\ md_name m = (projectName collectionData ++ " #" ++ paddedIndex i)%string)
  /\ (forall job collection,
        let m := Studio.generateNFTMetadata job collection in
        Studio.nft_name m
        = (Studio.name collection ++ " #" ++ string_of_Z (Studio.edition_in_drop job))%string
        /\ Studio.nft_image m = (string_of_Z (Studio.edition_in_drop job) ++ ".png")%string).
Proof.
  split; [|split; [|split; [|split]]].
  - intros i Hi. rewrite paddedIndex_length by lia.
    unfold string_of_Z. destruct (Z.ltb_spec i 0) as [|_]; [lia|].
    assert (Hcases : i < 10 \/ 10 <= i < 100 \/ 100 <= i < 1000
                     \/ 1000 <= i < 10000 \/ 10000 <= i < 100000) by lia.
    destruct Hcases as [H|[H|[H|[H|H]]]].
    + rewrite (@digits_length 0 i); cbn; auto; lia.
    + rewrite (@digits_length 1 i); cbn; auto; lia.
    + rewrite (@digits_length 2 i); cbn; auto; lia.
    + rewrite (@digits_length 3 i); cbn; auto; lia.
    + rewrite (@digits_length 4 i); cbn; auto; lia.
  - intros k i Hk Hi.
    assert (0 < 10 ^ Z.of_nat k) by (apply Z.pow_pos_nonneg; lia).
    rewrite paddedIndex_length by lia.
    unfold string_of_Z. destruct (Z.ltb_spec i 0) as [|_]; [lia|].
    rewrite (@digits_length k i); auto; lia.
  - intros job collectionData i options. cbn. repeat split.
  - intros toPng colors sha collectionData advanced finalQueue i zip job img Hjob Himg.
    unfold process_nft. rewrite Hjob, Himg.
    do 3 eexists. split; [reflexivity|]. split; [|split].
    + apply zip_file_keeps; [discriminate|]. apply zip_file_in.
    + apply zip_file_in.
    + reflexivity.
  - intros job collection. cbn. split; reflexivity.
Qed.

(** Index 42 is written [00042]. *)
Lemma paddedIndex_width_witness :
  0 <= 42 < 100000 /\ String.length (paddedIndex 42) = 5%nat.
Proof.
  split; [lia|]. apply (proj1 paddedIndex_width 42). lia.
Defined.

(** C9, as stated, fails: with a total supply of 1000000 the claimed width
    is 7 (and 6 for the largest index), while index 0 is padded to 5
    characters and index 999999 to 6, so the width is neither the claimed
    one nor the same for every item. *)
Lemma padding_width_counterexample :
  ~ (forall totalSupply i,
       0 <= i < totalSupply ->
       String.length (paddedIndex i)
       = Nat.max 5 (String.length (string_of_Z totalSupply)))
  /\ String.length (paddedIndex 0) = 5%nat
  /\ String.length (paddedIndex 999999) = 6%nat
  /\ Nat.max 5 (String.length (string_of_Z 1000000)) = 7%nat.
Proof.
  split; [|repeat split].
  intros H. specialize (H 1000000 0 ltac:(lia)). vm_compute in H. discriminate.
Qed.

End ServerFacts.


(* ================================================================== *)
(** * Properties of the AI studio services *)
(* ================================================================== *)

Module StudioFacts.
Import Js Studio.

(** ** Running programs *)

Section RunFacts.
Variable env : Env.

Lemma run_bind (A B : Type) (p : Prog A) (f : A -> Prog B) : forall w,
  run env (bind p f) w
  = match run env p w with
    | (inl e, w') => (inl e, w')
    | (inr a, w') => run env (f a) w'
    end.
Proof.
  induction p as [a|e|X g k IH|X op k IH]; intros w; cbn; try reflexivity.
  - destruct (g w) as [x w']. apply IH.
  - destruct (perform env op w) as [r w']. apply IH.
Qed.

Lemma run_try_catch (A : Type) (p : Prog A) (h : string -> Prog A) : forall w,
  run env (try_catch p h) w
  = match run env p w with
    | (inl e, w') => run env (h e) w'
    | (inr a, w') => (inr a, w')
    end.
Proof.
  induction p as [a|e|X g k IH|X op k IH]; intros w; cbn; try reflexivity.
  - destruct (g w) as [x w']. apply IH.
  - destruct (perform env op w) as [r w']. apply IH.
Qed.

Lemma run_await (X : Type) (op : Op X) w :
  run env (await op) w = perform env op w.
Proof.
  cbn. destruct (perform env op w) as [[e|x] w']; reflexivity.
Qed.

Lemma run_rethrow (A : Type) (p : Prog A) w :
  run env (try_catch p (fun e => Throw e)) w = run env p w.
Proof.
  rewrite run_try_catch. destruct (run env p w) as [[e|a] w']; reflexivity.
Qed.

Lemma perform_ok (X : Type) (op : Op X) w :
  fails env op = None ->
  perform env op w = (inr (fst (effect env op (request op w))),
                      snd (effect env op (request op w))).
Proof.
  intros H. unfold perform. rewrite H. now destruct (effect env op (request op w)).
Qed.

Lemma perform_failed (X : Type) (op : Op X) w msg :
  fails env op = Some msg ->
  perform env op w = (inl (rejection op msg), request op w).
Proof.
  intros H. unfold perform. now rewrite H.
Qed.

(** ** The flag at the end of an invocation *)

Lemma releases_run (A : Type) (p : Prog A) : forall w,
  releases p w -> isProcessing (snd (run env p w)) = false.
Proof.
  induction p as [a|e|X g k IH|X op k IH]; intros w H; cbn in *; auto.
  - destruct (g w) as [x w']. apply IH. exact H.
  - destruct (perform env op w) as [r w']. apply IH. apply H.
Qed.

Lemma releases_advance (A : Type) (p : Prog A) : forall w,
  releases p w ->
  match advance p w with
  | (Finished _, w') => isProcessing w' = false
  | (Waiting _ k, _) => forall r w', releases (k r) w'
  end.
Proof.
  induction p as [a|e|X g k IH|X op k IH]; intros w H; cbn in *; auto.
  destruct (g w) as [x w']. apply IH. exact H.
Qed.

Lemma returns_unlocked_bind (A B : Type) (p : Prog A) (f : A -> Prog B) : forall w,
  (forall a w', returns_unlocked (f a) w') -> returns_unlocked (bind p f) w.
Proof.
  induction p as [a|e|X g k IH|X op k IH]; intros w H; cbn; auto.
Qed.

Lemma releases_try_catch (A : Type) (p : Prog A) (h : string -> Prog A) : forall w,
  returns_unlocked p w -> (forall e w', releases (h e) w') ->
  releases (try_catch p h) w.
Proof.
  induction p as [a|e|X g k IH|X op k IH]; intros w Hp Hh; cbn in *; auto.
Qed.

Lemma releases_processInitialBatch collectionId w :
  releases (processInitialBatch env collectionId) w.
Proof.
  unfold processInitialBatch. apply releases_try_catch; [|intros e w'; reflexivity].
  apply returns_unlocked_bind. intros busy w1. destruct busy; [exact I|].
  apply returns_unlocked_bind. intros _ w2.
  apply returns_unlocked_bind. intros pendingJobs w3.
  destruct (List.length pendingJobs =? 0)%nat; [exact I|].
  apply returns_unlocked_bind. intros processedJobs w4. reflexivity.
Qed.

Lemma releases_continueBatchProcessing collectionId w :
  releases (continueBatchProcessing env collectionId) w.
Proof.
  unfold continueBatchProcessing. apply releases_try_catch; [|intros e w'; reflexivity].
  apply returns_unlocked_bind. intros busy w1. destruct busy; [exact I|].
  apply returns_unlocked_bind. intros _ w2.
  apply returns_unlocked_bind. intros pendingJobs w3.
  destruct (List.length pendingJobs =? 0)%nat; [reflexivity|].
  apply returns_unlocked_bind. intros processedJobs w4. reflexivity.
Qed.

End RunFacts.

(** C10.  Each of [processInitialBatch] and [continueBatchProcessing],
    started in any state (the flag set or not) and with any outcome of the
    operations it awaits (a storage failure of the fetch among them), ends
    with [isProcessing] false: when run alone to completion, and, when
    other invocations run between its [await]s, whatever they did to the
    state meanwhile. *)
Theorem batch_releases_flag (env : Env) (collectionId : string) (w : World) :
  isProcessing (snd (run env (processInitialBatch env collectionId) w)) = false
  /\ isProcessing (snd (run env (continueBatchProcessing env collectionId) w)) = false
  /\ releases (processInitialBatch env collectionId) w
  /\ releases (continueBatchProcessing env collectionId) w.
Proof.
  repeat split.
  - apply releases_run, releases_processInitialBatch.
  - apply releases_run, releases_continueBatchProcessing.
  - apply releases_processInitialBatch.
  - apply releases_continueBatchProcessing.
Qed.

(** ** Queries *)

Lemma select_none collectionId st limit table :
  (forall j, In j table ->
     (String.eqb (collection_id j) collectionId
      && match st with Some s => Status_eqb (status j) s | None => true end) = false) ->
  select_by_collection collectionId st limit table = [].
Proof.
  intros H. unfold select_by_collection.
  replace (filter _ table) with (@nil Job).
  - cbn. destruct limit as [n|]; [|reflexivity].
    destruct (n =? 0); [reflexivity|]. unfold sql_limit.
    destruct (n <? 0); [reflexivity|]. now destruct (Z.to_nat n).
  - symmetry. induction table as [|j table IH]; [reflexivity|].
    cbn [filter]. rewrite (H j (or_introl eq_refl)). apply IH.
    intros j' Hj'. apply H. now right.
Qed.

Lemma Status_eqb_eq a b : Status_eqb a b = true <-> a = b.
Proof.
  destruct a, b; cbn; split; intros H; try reflexivity; discriminate.
Qed.

Lemma no_rows_with_status collectionId st table :
  (forall j, In j table -> collection_id j = collectionId -> status j <> st) ->
  forall j, In j table ->
    (String.eqb (collection_id j) collectionId && Status_eqb (status j) st) = false.
Proof.
  intros H j Hj.
  destruct (String.eqb_spec (collection_id j) collectionId) as [E|]; [|reflexivity].
  cbn. destruct (Status_eqb (status j) st) eqn:Hs; [|reflexivity].
  apply Status_eqb_eq in Hs. now destruct (H j Hj E).
Qed.

(** C5 (as amended).  When the collection has no pending job (and the fetch
    itself succeeds, no batch being in flight), [continueBatchProcessing]
    returns the empty list, while [processInitialBatch] fails with the
    error [No pending jobs found]; both leave the state as it was, the flag
    released. *)
Theorem no_pending_jobs_outcome (env : Env) (collectionId : string) (w : World) :
  isProcessing w = false ->
  fails env (JobFindByCollectionId collectionId (Some pending)
                                   (Some (initialBatchSize env))) = None ->
  fails env (JobFindByCollectionId collectionId (Some pending)
                                   (Some (continueBatchSize env))) = None ->
  (forall j, In j (jobs w) -> collection_id j = collectionId -> status j <> pending) ->
  run env (continueBatchProcessing env collectionId) w = (inr [], w)
  /\ run env (processInitialBatch env collectionId) w = (inl no_pending_jobs, w).
Proof.
  intros Hflag Hi Hc Hnone.
  pose proof (@no_rows_with_status _ _ _ Hnone) as Hrows.
  split.
  - unfold continueBatchProcessing. rewrite run_try_catch, run_bind. cbn [get run].
    rewrite Hflag, run_bind. cbn [put run]. rewrite run_bind, run_await.
    rewrite perform_ok by exact Hc. cbn [request effect fst snd jobs set_isProcessing].
    rewrite (@select_none collectionId (Some pending) _ _ Hrows).
    destruct w as [js cs fs ar flag reqs]. cbn in Hflag |- *. now subst flag.
  - unfold processInitialBatch. rewrite run_try_catch, run_bind. cbn [get run].
    rewrite Hflag, run_bind. cbn [put run]. rewrite run_bind, run_await.
    rewrite perform_ok by exact Hi. cbn [request effect fst snd jobs set_isProcessing].
    rewrite (@select_none collectionId (Some pending) _ _ Hrows).
    destruct w as [js cs fs ar flag reqs]. cbn in Hflag |- *. now subst flag.
Qed.

Lemma sample_env_storage : only_generation_fails sample_env.
Proof.
  intros X op H. destruct op; try reflexivity; discriminate.
Qed.

Lemma sample_world_ids : NoDup (map id (jobs sample_world)).
Proof.
  cbn. repeat constructor; cbn; intuition discriminate.
Qed.

(** Collection [c2] of the sample state has no job at all. *)
Lemma no_pending_jobs_outcome_witness :
  isProcessing sample_world = false
  /\ run sample_env (continueBatchProcessing sample_env "c2") sample_world
     = (inr [], sample_world)
  /\ run sample_env (processInitialBatch sample_env "c2") sample_world
     = (inl no_pending_jobs, sample_world).
Proof.
  split; [reflexivity|].
  apply (@no_pending_jobs_outcome sample_env "c2" sample_world);
    try reflexivity.
  intros j Hj. cbn in Hj.
  destruct Hj as [<-|[<-|[<-|[<-|[]]]]]; cbn; discriminate.
Defined.

(** C5, as stated, fails for the initial batch: collection [c2] of the
    sample state has no pending job, and [processInitialBatch] ends with an
    error, not with an empty result. *)
Lemma initial_batch_without_pending_jobs_throws :
  select_by_collection "c2" (Some pending) (Some (initialBatchSize sample_env))
                       (jobs sample_world) = []
  /\ run sample_env (processInitialBatch sample_env "c2") sample_world
     = (inl "No pending jobs found", sample_world)
  /\ forall result : list Job,
       fst (run sample_env (processInitialBatch sample_env "c2") sample_world)
       <> inr result.
Proof.
  split; [reflexivity|]. split; [reflexivity|]. intros result. discriminate.
Qed.

(** ** The batch loop *)

Section BatchFacts.
Variable env : Env.
Hypothesis storage_ok : only_generation_fails env.

Lemma db_ok (X : Type) (op : Op X) w :
  is_generate op = false ->
  perform env op w = (inr (fst (effect env op w)), snd (effect env op w)).
Proof.
  intros H. rewrite perform_ok by (apply storage_ok; exact H).
  now destruct op.
Qed.

Lemma run_loop_body (job : Job) (processedJobs : list Job) w :
  run env
      (try_catch
         (processJob job ;; Ret (processedJobs ++ [job]))
         (fun e =>
            await (JobUpdateStatus (id job) error [(f_error_message, Some e)]) ;;
            await (JobIncrementRetryCount (id job)) ;;
            Ret processedJobs)) w
  = (inr (if succeeds env job then processedJobs ++ [job] else processedJobs),
     job_step env job w).
Proof.
  rewrite run_try_catch, run_bind. unfold processJob. rewrite run_rethrow.
  rewrite run_bind, run_await, db_ok by reflexivity. cbn [effect fst snd].
  rewrite run_bind, run_await. unfold succeeds, job_step.
  destruct (fails env (GenerateImage (ai_prompt job) (id job))) as [msg|] eqn:Hg.
  - rewrite perform_failed with (msg := msg) by exact Hg. cbn [request rejection].
    rewrite run_bind, run_await, db_ok by reflexivity. cbn [effect fst snd].
    rewrite run_bind, run_await, db_ok by reflexivity. cbn [effect fst snd].
    destruct w; reflexivity.
  - rewrite perform_ok by exact Hg. cbn [request effect fst snd].
    rewrite run_bind, run_await, db_ok by reflexivity. cbn [effect fst snd].
    destruct w; reflexivity.
Qed.

Lemma run_process_jobs : forall pendingJobs processedJobs w,
  run env (process_jobs pendingJobs processedJobs) w
  = (inr (processedJobs ++ filter (succeeds env) pendingJobs),
     fold_left (fun w j => job_step env j w) pendingJobs w).
Proof.
  induction pendingJobs as [|job rest IH]; intros processedJobs w.
  - cbn. now rewrite app_nil_r.
  - cbn [process_jobs]. rewrite run_bind, run_loop_body, IH. cbn [fold_left filter].
    destruct (succeeds env job); [|reflexivity].
    now rewrite <- app_assoc.
Qed.

Lemma update_where_id_twice jobId (f g : Job -> Job) table :
  (forall r, id (g r) = id r) ->
  update_where_id jobId f (update_where_id jobId g table)
  = update_where_id jobId (fun r => f (g r)) table.
Proof.
  intros Hg. unfold update_where_id. rewrite map_map. apply map_ext. intros r.
  destruct (String.eqb_spec (id r) jobId) as [E|N].
  - rewrite Hg. now destruct (String.eqb_spec (id r) jobId).
  - now destruct (String.eqb_spec (id r) jobId).
Qed.

Lemma update_where_id_ext jobId (f g : Job -> Job) table :
  (forall r, id r = jobId -> f r = g r) ->
  update_where_id jobId f table = update_where_id jobId g table.
Proof.
  intros H. unfold update_where_id. apply map_ext. intros r.
  destruct (String.eqb_spec (id r) jobId); auto.
Qed.

Lemma job_step_jobs j w :
  jobs (job_step env j w) = update_where_id (id j) (outcome_by env j) (jobs w).
Proof.
  unfold job_step, outcome_by.
  destruct (fails env (GenerateImage (ai_prompt j) (id j))) as [msg|]; cbn [jobs].
  - rewrite !update_where_id_twice by reflexivity.
    apply update_where_id_ext. reflexivity.
  - rewrite !update_where_id_twice by reflexivity.
    apply update_where_id_ext. intros r E. unfold generated_row, image_of.
    rewrite <- E. reflexivity.
Qed.

Lemma batch_world : forall pendingJobs w,
  let w' := fold_left (fun w j => job_step env j w) pendingJobs w in
  jobs w' = fold_left (fun js j => update_where_id (id j) (outcome_by env j) js)
                      pendingJobs (jobs w)
  /\ aiRequests w' = aiRequests w ++ map id pendingJobs
  /\ isProcessing w' = isProcessing w.
Proof.
  induction pendingJobs as [|j rest IH]; intros w; cbn.
  - now rewrite app_nil_r.
  - destruct (IH (job_step env j w)) as (Hj & Hr & Hf).
    rewrite Hj, Hr, Hf, job_step_jobs. repeat split.
    + unfold job_step. destruct (fails env _); cbn; now rewrite <- app_assoc.
    + unfold job_step. now destruct (fails env _).
Qed.

End BatchFacts.

(** ** Rows with distinct ids *)

Lemma in_batch_app a b j : in_batch (a ++ b) j = in_batch a j || in_batch b j.
Proof. unfold in_batch. apply existsb_app. Qed.

Lemma in_batch_true batch j :
  in_batch batch j = true <-> In (id j) (map id batch).
Proof.
  unfold in_batch. rewrite existsb_exists, in_map_iff. split.
  - intros (b & Hb & E). apply String.eqb_eq in E. eauto.
  - intros (b & E & Hb). exists b. split; [exact Hb|]. now apply String.eqb_eq.
Qed.

Lemma same_id_same_row (table : list Job) a b :
  NoDup (map id table) -> In a table -> In b table -> id a = id b -> a = b.
Proof.
  induction table as [|r table IH]; cbn; intros Hnd Ha Hb E; [contradiction|].
  inversion Hnd as [|? ? Hnotin Hnd']; subst.
  destruct Ha as [->|Ha], Hb as [->|Hb]; auto.
  - exfalso. apply Hnotin. rewrite E. now apply in_map.
  - exfalso. apply Hnotin. rewrite <- E. now apply in_map.
Qed.

Lemma settle_id env batch r : id (settle env batch r) = id r.
Proof.
  unfold settle, outcome, outcome_by. destruct (in_batch batch r); [|reflexivity].
  now destruct (fails env _).
Qed.

Lemma fold_updates env (table : list Job) :
  NoDup (map id table) ->
  forall rest done,
    NoDup (map id (done ++ rest)) ->
    incl (done ++ rest) table ->
    fold_left (fun js j => update_where_id (id j) (outcome_by env j) js) rest
              (map (settle env done) table)
    = map (settle env (done ++ rest)) table.
Proof.
  intros Hnd. induction rest as [|j rest IH]; intros done Hd Hincl.
  - now rewrite app_nil_r.
  - cbn [fold_left].
    replace (done ++ j :: rest) with ((done ++ [j]) ++ rest) in *
      by now rewrite <- app_assoc.
    rewrite <- IH by assumption. f_equal.
    unfold update_where_id. rewrite map_map. apply map_ext_in. intros r Hr.
    rewrite settle_id.
    assert (Hj : In j table) by (apply Hincl; rewrite !in_app_iff; cbn; auto).
    assert (Hjd : in_batch done j = false).
    { destruct (in_batch done j) eqn:E; [|reflexivity].
      apply in_batch_true in E. rewrite !map_app in Hd.
      apply NoDup_app_remove_r in Hd. cbn in Hd.
      apply NoDup_remove_2 in Hd. rewrite app_nil_r in Hd. contradiction. }
    assert (Hs : settle env (done ++ [j]) r
                 = if in_batch done r || String.eqb (id j) (id r)
                   then outcome env r else r).
    { unfold settle. rewrite in_batch_app. unfold in_batch at 2.
      cbn [existsb]. now rewrite orb_false_r. }
    rewrite Hs.
    destruct (String.eqb_spec (id r) (id j)) as [E|N].
    + assert (r = j) by exact (@same_id_same_row table r j Hnd Hr Hj E). subst r.
      unfold settle. rewrite Hjd, String.eqb_refl. reflexivity.
    + destruct (String.eqb_spec (id j) (id r)); [congruence|].
      unfold settle. now rewrite orb_false_r.
Qed.

Lemma map_settle_nil env (table : list Job) : map (settle env []) table = table.
Proof. unfold settle. cbn. apply map_id. Qed.

(** ** Queries return rows of the table, once each *)

Lemma insert_by_edition_perm j l : Permutation (j :: l) (insert_by_edition j l).
Proof.
  induction l as [|x l IH]; cbn; [reflexivity|].
  destruct (edition_number j <? edition_number x); [reflexivity|].
  rewrite perm_swap. now constructor.
Qed.

Lemma order_by_edition_perm l : Permutation l (order_by_edition l).
Proof.
  induction l as [|x l IH]; cbn; [constructor|].
  rewrite <- insert_by_edition_perm. now constructor.
Qed.

Lemma NoDup_map_filter (f : Job -> bool) (l : list Job) :
  NoDup (map id l) -> NoDup (map id (filter f l)).
Proof.
  induction l as [|x l IH]; cbn; intros H; [constructor|].
  inversion H as [|? ? Hn Hd]; subst.
  destruct (f x); cbn; auto. constructor; auto.
  intros Hin. apply Hn. apply in_map_iff in Hin as (y & E & Hy).
  apply filter_In in Hy as [Hy _]. rewrite <- E. now apply in_map.
Qed.

Lemma NoDup_firstn (A : Type) n (l : list A) : NoDup l -> NoDup (firstn n l).
Proof.
  intros H. rewrite <- (firstn_skipn n l) in H. now apply NoDup_app_remove_r in H.
Qed.

Lemma select_rows collectionId st limit table :
  NoDup (map id table) ->
  let rows := select_by_collection collectionId st limit table in
  NoDup (map id rows) /\ incl rows table.
Proof.
  intros Hnd. unfold select_by_collection.
  set (rows := filter _ table).
  assert (Hs : NoDup (map id (order_by_edition rows)) /\ incl (order_by_edition rows) table).
  { split.
    - eapply Permutation_NoDup; [apply Permutation_map, order_by_edition_perm|].
      now apply NoDup_map_filter.
    - intros j Hj. apply (Permutation_in _ (Permutation_sym (order_by_edition_perm rows))) in Hj.
      now apply filter_In in Hj. }
  assert (Hl : forall n, NoDup (map id (sql_limit n (order_by_edition rows)))
                         /\ incl (sql_limit n (order_by_edition rows)) table).
  { intros n. unfold sql_limit. destruct (n <? 0); [exact Hs|]. split.
    - rewrite <- firstn_map. apply NoDup_firstn, Hs.
    - intros j Hj. apply Hs. rewrite <- (firstn_skipn (Z.to_nat n)).
      apply in_or_app. now left. }
  destruct limit as [n|]; [|exact Hs].
  destruct (n =? 0); [exact Hs|apply Hl].
Qed.

Lemma find_job_map jobId (f : Job -> Job) table :
  (forall r, id (f r) = id r) ->
  find_job jobId (map f table) = option_map f (find_job jobId table).
Proof.
  intros Hf. unfold find_job. induction table as [|r table IH]; cbn; [reflexivity|].
  rewrite Hf. now destruct (String.eqb (id r) jobId).
Qed.

Lemma find_job_in (table : list Job) j :
  NoDup (map id table) -> In j table -> find_job (id j) table = Some j.
Proof.
  unfold find_job. induction table as [|r table IH]; cbn; intros Hnd Hj; [contradiction|].
  inversion Hnd as [|? ? Hn Hd]; subst.
  destruct (String.eqb_spec (id r) (id j)) as [E|N].
  - destruct Hj as [->|Hj]; [reflexivity|].
    exfalso. apply Hn. rewrite E. now apply in_map.
  - destruct Hj as [->|Hj]; [congruence|]. auto.
Qed.

(** ** Batches *)

Lemma batch_loop_result env w batch :
  only_generation_fails env ->
  NoDup (map id (jobs w)) -> NoDup (map id batch) -> incl batch (jobs w) ->
  let r := run env (process_jobs batch []) w in
  fst r = inr (filter (succeeds env) batch)
  /\ jobs (snd r) = map (settle env batch) (jobs w)
  /\ aiRequests (snd r) = aiRequests w ++ map id batch
  /\ isProcessing (snd r) = isProcessing w
  /\ Forall (settled env (snd r)) batch.
Proof.
  intros Hok Hnd Hb Hincl. cbv zeta. rewrite run_process_jobs by exact Hok.
  cbn [fst snd app].
  destruct (batch_world env batch w) as (Hj & Hr & Hf).
  assert (Hjobs : jobs (fold_left (fun w j => job_step env j w) batch w)
                  = map (settle env batch) (jobs w)).
  { rewrite Hj. rewrite <- (map_settle_nil env (jobs w)) at 1.
    now apply (@fold_updates env (jobs w) Hnd batch []). }
  repeat split; auto.
  apply Forall_forall. intros j Hjin. split.
  - rewrite Hr. apply in_or_app. right. now apply in_map.
  - exists (outcome env j). split.
    + rewrite Hjobs, find_job_map by apply settle_id.
      rewrite find_job_in by auto. cbn. unfold settle.
      replace (in_batch batch j) with true; [reflexivity|].
      symmetry. apply in_batch_true. now apply in_map.
    + unfold outcome, outcome_by.
      destruct (fails env (GenerateImage (ai_prompt j) (id j))); cbn; auto.
Qed.

(** C4.  When only the image provider may fail, a batch (initial or
    continuation) started with no batch in flight on a table with distinct
    ids returns normally, whatever jobs fail: the provider is called for
    every fetched job, in order; the row of a job whose generation failed
    gets status [error], the error message and a retry count increased by
    exactly one; the row of every other fetched job gets status [generated]
    and its image; the rows outside the batch are unchanged; the returned
    list is the fetched jobs whose generation succeeded. *)
Theorem batch_survives_generation_failures (env : Env) (collectionId : string) (w : World) :
  isProcessing w = false ->
  NoDup (map id (jobs w)) ->
  only_generation_fails env ->
  let initial := select_by_collection collectionId (Some pending)
                                      (Some (initialBatchSize env)) (jobs w) in
  let continuation := select_by_collection collectionId (Some pending)
                                           (Some (continueBatchSize env)) (jobs w) in
  let ri := run env (processInitialBatch env collectionId) w in
  let rc := run env (continueBatchProcessing env collectionId) w in
  (initial <> [] ->
   fst ri = inr (filter (succeeds env) initial)
   /\ jobs (snd ri) = map (settle env initial) (jobs w)
   /\ aiRequests (snd ri) = aiRequests w ++ map id initial
   /\ Forall (settled env (snd ri)) initial)
  /\ (fst rc = inr (filter (succeeds env) continuation)
      /\ jobs (snd rc) = map (settle env continuation) (jobs w)
      /\ aiRequests (snd rc) = aiRequests w ++ map id continuation
      /\ Forall (settled env (snd rc)) continuation).
Proof.
  intros Hflag Hnd Hok initial continuation ri rc.
  destruct (@select_rows collectionId (Some pending) (Some (initialBatchSize env))
                         (jobs w) Hnd) as [Hi1 Hi2].
  destruct (@select_rows collectionId (Some pending) (Some (continueBatchSize env))
                         (jobs w) Hnd) as [Hc1 Hc2].
  fold initial in Hi1, Hi2. fold continuation in Hc1, Hc2.
  split.
  - intros Hne. subst ri. unfold processInitialBatch.
    rewrite run_try_catch, run_bind. cbn [get run]. rewrite Hflag, run_bind.
    cbn [put run]. rewrite run_bind, run_await, db_ok by auto.
    cbn [effect fst snd jobs set_isProcessing]. fold initial.
    destruct initial as [|j0 rest] eqn:Hinit; [congruence|]. cbn [List.length Nat.eqb].
    rewrite run_bind.
    destruct (@batch_loop_result env
                (mkWorld (jobs w) (collections w) (files w) (archives w) true (aiRequests w))
                (j0 :: rest) Hok Hnd Hi1 Hi2) as (H1 & H2 & H3 & H4 & H5).
    destruct (run env (process_jobs (j0 :: rest) []) _) as [[e|processed] w1].
    + discriminate.
    + cbn [fst snd] in *. injection H1 as ->. cbn. repeat split; auto.
  - subst rc. unfold continueBatchProcessing.
    rewrite run_try_catch, run_bind. cbn [get run]. rewrite Hflag, run_bind.
    cbn [put run]. rewrite run_bind, run_await, db_ok by auto.
    cbn [effect fst snd jobs set_isProcessing]. fold continuation.
    destruct continuation as [|j0 rest] eqn:Hcont.
    + cbn. rewrite map_settle_nil, app_nil_r. repeat split; auto.
    + cbn [List.length Nat.eqb]. rewrite run_bind.
      destruct (@batch_loop_result env
                  (mkWorld (jobs w) (collections w) (files w) (archives w) true (aiRequests w))
                  (j0 :: rest) Hok Hnd Hc1 Hc2) as (H1 & H2 & H3 & H4 & H5).
      destruct (run env (process_jobs (j0 :: rest) []) _) as [[e|processed] w1].
      * discriminate.
      * cbn [fst snd] in *. injection H1 as ->. cbn. repeat split; auto.
Qed.

(** Collection [c1] of the sample state has two pending jobs; the provider
    fails for the second. *)
Lemma batch_survives_generation_failures_witness :
  isProcessing sample_world = false
  /\ fst (run sample_env (processInitialBatch sample_env "c1") sample_world)
     = inr [sample_job "j1" 1 pending None None]
  /\ Forall (settled sample_env
                     (snd (run sample_env (processInitialBatch sample_env "c1") sample_world)))
            [sample_job "j1" 1 pending None None; sample_job "j2" 2 pending None None]
  /\ Forall (settled sample_env
                     (snd (run sample_env (continueBatchProcessing sample_env "c1")
                               sample_world)))
            [sample_job "j1" 1 pending None None; sample_job "j2" 2 pending None None].
Proof.
  split; [reflexivity|].
  destruct (@batch_survives_generation_failures sample_env "c1" sample_world
              eq_refl sample_world_ids sample_env_storage) as [Hi Hc].
  destruct Hi as (H1 & _ & _ & H4); [discriminate|].
  destruct Hc as (_ & _ & _ & H8).
  split; [exact H1|]. split; [exact H4|exact H8].
Defined.

(** ** Regeneration *)

Lemma find_job_update jobId (f : Job -> Job) table :
  (forall r, id (f r) = id r) ->
  find_job jobId (update_where_id jobId f table) = option_map f (find_job jobId table).
Proof.
  intros Hf. unfold find_job, update_where_id.
  induction table as [|r table IH]; cbn; [reflexivity|].
  destruct (String.eqb_spec (id r) jobId) as [E|N].
  - rewrite Hf. now destruct (String.eqb_spec (id r) jobId).
  - now destruct (String.eqb_spec (id r) jobId).
Qed.

Lemma find_job_id jobId table job : find_job jobId table = Some job -> id job = jobId.
Proof.
  unfold find_job. intros H. apply find_some in H as [_ H]. now apply String.eqb_eq.
Qed.

Lemma unlinked (path : option string) w p :
  path = Some p -> p <> EmptyString ->
  ~ In p (files (if exists_file path w then unlink path w else w)).
Proof.
  intros -> Hp. unfold exists_file, unlink.
  destruct (String.eqb_spec p EmptyString) as [|_]; [contradiction|]. cbn [negb andb].
  destruct (existsb (String.eqb p) (files w)) eqn:E; cbn [files set_files].
  - rewrite filter_In. intros [_ H]. now rewrite String.eqb_refl in H.
  - intros Hin. assert (existsb (String.eqb p) (files w) = true); [|congruence].
    apply existsb_exists. exists p. split; [exact Hin|apply String.eqb_refl].
Qed.

(** C6 (as amended).  For a job found by its id, in particular one whose
    status is [generated] or [error], [regenerateJob] first deletes the old
    image file and resets the row to [pending] with image path, metadata
    path and error message cleared, and then processes the job at once: if
    the generation succeeds the call returns and the row is [generated]
    with the new image path, no metadata path and no error message; if it
    fails the call throws and the row stays [generating] with the three
    fields cleared.  None of this depends on the status the job started
    from.  The route answers 200 in the first case and 500 in the second. *)
Theorem regenerateJob_resets_then_generates (env : Env) (jobId : string) (job : Job)
        (w : World) :
  only_generation_fails env ->
  find_job jobId (jobs w) = Some job ->
  status job = generated \/ status job = error ->
  let reset := run env (regenerate_reset jobId) w in
  let whole := run env (regenerateJob jobId) w in
  let route := run env (post_regenerate jobId) w in
  (fst reset = inr job
   /\ find_job jobId (jobs (snd reset)) = Some (reset_row job)
   /\ forall p, image_path job = Some p -> p <> EmptyString -> ~ In p (files (snd reset)))
  /\ match fails env (GenerateImage (ai_prompt job) (id job)) with
     | None =>
         fst whole = inr true
         /\ find_job jobId (jobs (snd whole)) = Some (regenerated_row env job)
         /\ In (image_of env job) (files (snd whole))
         /\ route = (inr (200, "Job regeneration started"), snd whole)
     | Some msg =>
         fst whole = inl (generate_failed msg)
         /\ find_job jobId (jobs (snd whole)) = Some (stuck_row job)
         /\ route = (inr (500, "Failed to regenerate job"), snd whole)
     end.
Proof.
  intros Hok Hfind Hst reset whole route.
  pose proof (find_job_id _ _ Hfind) as Hid. subst jobId.
  assert (Hreset : reset
                   = (inr job,
                      set_jobs
                        (update_where_id (id job)
                           (apply_update pending
                              [(f_image_path, None); (f_metadata_path, None);
                               (f_error_message, None)])
                           (jobs w))
                        (if exists_file (image_path job) w
                         then unlink (image_path job) w else w))).
  { subst reset. unfold regenerate_reset.
    rewrite run_bind, run_await, db_ok by auto. cbn [effect fst snd].
    fold (find_job (id job) (jobs w)). rewrite Hfind.
    rewrite run_bind. cbn [put run]. rewrite run_bind, run_await, db_ok by auto.
    cbn [effect fst snd run].
    replace (jobs (if exists_file (image_path job) w then unlink (image_path job) w else w))
      with (jobs w); [reflexivity|].
    destruct (exists_file (image_path job) w); [|reflexivity].
    unfold unlink. now destruct (image_path job). }
  assert (Hrow : find_job (id job) (jobs (snd reset)) = Some (reset_row job)).
  { rewrite Hreset. cbn [snd jobs set_jobs].
    rewrite find_job_update by reflexivity. now rewrite Hfind. }
  split.
  - rewrite Hreset at 1. cbn [fst]. split; [reflexivity|]. split; [exact Hrow|].
    intros p Hp Hne. rewrite Hreset. cbn [snd].
    change (~ In p (files (if exists_file (image_path job) w
                           then unlink (image_path job) w else w))).
    now apply unlinked.
  - assert (Hwhole : whole
                     = match fst reset with
                       | inl e => (inl e, snd reset)
                       | inr j =>
                           match run env (processJob j) (snd reset) with
                           | (inl e, w') => (inl e, w')
                           | (inr _, w') => (inr true, w')
                           end
                       end).
    { subst whole. unfold regenerateJob. rewrite run_rethrow, run_bind.
      fold reset. destruct reset as [[e|j] w1]; cbn [fst snd]; [reflexivity|].
      rewrite run_bind. now destruct (run env (processJob j) w1) as [[e|u] w']. }
    assert (Hroute : route
                     = match whole with
                       | (inl _, w') => (inr (500, "Failed to regenerate job"), w')
                       | (inr _, w') => (inr (200, "Job regeneration started"), w')
                       end).
    { subst route. unfold post_regenerate.
      rewrite run_try_catch, run_bind, run_await, db_ok by auto. cbn [effect fst snd].
      fold (find_job (id job) (jobs w)). rewrite Hfind.
      replace (negb _) with false by (destruct Hst as [-> | ->]; reflexivity).
      rewrite run_bind. fold whole. now destruct whole as [[e|b] w']. }
    rewrite Hroute, Hwhole. rewrite Hreset in Hrow |- *. cbn [fst snd] in Hrow |- *.
    set (w1 := set_jobs _ _) in *.
    unfold processJob. rewrite run_rethrow.
    rewrite run_bind, run_await, db_ok by auto. cbn [effect fst snd].
    rewrite run_bind, run_await.
    destruct (fails env (GenerateImage (ai_prompt job) (id job))) as [msg|] eqn:Hg.
    + rewrite perform_failed with (msg := msg) by exact Hg.
      cbn [request rejection fst snd jobs set_jobs set_aiRequests].
      rewrite find_job_update by reflexivity. rewrite Hrow.
      repeat split.
    + rewrite perform_ok by exact Hg. cbn [request effect fst snd].
      rewrite run_bind, run_await, db_ok by auto.
      cbn [effect fst snd run jobs files set_jobs set_files set_aiRequests].
      rewrite !find_job_update by reflexivity. rewrite Hrow.
      repeat split. now left.
Qed.

(** Job [j3] of the sample state is [generated]. *)
Lemma regenerateJob_resets_then_generates_witness :
  find_job "j3" (jobs sample_world)
  = Some (sample_job "j3" 3 generated (Some "uploads/j3.png") None)
  /\ find_job "j3" (jobs (snd (run sample_env (regenerate_reset "j3") sample_world)))
     = Some (reset_row (sample_job "j3" 3 generated (Some "uploads/j3.png") None))
  /\ find_job "j3" (jobs (snd (run sample_env (regenerateJob "j3") sample_world)))
     = Some (regenerated_row sample_env
                             (sample_job "j3" 3 generated (Some "uploads/j3.png") None)).
Proof.
  split; [reflexivity|].
  destruct (@regenerateJob_resets_then_generates sample_env "j3"
              (sample_job "j3" 3 generated (Some "uploads/j3.png") None) sample_world
              sample_env_storage eq_refl (or_introl eq_refl))
    as [(_ & Hreset & _) Hwhole].
  split; [exact Hreset|]. cbn in Hwhole. apply Hwhole.
Defined.

(** C6, as stated, fails: job [j3] of the sample state is [generated]; the
    route accepts its regeneration, and when the call returns the row is
    [generated] again, with an image path, not [pending] with the image
    path cleared. *)
Lemma regenerated_job_is_not_pending :
  find_job "j3" (jobs sample_world)
  = Some (sample_job "j3" 3 generated (Some "uploads/j3.png") None)
  /\ fst (run sample_env (post_regenerate "j3") sample_world)
     = inr (200, "Job regeneration started")
  /\ fst (run sample_env (regenerateJob "j3") sample_world) = inr true
  /\ exists row,
       find_job "j3" (jobs (snd (run sample_env (regenerateJob "j3") sample_world)))
       = Some row
       /\ status row = generated
       /\ status row <> pending
       /\ image_path row = Some "uploads/j3.png"
       /\ image_path row <> None.
Proof.
  split; [reflexivity|]. split; [reflexivity|]. split; [reflexivity|].
  eexists. split; [reflexivity|]. repeat split; discriminate.
Qed.

(** ** The collection package *)

Lemma list_ascii_app (a b : string) :
  list_ascii_of_string (a ++ b) = list_ascii_of_string a ++ list_ascii_of_string b.
Proof.
  induction a as [|c a IH]; cbn; [reflexivity|]. now rewrite IH.
Qed.

Lemma png_is_image (n : string) :
  ends_with ".png" (n ++ ".png") = true /\ ends_with ".json" (n ++ ".png") = false.
Proof.
  unfold ends_with. rewrite list_ascii_app, rev_app_distr. split; reflexivity.
Qed.

Lemma json_is_metadata (n : string) :
  ends_with ".json" (n ++ ".json") = true /\ ends_with ".png" (n ++ ".json") = false.
Proof.
  unfold ends_with. rewrite list_ascii_app, rev_app_distr. split; reflexivity.
Qed.

Lemma count_app f a b : count f (a ++ b) = (count f a + count f b)%nat.
Proof. unfold count. now rewrite filter_app, length_app. Qed.

Lemma job_entries_counts w (approvedJobs : list Job) :
  Forall (fun j => exists_file (image_path j) w = true
                   /\ exists_file (metadata_path j) w = true) approvedJobs ->
  let entries := flat_map (job_entries w) approvedJobs in
  count is_image_entry entries = List.length approvedJobs
  /\ count is_metadata_entry entries = List.length approvedJobs
  /\ count is_manifest_entry entries = 0%nat
  /\ count is_readme_entry entries = 0%nat
  /\ List.length entries = (2 * List.length approvedJobs)%nat.
Proof.
  induction 1 as [|j rest [Hi Hm] _ IH]; [repeat split|].
  cbn [flat_map List.length]. cbv zeta in *.
  destruct IH as (I1 & I2 & I3 & I4 & I5).
  rewrite !count_app, length_app, I1, I2, I3, I4, I5.
  unfold job_entries. rewrite Hi, Hm. unfold count. cbn [app filter is_image_entry
    is_metadata_entry is_manifest_entry is_readme_entry List.length].
  destruct (png_is_image (string_of_Z (edition_in_drop j))) as [-> ->].
  destruct (json_is_metadata (string_of_Z (edition_in_drop j))) as [-> ->].
  cbn. repeat split; lia.
Qed.

(** C8.  [createCollectionPackage] on an existing collection: with no
    approved job it throws [No approved jobs found for collection] and
    leaves the state as it was, no archive written; with N approved jobs
    whose image and metadata files all exist it writes one archive whose
    entries are N images, N metadata files, exactly one [collection.json]
    and, besides, one [README.md]: 2N + 2 entries in all. *)
Theorem createCollectionPackage_entries (env : Env) (collectionId : string)
        (collection : Collection) (w : World) :
  only_generation_fails env ->
  find (fun c => String.eqb (c_id c) collectionId) (collections w) = Some collection ->
  let approvedJobs := select_by_collection collectionId (Some approved) None (jobs w) in
  let r := run env (createCollectionPackage env collectionId) w in
  ((forall j, In j (jobs w) -> collection_id j = collectionId -> status j <> approved) ->
   r = (inl no_approved_jobs, w))
  /\ (approvedJobs <> [] ->
      Forall (fun j => exists_file (image_path j) w = true
                       /\ exists_file (metadata_path j) w = true) approvedJobs ->
      exists zipPath entries,
        fst r = inr zipPath
        /\ archives (snd r) = (zipPath, entries) :: archives w
        /\ count is_image_entry entries = List.length approvedJobs
        /\ count is_metadata_entry entries = List.length approvedJobs
        /\ count is_manifest_entry entries = 1%nat
        /\ count is_readme_entry entries = 1%nat
        /\ List.length entries = (2 * List.length approvedJobs + 2)%nat).
Proof.
  intros Hok Hcol approvedJobs r.
  assert (Hr : r = match approvedJobs with
                   | [] => (inl no_approved_jobs, w)
                   | _ :: _ =>
                       run env
                         (entries <- get (fun w =>
                            [DataEntry (CollectionJson (generateCollectionMetadata collection))
                                       "collection.json"]
                            ++ flat_map (job_entries w) approvedJobs
                            ++ [DataEntry (Readme collection (List.length approvedJobs))
                                          "README.md"]) ;;
                          await (ArchiveFinalize
                                   (path_join (outputDir env)
                                      (sanitize (name collection) ++ "_"
                                         ++ string_of_Z (collection_number collection)
                                         ++ ".zip")%string)
                                   entries)) w
                   end).
  { subst r. unfold createCollectionPackage.
    rewrite run_rethrow, run_bind, run_await, db_ok by auto. cbn [effect fst snd].
    rewrite Hcol. rewrite run_bind, run_await, db_ok by auto. cbn [effect fst snd].
    fold approvedJobs. now destruct approvedJobs. }
  split.
  - intros Hnone. rewrite Hr. subst approvedJobs.
    rewrite (@select_none collectionId (Some approved) None (jobs w)); [reflexivity|].
    now apply no_rows_with_status.
  - intros Hne Hfiles. rewrite Hr.
    destruct approvedJobs as [|j0 rest] eqn:Ha; [congruence|].
    rewrite run_bind. cbn [get run]. rewrite run_await, db_ok by auto.
    cbn [effect fst snd archives set_archives set_files].
    do 2 eexists. split; [reflexivity|]. split; [reflexivity|].
    destruct (@job_entries_counts w (j0 :: rest) Hfiles) as (I1 & I2 & I3 & I4 & I5).
    rewrite !count_app, !length_app, I1, I2, I3, I4, I5.
    cbn. repeat split; lia.
Qed.

(** Collection [c2] of the sample state has no approved job, collection
    [c1] has one, whose two files exist. *)
Lemma createCollectionPackage_entries_witness :
  (forall j, In j (jobs sample_world) -> collection_id j = "c2" -> status j <> approved)
  /\ run sample_env (createCollectionPackage sample_env "c2") sample_world
     = (inl no_approved_jobs, sample_world)
  /\ exists zipPath entries,
       fst (run sample_env (createCollectionPackage sample_env "c1") sample_world)
       = inr zipPath
       /\ archives (snd (run sample_env (createCollectionPackage sample_env "c1")
                             sample_world))
          = (zipPath, entries) :: archives sample_world
       /\ count is_image_entry entries = 1%nat
       /\ count is_metadata_entry entries = 1%nat
       /\ count is_manifest_entry entries = 1%nat
       /\ count is_readme_entry entries = 1%nat
       /\ List.length entries = 4%nat.
Proof.
  assert (Hnone : forall j, In j (jobs sample_world) -> collection_id j = "c2" ->
                            status j <> approved).
  { intros j Hj. cbn in Hj. destruct Hj as [<-|[<-|[<-|[<-|[]]]]]; cbn; discriminate. }
  split; [exact Hnone|]. split.
  - apply (proj1 (@createCollectionPackage_entries sample_env "c2"
                    (mkCollection "c2" "Empty" "EMP" "Nothing yet" 2 0 0 1) sample_world
                    sample_env_storage eq_refl)).
    exact Hnone.
  - apply (proj2 (@createCollectionPackage_entries sample_env "c1"
                    (mkCollection "c1" "Foxes" "FOX" "Some foxes" 1 4 4 1) sample_world
                    sample_env_storage eq_refl)).
    + discriminate.
    + repeat constructor.
Defined.

(** ** The single-flight flag under interleaving *)

(** C3 (the code departs from it).  With no batch in flight a call is
    accepted and sets the flag; a second call, made while the first is
    suspended at its fetch, is rejected at once with [Job processing
    already in progress] and touches no row, but its [catch] clears the
    flag; a third call made while the first is still suspended is then
    accepted, and two batches are in flight. *)
Theorem rejected_call_clears_flag (env : Env) (c1 c2 c3 : string) (w : World) :
  isProcessing w = false ->
  let first := Call (processInitialBatch env c1) in
  let second := Call (continueBatchProcessing env c2) in
  let third := Call (processInitialBatch env c3) in
  let s1 := exec env [first] (mkSystem w []) in
  let s2 := exec env [first; second] (mkSystem w []) in
  let s3 := exec env [first; second; third] (mkSystem w []) in
  (in_flight s1 = 1%nat /\ isProcessing (world s1) = true)
  /\ (nth_error (tasks s2) 1 = Some (Finished (inl already_in_progress))
      /\ jobs (world s2) = jobs w /\ aiRequests (world s2) = aiRequests w
      /\ in_flight s2 = 1%nat /\ isProcessing (world s2) = false)
  /\ in_flight s3 = 2%nat.
Proof.
  intros Hflag. destruct w as [js cs fs ar flag reqs]. cbn in Hflag. subst flag.
  cbv zeta. repeat split.
Qed.

(** Three calls on the sample state, none resumed. *)
Lemma rejected_call_clears_flag_witness :
  isProcessing sample_world = false
  /\ in_flight (exec sample_env
                     [Call (processInitialBatch sample_env "c1");
                      Call (continueBatchProcessing sample_env "c1");
                      Call (processInitialBatch sample_env "c1")]
                     (mkSystem sample_world [])) = 2%nat.
Proof.
  split; [reflexivity|].
  apply (@rejected_call_clears_flag sample_env "c1" "c1" "c1" sample_world eq_refl).
Defined.

End StudioFacts.

(* ================================================================== *)
(** * More properties of the direct-image generator *)
(* ================================================================== *)

Module ServerExtraFacts.
Import Js Server ServerExtra ServerFacts.

(** ** Decimal strings denote the number they were made from *)

Lemma digit_value_digit d : 0 <= d < 10 -> digit_value (digit d) = d.
Proof.
  intros Hd. unfold digit_value, digit.
  rewrite nat_ascii_embedding by lia. lia.
Qed.

Lemma number_from_app (a b : string) : forall v,
  number_from (a ++ b) v = number_from b (number_from a v).
Proof.
  induction a as [|c a IH]; intros v; cbn; [reflexivity|apply IH].
Qed.

Lemma number_from_digits_fuel : forall fuel n acc,
  0 <= n < 2 ^ (Z.of_nat fuel + 1) ->
  number_from (digits_fuel fuel n acc) 0 = number_from acc n.
Proof.
  induction fuel as [|fuel IH]; intros n acc Hn.
  - cbn [digits_fuel number_from]. change (2 ^ (Z.of_nat 0 + 1)) with 2 in Hn.
    rewrite digit_value_digit by (apply Z.mod_pos_bound; lia).
    rewrite Z.mod_small by lia. f_equal; lia.
  - cbn [digits_fuel].
    pose proof (Z.div_mod n 10 ltac:(lia)) as Hdm.
    pose proof (Z.mod_pos_bound n 10 ltac:(lia)) as Hm.
    destruct (Z.eqb_spec (n / 10) 0) as [E|N].
    + cbn [number_from]. rewrite digit_value_digit by lia. f_equal; lia.
    + rewrite IH.
      * cbn [number_from]. rewrite digit_value_digit by lia. f_equal; lia.
      * replace (Z.of_nat (S fuel) + 1) with (Z.succ (Z.of_nat fuel + 1)) in Hn by lia.
        rewrite Z.pow_succ_r in Hn by lia.
        split; [apply Z.div_pos; lia|].
        apply Z.div_lt_upper_bound; lia.
Qed.

Lemma number_of_digits n : 0 <= n -> number_of (digits n) = n.
Proof.
  intros Hn. unfold number_of, digits. rewrite number_from_digits_fuel; [reflexivity|].
  split; [exact Hn|].
  rewrite Z2Nat.id by apply Z.log2_nonneg.
  destruct (Z.eq_dec n 0) as [->|Hz]; [reflexivity|].
  apply Z.log2_spec. lia.
Qed.

Lemma number_from_zeros : forall m s,
  number_from (repeat_string m "0" ++ s) 0 = number_from s 0.
Proof.
  induction m as [|m IH]; intros s; cbn; [reflexivity|apply IH].
Qed.

Lemma number_of_paddedIndex i : 0 <= i -> number_of (paddedIndex i) = i.
Proof.
  intros Hi. unfold number_of, paddedIndex, padStart. rewrite number_from_zeros.
  unfold string_of_Z. destruct (Z.ltb_spec i 0); [lia|].
  now apply number_of_digits.
Qed.

Lemma paddedIndex_inj i j : 0 <= i -> 0 <= j -> paddedIndex i = paddedIndex j -> i = j.
Proof.
  intros Hi Hj E.
  rewrite <- (number_of_paddedIndex Hi), <- (number_of_paddedIndex Hj). now rewrite E.
Qed.

Lemma string_of_Z_inj i j : 0 <= i -> 0 <= j -> string_of_Z i = string_of_Z j -> i = j.
Proof.
  intros Hi Hj E. apply paddedIndex_inj; auto. unfold paddedIndex. now rewrite E.
Qed.

Lemma string_app_inv_tail (a b c : string) : (a ++ c)%string = (b ++ c)%string -> a = b.
Proof.
  intros E. apply (f_equal list_ascii_of_string) in E.
  rewrite !StudioFacts.list_ascii_app in E. apply app_inv_tail in E.
  rewrite <- (string_of_list_ascii_of_string a), <- (string_of_list_ascii_of_string b).
  now rewrite E.
Qed.

Lemma item_names_inj i j a :
  0 <= i -> 0 <= j -> In a (item_names i) -> In a (item_names j) -> i = j.
Proof.
  intros Hi Hj Ha Hb. unfold item_names in Ha, Hb. cbn [In] in Ha, Hb.
  destruct Ha as [<-|[<-|[]]], Hb as [Hb|[Hb|[]]];
    cbn [append] in Hb; try discriminate; injection Hb as Hb;
    apply string_app_inv_tail in Hb; symmetry; now apply paddedIndex_inj.
Qed.

(** X1.  Two different non-negative indices never get the same decimal
    string, the same padded index, or the same file names in the archive:
    the string of an index denotes that index, padding zeros included. *)
Theorem paddedIndex_injective (i j : Z) :
  0 <= i -> 0 <= j ->
  number_of (paddedIndex i) = i
  /\ (string_of_Z i = string_of_Z j -> i = j)
  /\ (paddedIndex i = paddedIndex j -> i = j)
  /\ (forall a, In a (item_names i) -> In a (item_names j) -> i = j).
Proof.
  intros Hi Hj. split; [now apply number_of_paddedIndex|].
  split; [now apply string_of_Z_inj|]. split; [now apply paddedIndex_inj|].
  intros a. now apply item_names_inj.
Qed.

(** Indices 7 and 70000. *)
Lemma paddedIndex_injective_witness :
  0 <= 7 /\ 0 <= 70000 /\ paddedIndex 7 <> paddedIndex 70000.
Proof.
  split; [lia|]. split; [lia|]. intros E.
  pose proof (proj1 (proj2 (proj2 (@paddedIndex_injective 7 70000 ltac:(lia) ltac:(lia))))
                    E).
  discriminate.
Defined.

(** ** [shuffleArray] *)

Lemma set_nth_perm (A : Type) : forall (l : list A) i x y,
  nth_error l i = Some x -> Permutation (x :: set_nth l i y) (y :: l).
Proof.
  induction l as [|a l IH]; intros [|i] x y H; cbn in *; try discriminate.
  - injection H as ->. apply perm_swap.
  - rewrite perm_swap. rewrite (IH i x y H). apply perm_swap.
Qed.

Lemma nth_error_set_nth_same (A : Type) : forall (l : list A) i x y,
  nth_error l i = Some x -> nth_error (set_nth l i y) i = Some y.
Proof.
  induction l as [|a l IH]; intros [|i] x y H; cbn in *; try discriminate; eauto.
Qed.

Lemma nth_error_set_nth_other (A : Type) : forall (l : list A) i j y,
  i <> j -> nth_error (set_nth l i y) j = nth_error l j.
Proof.
  induction l as [|a l IH]; intros [|i] [|j] y H; cbn; auto; congruence.
Qed.

Lemma swap_perm (A : Type) (l : list A) i j : Permutation (swap l i j) l.
Proof.
  unfold swap.
  destruct (nth_error l i) as [a|] eqn:Hi; [|reflexivity].
  destruct (nth_error l j) as [b|] eqn:Hj; [|reflexivity].
  assert (H1 : Permutation (a :: set_nth l i b) (b :: l)) by now apply set_nth_perm.
  assert (Hb : nth_error (set_nth l i b) j = Some b).
  { destruct (Nat.eq_dec i j) as [->|N].
    - eapply nth_error_set_nth_same; eauto.
    - now rewrite nth_error_set_nth_other. }
  assert (H2 : Permutation (b :: set_nth (set_nth l i b) j a) (a :: set_nth l i b))
    by now apply set_nth_perm.
  rewrite H1 in H2. now apply Permutation_cons_inv in H2.
Qed.

Lemma shuffle_loop_perm (A : Type) pick : forall i (l : list A),
  Permutation (shuffle_loop pick i l) l.
Proof.
  induction i as [|i IH]; intros l; cbn; [reflexivity|].
  rewrite IH. apply swap_perm.
Qed.

(** X2.  When every draw [pick i] lies in [0, i], as
    [Math.floor(Math.random() * (i + 1))] does, the shuffled array is a
    permutation of the input: the same elements, each as many times, and
    the same length. *)
Theorem shuffleArray_permutation (A : Type) (pick : nat -> nat) (array : list A) :
  (forall i, (pick i <= i)%nat) ->
  Permutation (shuffleArray pick array) array
  /\ List.length (shuffleArray pick array) = List.length array.
Proof.
  intros _.
  assert (H : Permutation (shuffleArray pick array) array)
    by apply shuffle_loop_perm.
  split; [exact H|]. now apply Permutation_length.
Qed.

(** Every draw 0 on an array of four. *)
Lemma shuffleArray_permutation_witness :
  shuffleArray (fun _ => 0%nat) [1; 2; 3; 4] = [2; 3; 4; 1]
  /\ Permutation (shuffleArray (fun _ => 0%nat) [1; 2; 3; 4]) [1; 2; 3; 4].
Proof.
  split; [reflexivity|].
  apply (@shuffleArray_permutation Z (fun _ => 0%nat) [1; 2; 3; 4]). intros i. lia.
Defined.

(** ** The jobs of a queue and their tiers *)

Lemma for_loop_invariant_range (S : Type) (P : S -> Prop) (body : Z -> S -> S) :
  forall n lo s,
    (forall i s, lo <= i < lo + Z.of_nat n -> P s -> P (body i s)) ->
    P s -> P (for_loop n lo body s).
Proof.
  induction n as [|n IH]; intros lo s Hbody Hs; cbn [for_loop]; [exact Hs|].
  apply IH.
  - intros i s' Hi. apply Hbody. lia.
  - apply Hbody; [lia|exact Hs].
Qed.

Lemma sourced_image_body rarityTiers t i q :
  In t rarityTiers -> 0 <= i < Z.of_nat (List.length (images t)) ->
  Forall (sourced rarityTiers) (jobQueue q) ->
  Forall (sourced rarityTiers) (jobQueue (image_body t i q)).
Proof.
  intros Ht Hi Hq. unfold image_body. apply for_loop_invariant; [|exact Hq].
  intros k s Hs. unfold edition_body, push; cbn [jobQueue].
  apply Forall_app. split; [exact Hs|]. constructor; [|constructor].
  destruct (nth_error (images t) (Z.to_nat i)) as [img|] eqn:E.
  - exists t, img. cbn. apply nth_error_In in E. repeat split; auto.
  - apply nth_error_None in E. lia.
Qed.

Lemma sourced_tier_body rarityTiers t q q' :
  In t rarityTiers -> tier_body t q = inr q' ->
  Forall (sourced rarityTiers) (jobQueue q) ->
  Forall (sourced rarityTiers) (jobQueue q').
Proof.
  intros Ht. unfold tier_body. destruct (short t) eqn:Hs; [discriminate|].
  intros [= <-] Hq. apply for_loop_invariant_range; [|exact Hq].
  intros i s Hi. apply sourced_image_body; [exact Ht|].
  unfold short in Hs. destruct (imagesNeeded t) as [z| | |]; cbn in Hs, Hi; lia.
Qed.

Lemma sourced_tiers_loop rarityTiers : forall tiers q q',
  incl tiers rarityTiers -> tiers_loop tiers q = inr q' ->
  Forall (sourced rarityTiers) (jobQueue q) ->
  Forall (sourced rarityTiers) (jobQueue q').
Proof.
  induction tiers as [|t rest IH]; cbn [tiers_loop]; intros q q' Hincl.
  - now intros [= <-].
  - destruct (tier_body t q) as [e|q1] eqn:Ht; [discriminate|].
    intros Hr Hq. apply (IH q1 q'); auto.
    + intros u Hu. apply Hincl. now right.
    + eapply sourced_tier_body; eauto. apply Hincl. now left.
Qed.

(** X3.  No job of a queue [createJobQueue] returns has an undefined source
    image: each job carries an image of the image list of a tier of the
    plan, and that tier's label. *)
Theorem createJobQueue_sources (rarityTiers : list Tier) (totalSupply : Z)
        (queue : list Job) :
  createJobQueue rarityTiers totalSupply = inr queue ->
  Forall (fun j => sourceImage j <> None) queue
  /\ Forall (fun j => exists t img,
                 In t rarityTiers /\ In img (images t)
                 /\ sourceImage j = Some img /\ rarityTier j = type t) queue.
Proof.
  unfold createJobQueue.
  destruct (tiers_loop rarityTiers (mkQueue [] 0)) as [e|q] eqn:Hq; [discriminate|].
  intros [= <-].
  assert (H : Forall (sourced rarityTiers) (jobQueue q)).
  { apply (@sourced_tiers_loop rarityTiers rarityTiers (mkQueue [] 0) q
                                (incl_refl _) Hq).
    constructor. }
  split; [|exact H].
  eapply Forall_impl; [|exact H]. intros j (t & img & _ & _ & E & _). congruence.
Qed.

(** The tier of 7 editions, 3 per image. *)
Lemma createJobQueue_sources_witness :
  createJobQueue [tier_7_3] 7 = inr queue_7_3
  /\ Forall (fun j => sourceImage j <> None) queue_7_3.
Proof.
  split; [reflexivity|].
  apply (proj1 (@createJobQueue_sources [tier_7_3] 7 queue_7_3 eq_refl)).
Defined.

(** ** A tier with no editions per image *)

(** X4.  A tier with [editionsPerImage = 0] and a positive [nftCount] needs
    [Infinity] images: a plan that contains one is always refused, however
    many images the tier has, and when no tier before it is short the error
    names it and reads [needs Infinity images].  With [editionsPerImage = 0]
    and [nftCount = 0] the tier passes the check and adds no job. *)
Theorem zero_editions_per_image (t : Tier) :
  editionsPerImage t = 0 ->
  (0 < nftCount t ->
   (forall rarityTiers totalSupply,
      In t rarityTiers ->
      exists e, createJobQueue rarityTiers totalSupply = inl e)
   /\ (forall before after totalSupply,
         Forall (fun u => short u = false) before ->
         createJobQueue (before ++ t :: after) totalSupply
         = inl (mkTierError (type t) Infinity (List.length (images t))))
   /\ message (mkTierError (type t) Infinity (List.length (images t)))
      = ("Tier " ++ quote ++ type t ++ quote ++ " needs Infinity images but only "
           ++ string_of_Z (Z.of_nat (List.length (images t))) ++ " provided")%string)
  /\ (nftCount t = 0 -> forall q, tier_body t q = inr q).
Proof.
  intros He. split.
  - intros Hn.
    assert (Hneed : imagesNeeded t = Infinity).
    { unfold imagesNeeded, ceil_div. rewrite He. cbn.
      destruct (Z.ltb_spec 0 (nftCount t)); [reflexivity|lia]. }
    assert (Hs : short t = true) by (unfold short; now rewrite Hneed).
    split; [|split].
    + intros rarityTiers totalSupply Hin.
      destruct (@first_short_tier rarityTiers (ex_intro _ t (conj Hin Hs)))
        as (before & u & after & _ & _ & _ & Hr).
      unfold createJobQueue. rewrite Hr. eauto.
    + intros before after totalSupply Hb. unfold createJobQueue.
      assert (Hl : forall q, tiers_loop (before ++ t :: after) q
                             = inl (mkTierError (type t) Infinity (List.length (images t)))).
      { induction Hb as [|u before Hu _ IH]; intros q; cbn [app tiers_loop].
        - unfold tier_body. now rewrite Hs, Hneed.
        - unfold tier_body at 1. rewrite Hu. apply IH. }
      now rewrite Hl.
    + reflexivity.
  - intros Hn q. unfold tier_body, short, imagesNeeded, ceil_div.
    rewrite He, Hn. reflexivity.
Qed.

(** A tier of 3 editions, 0 per image, with two images. *)
Lemma zero_editions_per_image_witness :
  createJobQueue [tier_unique; mkTier "void" 3 0 "V" [image "A"; image "B"]] 5
  = inl (mkTierError "void" Infinity 2).
Proof.
  apply (proj1 (proj2 (proj1 (@zero_editions_per_image
                                (mkTier "void" 3 0 "V" [image "A"; image "B"]) eq_refl)
                             ltac:(cbn; lia)))
               [tier_unique] [] 5).
  repeat constructor.
Defined.

(** ** Plans compose *)

Lemma block_of_shift t i start :
  block_of t i start = map (shift start) (block_of t i 0).
Proof.
  unfold block_of. rewrite map_map. apply map_ext. intros m.
  unfold block_job, shift; cbn. f_equal. lia.
Qed.

Lemma image_blocks_shift t : forall m i start,
  flat_map block_jobs (image_blocks t m i start)
  = map (shift start) (flat_map block_jobs (image_blocks t m i 0)).
Proof.
  induction m as [|m IH]; intros i start; cbn [image_blocks flat_map]; [reflexivity|].
  unfold block_jobs at 1 3; cbn [snd]. rewrite map_app.
  rewrite (block_of_shift t i start) at 1. f_equal.
  rewrite IH, (IH (i + 1) (0 + _)), map_map.
  rewrite (block_of_shift t i start), length_map.
  apply map_ext. intros j. unfold shift; cbn. f_equal. lia.
Qed.

Lemma plan_blocks_shift : forall tiers start,
  flat_map block_jobs (plan_blocks tiers start)
  = map (shift start) (flat_map block_jobs (plan_blocks tiers 0)).
Proof.
  induction tiers as [|t rest IH]; intros start; cbn [plan_blocks flat_map]; [reflexivity|].
  rewrite !flat_map_app, map_app. rewrite (image_blocks_shift t _ 0 start). f_equal.
  rewrite IH, (IH (0 + _)), map_map, length_map.
  apply map_ext. intros j. unfold shift; cbn. f_equal. lia.
Qed.

Lemma tiers_loop_app a b : forall q,
  tiers_loop (a ++ b) q
  = match tiers_loop a q with
    | inl e => inl e
    | inr q' => tiers_loop b q'
    end.
Proof.
  induction a as [|t a IH]; intros q; cbn [app tiers_loop]; [reflexivity|].
  destruct (tier_body t q); [reflexivity|apply IH].
Qed.

Lemma tiers_loop_error tiers : forall q q' e,
  tiers_loop tiers q = inl e -> tiers_loop tiers q' = inl e.
Proof.
  induction tiers as [|t rest IH]; cbn [tiers_loop]; intros q q' e; [discriminate|].
  unfold tier_body. destruct (short t); [auto|]. apply IH.
Qed.

Lemma tiers_loop_ok tiers : forall q q1 q',
  tiers_loop tiers q = inr q1 -> exists q2, tiers_loop tiers q' = inr q2.
Proof.
  intros q q1 q' H. destruct (tiers_loop tiers q') as [e|q2] eqn:E; [|eauto].
  apply (@tiers_loop_error tiers q' q) in E. congruence.
Qed.

(** X5.  The tiers of a plan expand independently of one another: the
    queue of [a ++ b] is the queue of [a] followed by the queue of [b] with
    every [globalIndex] moved up by the length of the queue of [a]; an
    error of [a], or else of [b], is the error of [a ++ b]. *)
Theorem createJobQueue_app (a b : list Tier) (s s1 s2 : Z) :
  createJobQueue (a ++ b) s
  = match createJobQueue a s1, createJobQueue b s2 with
    | inl e, _ => inl e
    | inr _, inl e => inl e
    | inr qa, inr qb => inr (qa ++ map (shift (Z.of_nat (List.length qa))) qb)
    end.
Proof.
  unfold createJobQueue. rewrite tiers_loop_app.
  destruct (tiers_loop a (mkQueue [] 0)) as [e|q1] eqn:Ha; [reflexivity|].
  pose proof (numbered_tiers_loop a (q := mkQueue [] 0) (conj eq_refl eq_refl) Ha)
    as [Hc _].
  destruct (tiers_loop b (mkQueue [] 0)) as [e|q2] eqn:Hb.
  - now rewrite (@tiers_loop_error b (mkQueue [] 0) q1 e Hb).
  - destruct (@tiers_loop_ok b (mkQueue [] 0) q2 q1 Hb) as [q3 H3]. rewrite H3.
    apply tiers_loop_eq in H3. apply tiers_loop_eq in Hb. subst q3 q2.
    cbn [jobQueue currentIndex app]. f_equal. f_equal.
    now rewrite plan_blocks_shift, Hc.
Qed.

(** ** Uploaded files and tiers *)











(** ** The answers of [POST /api/generate] *)








Section ArchiveFacts.
Variable toPng : string -> option string.
Variable colors : string -> string * string.
Variable sha : string -> string.
Variable collectionData : CollectionData.
Variable advanced : AdvancedOptions.
Variable finalQueue : list Job.



End ArchiveFacts.



End ServerExtraFacts.

(* ================================================================== *)
(** * More properties of the AI studio *)
(* ================================================================== *)

Module StudioExtraFacts.
Import Js Studio StudioExtra StudioFacts.

(** ** [Job.findByCollectionId] *)

Lemma matchb_matches collectionId st j :
  matchb collectionId st j = true <-> matches collectionId st j.
Proof.
  unfold matchb, matches. rewrite andb_true_iff, String.eqb_eq.
  destruct st as [s|]; [rewrite Status_eqb_eq|]; tauto.
Qed.

Lemma Forall_insert_by_edition (P : Job -> Prop) j l :
  P j -> Forall P l -> Forall P (insert_by_edition j l).
Proof.
  intros Hj. induction 1 as [|x l Hx Hl IH]; cbn; [now repeat constructor|].
  destruct (edition_number j <? edition_number x); repeat constructor; auto.
Qed.

Lemma ascending_insert j l : ascending l -> ascending (insert_by_edition j l).
Proof.
  induction l as [|x l IH]; cbn [insert_by_edition ascending]; intros H.
  - split; constructor.
  - destruct H as [Hx Hl].
    destruct (Z.ltb_spec (edition_number j) (edition_number x)); cbn [ascending].
    + split; [|split; assumption]. constructor; [lia|].
      eapply Forall_impl; [|exact Hx]. cbn. intros; lia.
    + split; [|now apply IH]. apply Forall_insert_by_edition; [lia|exact Hx].
Qed.

Lemma ascending_order l : ascending (order_by_edition l).
Proof.
  induction l as [|x l IH]; cbn; [exact I|]. now apply ascending_insert.
Qed.

Lemma ascending_app a : forall b,
  ascending (a ++ b) ->
  ascending a
  /\ forall x y, In x a -> In y b -> edition_number x <= edition_number y.
Proof.
  induction a as [|h a IH]; intros b H; cbn [app ascending] in *.
  - split; [exact I|]. intros x y [].
  - destruct H as [Hh Ha]. apply Forall_app in Hh as [Hh1 Hh2].
    destruct (IH b Ha) as [IH1 IH2]. split; [split; assumption|].
    intros x y [->|Hx] Hy; [|now apply IH2].
    rewrite Forall_forall in Hh2. now apply Hh2.
Qed.

Lemma order_increasing_fixed l : increasing l -> order_by_edition l = l.
Proof.
  induction l as [|x l IH]; cbn [increasing]; intros H; [reflexivity|].
  destruct H as [Hx Hl]. cbn [order_by_edition fold_right].
  change (fold_right insert_by_edition [] l) with (order_by_edition l).
  rewrite (IH Hl). destruct l as [|y l]; [reflexivity|]. cbn [insert_by_edition].
  inversion Hx as [|? ? Hxy _]; subst.
  destruct (Z.ltb_spec (edition_number x) (edition_number y)); [reflexivity|lia].
Qed.

Lemma ascending_firstn n : forall l, ascending l -> ascending (firstn n l).
Proof.
  induction n as [|n IH]; intros [|x l] H; cbn [firstn ascending] in *; auto.
  destruct H as [Hx Hl]. split; [|now apply IH].
  rewrite <- (firstn_skipn n l) in Hx. now apply Forall_app in Hx.
Qed.

Lemma select_unlimited collectionId st limit table :
  match limit with Some n => n <= 0 | None => True end ->
  select_by_collection collectionId st limit table
  = order_by_edition (filter (matchb collectionId st) table).
Proof.
  unfold select_by_collection, sql_limit, matchb. destruct limit as [n|]; [|reflexivity].
  intros Hn. destruct (Z.eqb_spec n 0); [reflexivity|].
  destruct (Z.ltb_spec n 0); [reflexivity|lia].
Qed.

Lemma select_limited collectionId st n table :
  0 < n ->
  select_by_collection collectionId st (Some n) table
  = firstn (Z.to_nat n) (order_by_edition (filter (matchb collectionId st) table)).
Proof.
  unfold select_by_collection, sql_limit, matchb. intros Hn.
  destruct (Z.eqb_spec n 0); [lia|]. destruct (Z.ltb_spec n 0); [lia|reflexivity].
Qed.

Lemma select_cases collectionId st limit table :
  let sorted := order_by_edition (filter (matchb collectionId st) table) in
  exists k, select_by_collection collectionId st limit table = firstn k sorted
            /\ (match limit with Some n => n <= 0 | None => True end ->
                k = List.length sorted)
            /\ (forall n, limit = Some n -> 0 < n -> k = Z.to_nat n).
Proof.
  cbv zeta. destruct limit as [n|].
  - destruct (Z_lt_le_dec 0 n) as [Hn|Hn].
    + exists (Z.to_nat n). rewrite select_limited by exact Hn.
      split; [reflexivity|]. split; [lia|]. now intros n' [= <-].
    + eexists. rewrite select_unlimited by exact Hn. rewrite firstn_all.
      split; [reflexivity|]. split; [reflexivity|]. intros n' [= <-]. lia.
  - eexists. rewrite select_unlimited by exact I. rewrite firstn_all.
    split; [reflexivity|]. split; [reflexivity|]. discriminate.
Qed.

Lemma in_sorted_filter collectionId st table j :
  In j (order_by_edition (filter (matchb collectionId st) table))
  <-> In j table /\ matches collectionId st j.
Proof.
  rewrite <- matchb_matches, <- filter_In. split; intros H.
  - eapply Permutation_in; [apply Permutation_sym, order_by_edition_perm|exact H].
  - eapply Permutation_in; [apply order_by_edition_perm|exact H].
Qed.

Lemma select_in collectionId st limit table j :
  In j (select_by_collection collectionId st limit table) ->
  In j table /\ matches collectionId st j.
Proof.
  destruct (select_cases collectionId st limit table) as (k & -> & _).
  intros H. apply in_sorted_filter.
  rewrite <- (firstn_skipn k (order_by_edition _)). apply in_or_app. now left.
Qed.

(** X9.  [Job.findByCollectionId] returns rows of the table that belong to
    the collection and have the status asked for, in ascending edition
    order.  With a positive limit it returns the rows of lowest edition
    number, as many as the limit allows: every matching row left out has a
    number at least as large as every row returned.  With no limit, or a
    limit that is zero or negative, it returns every matching row. *)
Theorem findByCollectionId_rows (collectionId : string) (st : option Status)
        (limit : option Z) (table : list Job) :
  let rows := select_by_collection collectionId st limit table in
  ascending rows
  /\ (forall j, In j rows -> In j table /\ matches collectionId st j)
  /\ (forall n, limit = Some n -> 0 < n ->
        List.length rows
        = Nat.min (Z.to_nat n) (List.length (filter (matchb collectionId st) table)))
  /\ (forall r j, In r rows -> In j table -> matches collectionId st j -> ~ In j rows ->
        edition_number r <= edition_number j)
  /\ (match limit with Some n => n <= 0 | None => True end ->
      Permutation rows (filter (matchb collectionId st) table)).
Proof.
  cbv zeta.
  destruct (select_cases collectionId st limit table) as (k & E & Hall & Hlim).
  split; [|split; [|split; [|split]]].
  - rewrite E. apply ascending_firstn, ascending_order.
  - intros j. apply select_in.
  - intros n Hl Hn. rewrite E, (Hlim n Hl Hn), length_firstn.
    now rewrite <- (Permutation_length (order_by_edition_perm _)).
  - intros r j Hr Hj Hm Hnot. rewrite E in Hr, Hnot.
    assert (Hs : In j (order_by_edition (filter (matchb collectionId st) table)))
      by now apply in_sorted_filter.
    rewrite <- (firstn_skipn k (order_by_edition _)) in Hs.
    apply in_app_or in Hs as [Hs|Hs]; [contradiction|].
    pose proof (ascending_order (filter (matchb collectionId st) table)) as Ha.
    rewrite <- (firstn_skipn k (order_by_edition _)) in Ha.
    apply ascending_app in Ha as [_ Ha]. now apply Ha.
  - intros Hl. rewrite E, (Hall Hl), firstn_all.
    apply Permutation_sym, order_by_edition_perm.
Qed.

(** The lowest pending edition of collection [c1] of the sample state. *)
Lemma findByCollectionId_rows_witness :
  select_by_collection "c1" (Some pending) (Some 1) (jobs sample_world)
  = [sample_job "j1" 1 pending None None]
  /\ List.length (select_by_collection "c1" (Some pending) (Some 1) (jobs sample_world))
     = Nat.min (Z.to_nat 1)
               (List.length (filter (matchb "c1" (Some pending)) (jobs sample_world))).
Proof.
  split; [reflexivity|].
  apply (proj1 (proj2 (proj2 (@findByCollectionId_rows "c1" (Some pending) (Some 1)
                                (jobs sample_world)))) 1 eq_refl).
  lia.
Defined.

(** ** Batches, one after the other *)

Lemma run_continue env collectionId w :
  only_generation_fails env -> isProcessing w = false ->
  let batch := select_by_collection collectionId (Some pending)
                                    (Some (continueBatchSize env)) (jobs w) in
  run env (continueBatchProcessing env collectionId) w
  = (inr (filter (succeeds env) batch),
     set_isProcessing false
       (fold_left (fun w j => job_step env j w) batch (set_isProcessing true w))).
Proof.
  intros Hok Hflag batch. unfold continueBatchProcessing.
  rewrite run_try_catch, run_bind. cbn [get run]. rewrite Hflag, run_bind.
  cbn [put run]. rewrite run_bind, run_await, db_ok by auto.
  cbn [effect fst snd jobs set_isProcessing]. fold batch.
  destruct batch as [|j0 rest] eqn:Hb; [reflexivity|].
  cbn [List.length Nat.eqb]. rewrite run_bind, run_process_jobs by exact Hok.
  reflexivity.
Qed.

Lemma run_initial env collectionId w :
  only_generation_fails env -> isProcessing w = false ->
  let batch := select_by_collection collectionId (Some pending)
                                    (Some (initialBatchSize env)) (jobs w) in
  batch <> [] ->
  run env (processInitialBatch env collectionId) w
  = (inr (filter (succeeds env) batch),
     set_isProcessing false
       (fold_left (fun w j => job_step env j w) batch (set_isProcessing true w))).
Proof.
  intros Hok Hflag batch Hne. unfold processInitialBatch.
  rewrite run_try_catch, run_bind. cbn [get run]. rewrite Hflag, run_bind.
  cbn [put run]. rewrite run_bind, run_await, db_ok by auto.
  cbn [effect fst snd jobs set_isProcessing]. fold batch.
  destruct batch as [|j0 rest] eqn:Hb; [congruence|].
  cbn [List.length Nat.eqb]. rewrite run_bind, run_process_jobs by exact Hok.
  reflexivity.
Qed.

Lemma batch_jobs env w batch :
  NoDup (map id (jobs w)) -> NoDup (map id batch) -> incl batch (jobs w) ->
  let w' := set_isProcessing false
              (fold_left (fun w j => job_step env j w) batch (set_isProcessing true w)) in
  jobs w' = map (settle env batch) (jobs w)
  /\ aiRequests w' = aiRequests w ++ map id batch
  /\ isProcessing w' = false.
Proof.
  intros Hnd Hb Hincl. cbv zeta.
  destruct (batch_world env batch (set_isProcessing true w)) as (Hj & Hr & _).
  cbn [jobs aiRequests isProcessing set_isProcessing] in *.
  rewrite Hj, Hr. split; [|split; reflexivity].
  rewrite <- (map_settle_nil env (jobs w)) at 1.
  now apply (@fold_updates env (jobs w) Hnd batch []).
Qed.

Lemma settle_identity env batch r : identity (settle env batch r) = identity r.
Proof.
  unfold settle, outcome, outcome_by. destruct (in_batch batch r); [|reflexivity].
  now destruct (fails env _).
Qed.

Lemma settle_not_pending env batch r :
  in_batch batch r = true -> status (settle env batch r) <> pending.
Proof.
  unfold settle, outcome, outcome_by. intros ->.
  destruct (fails env _); cbn; discriminate.
Qed.

Lemma pending_after_batch env batch table collectionId limit j :
  In j (select_by_collection collectionId (Some pending) limit
                             (map (settle env batch) table)) ->
  In j table /\ in_batch batch j = false /\ matches collectionId (Some pending) j.
Proof.
  intros H. apply select_in in H as [Hin Hm].
  apply in_map_iff in Hin as (r & <- & Hr).
  destruct (in_batch batch r) eqn:E.
  - exfalso. destruct Hm as [_ Hm]. now apply (@settle_not_pending env batch r E).
  - unfold settle in *. rewrite E in *. auto.
Qed.

(** X10.  Two continuation batches run one after the other, with storage
    working, on a table with distinct ids: the second fetches only jobs
    that were pending before the first and that the first did not fetch, so
    that the provider is never called twice for a job; a batch adds no row,
    removes none and never changes the id, collection, edition numbers,
    prompt or metadata path of a row; and when the batch size is zero or
    negative (no limit) one batch leaves no pending job in the
    collection. *)
Theorem successive_batches (env : Env) (collectionId : string) (w : World) :
  isProcessing w = false ->
  NoDup (map id (jobs w)) ->
  only_generation_fails env ->
  let first := select_by_collection collectionId (Some pending)
                                    (Some (continueBatchSize env)) (jobs w) in
  let w1 := snd (run env (continueBatchProcessing env collectionId) w) in
  let second := select_by_collection collectionId (Some pending)
                                     (Some (continueBatchSize env)) (jobs w1) in
  let w2 := snd (run env (continueBatchProcessing env collectionId) w1) in
  (forall j, In j second ->
     In j (jobs w) /\ status j = pending /\ ~ In (id j) (map id first))
  /\ aiRequests w2 = aiRequests w ++ map id first ++ map id second
  /\ NoDup (map id first ++ map id second)
  /\ map identity (jobs w1) = map identity (jobs w)
  /\ (continueBatchSize env <= 0 -> second = []).
Proof.
  intros Hflag Hnd Hok first w1 second w2.
  destruct (@select_rows collectionId (Some pending) (Some (continueBatchSize env))
                         (jobs w) Hnd) as [Hf1 Hf2]. fold first in Hf1, Hf2.
  assert (Hw1 : jobs w1 = map (settle env first) (jobs w)
                /\ aiRequests w1 = aiRequests w ++ map id first
                /\ isProcessing w1 = false).
  { subst w1. rewrite run_continue by assumption. cbn [snd]. now apply batch_jobs. }
  destruct Hw1 as (Hj1 & Hr1 & Hp1).
  assert (Hids : map id (jobs w1) = map id (jobs w)).
  { rewrite Hj1, map_map. apply map_ext. intros r. apply settle_id. }
  assert (Hnd1 : NoDup (map id (jobs w1))) by now rewrite Hids.
  destruct (@select_rows collectionId (Some pending) (Some (continueBatchSize env))
                         (jobs w1) Hnd1) as [Hs1 Hs2]. fold second in Hs1, Hs2.
  assert (Hsecond : forall j, In j second ->
             In j (jobs w) /\ status j = pending /\ ~ In (id j) (map id first)).
  { intros j Hj. unfold second in Hj. rewrite Hj1 in Hj.
    apply pending_after_batch in Hj as (Hin & Hb & _ & Hst).
    repeat split; auto. intros Hid. apply in_batch_true in Hid. congruence. }
  split; [exact Hsecond|]. split; [|split; [|split]].
  - subst w2. rewrite run_continue by assumption. cbn [snd].
    destruct (@batch_jobs env w1 second Hnd1 Hs1 Hs2) as (_ & Hr2 & _).
    fold second. rewrite Hr2, Hr1, <- app_assoc. reflexivity.
  - apply NoDup_app; auto. intros x Hx1 Hx2.
    apply in_map_iff in Hx2 as (j & <- & Hj). now apply (Hsecond j Hj).
  - rewrite Hj1, map_map. apply map_ext. intros r. apply settle_identity.
  - intros Hsize.
    destruct second as [|j rest] eqn:E; [reflexivity|]. exfalso.
    destruct (Hsecond j (or_introl eq_refl)) as (Hin & Hst & Hnot).
    apply Hnot. apply in_map.
    assert (Hm : In j (jobs w1)) by (apply Hs2; now left).
    assert (Hc : matches collectionId (Some pending) j).
    { assert (In j second) by (rewrite E; now left).
      unfold second in H. now apply select_in in H. }
    unfold first. rewrite select_unlimited by exact Hsize.
    apply in_sorted_filter. split; assumption.
Qed.

(** Collection [c1] of the sample state: the first batch takes its two
    pending jobs, the second finds none. *)
Lemma successive_batches_witness :
  let w1 := snd (run sample_env (continueBatchProcessing sample_env "c1") sample_world) in
  let w2 := snd (run sample_env (continueBatchProcessing sample_env "c1") w1) in
  aiRequests w2 = ["j1"; "j2"]
  /\ map identity (jobs w1) = map identity (jobs sample_world).
Proof.
  cbv zeta.
  destruct (@successive_batches sample_env "c1" sample_world eq_refl sample_world_ids
              sample_env_storage) as (_ & Hr & _ & Hi & _).
  split; [exact Hr|exact Hi].
Defined.

(** ** Storage failures in a batch *)

(** X11.  When the fetch of the pending jobs fails, each batch method
    fails with the storage error as it is; no row is touched, the provider
    is not called and the flag is clear again: the state is as before. *)
Theorem fetch_failure (env : Env) (collectionId msg : string) (w : World) :
  isProcessing w = false ->
  (fails env (JobFindByCollectionId collectionId (Some pending)
                                    (Some (initialBatchSize env))) = Some msg ->
   run env (processInitialBatch env collectionId) w = (inl msg, w))
  /\ (fails env (JobFindByCollectionId collectionId (Some pending)
                                       (Some (continueBatchSize env))) = Some msg ->
      run env (continueBatchProcessing env collectionId) w = (inl msg, w)).
Proof.
  intros Hflag. split; intros Hfail.
  - unfold processInitialBatch. rewrite run_try_catch, run_bind. cbn [get run].
    rewrite Hflag, run_bind. cbn [put run]. rewrite run_bind, run_await.
    rewrite perform_failed with (msg := msg) by exact Hfail.
    destruct w as [js cs fs ar flag reqs]. cbn in Hflag |- *. now subst flag.
  - unfold continueBatchProcessing. rewrite run_try_catch, run_bind. cbn [get run].
    rewrite Hflag, run_bind. cbn [put run]. rewrite run_bind, run_await.
    rewrite perform_failed with (msg := msg) by exact Hfail.
    destruct w as [js cs fs ar flag reqs]. cbn in Hflag |- *. now subst flag.
Qed.

(** The fetch for collection [c2] fails in the broken environment. *)
Lemma fetch_failure_witness :
  run broken_env (processInitialBatch broken_env "c2") sample_world
  = (inl "SQLITE_IOERR", sample_world)
  /\ run broken_env (continueBatchProcessing broken_env "c2") sample_world
     = (inl "SQLITE_IOERR", sample_world).
Proof.
  destruct (@fetch_failure broken_env "c2" "SQLITE_IOERR" sample_world eq_refl)
    as [Hi Hc].
  split; [apply Hi|apply Hc]; reflexivity.
Defined.

Lemma run_loop_body_aborts env job rest processedJobs w m e :
  fails env (JobUpdateStatus (id job) generating []) = None ->
  fails env (GenerateImage (ai_prompt job) (id job)) = Some m ->
  fails env (JobUpdateStatus (id job) error
                             [(f_error_message, Some (generate_failed m))]) = Some e ->
  run env (process_jobs (job :: rest) processedJobs) w
  = (inl e,
     set_aiRequests (aiRequests w ++ [id job])
       (set_jobs (update_where_id (id job) (apply_update generating []) (jobs w)) w)).
Proof.
  intros H1 H2 H3. cbn [process_jobs].
  rewrite run_bind, run_try_catch, run_bind. unfold processJob. rewrite run_rethrow.
  rewrite run_bind, run_await, perform_ok by exact H1. cbn [request effect fst snd].
  rewrite run_bind, run_await. rewrite perform_failed with (msg := m) by exact H2.
  cbn [request rejection].
  rewrite run_bind, run_await. rewrite perform_failed with (msg := e) by exact H3.
  reflexivity.
Qed.

(** X12.  A generation failure is not fatal to the batch only as long as
    it can be recorded: when the update that should store the error of the
    first fetched job fails too, the batch fails with that storage error,
    the job is left in status [generating], the other fetched jobs are
    never attempted, and the flag is clear. *)
Theorem unrecorded_failure_aborts (env : Env) (collectionId : string) (w : World)
        (job : Job) (rest : list Job) (m e : string) :
  isProcessing w = false ->
  fails env (JobFindByCollectionId collectionId (Some pending)
                                   (Some (initialBatchSize env))) = None ->
  select_by_collection collectionId (Some pending) (Some (initialBatchSize env)) (jobs w)
  = job :: rest ->
  fails env (JobUpdateStatus (id job) generating []) = None ->
  fails env (GenerateImage (ai_prompt job) (id job)) = Some m ->
  fails env (JobUpdateStatus (id job) error
                             [(f_error_message, Some (generate_failed m))]) = Some e ->
  let r := run env (processInitialBatch env collectionId) w in
  fst r = inl e
  /\ jobs (snd r) = update_where_id (id job) (set_status generating) (jobs w)
  /\ aiRequests (snd r) = aiRequests w ++ [id job]
  /\ isProcessing (snd r) = false.
Proof.
  intros Hflag Hfetch Hbatch H1 H2 H3. cbv zeta. unfold processInitialBatch.
  rewrite run_try_catch, run_bind. cbn [get run]. rewrite Hflag, run_bind.
  cbn [put run]. rewrite run_bind, run_await, perform_ok by exact Hfetch.
  cbn [request effect fst snd jobs set_isProcessing]. rewrite Hbatch.
  cbn [List.length Nat.eqb]. rewrite run_bind.
  rewrite (@run_loop_body_aborts env job rest [] _ m e H1 H2 H3).
  cbn. repeat split.
Qed.

(** Job [j1] of the sample state in the broken environment: its generation
    fails and the failure cannot be stored. *)
Lemma unrecorded_failure_aborts_witness :
  let r := run broken_env (processInitialBatch broken_env "c1") sample_world in
  fst r = inl "SQLITE_BUSY"
  /\ aiRequests (snd r) = ["j1"]
  /\ find_job "j1" (jobs (snd r)) = Some (sample_job "j1" 1 generating None None)
  /\ find_job "j2" (jobs (snd r)) = Some (sample_job "j2" 2 pending None None).
Proof.
  cbv zeta.
  destruct (@unrecorded_failure_aborts broken_env "c1" sample_world
              (sample_job "j1" 1 pending None None)
              [sample_job "j2" 2 pending None None]
              "quota exceeded" "SQLITE_BUSY" eq_refl eq_refl eq_refl eq_refl eq_refl
              eq_refl) as (H1 & H2 & H3 & _).
  split; [exact H1|]. split; [exact H3|]. rewrite H2. split; reflexivity.
Defined.

(** ** Approval *)

Lemma find_job_update_other jobId other (f : Job -> Job) table :
  (forall r, id (f r) = id r) -> other <> jobId ->
  find_job other (update_where_id jobId f table) = find_job other table.
Proof.
  intros Hf Hne. unfold find_job, update_where_id.
  induction table as [|r table IH]; cbn; [reflexivity|].
  destruct (String.eqb_spec (id r) jobId) as [E|N].
  - rewrite Hf. destruct (String.eqb_spec (id r) other); [congruence|exact IH].
  - destruct (String.eqb_spec (id r) other); [reflexivity|exact IH].
Qed.

Section ApproveFacts.
Variable env : Env.
Variable write_fails : string -> option string.
Hypothesis storage_ok : only_generation_fails env.

Lemma run_approve_found jobId job w :
  find_job jobId (jobs w) = Some job ->
  run env (approveJob env write_fails jobId) w
  = if negb (Status_eqb (status job) generated) then (inl not_generated, w)
    else match find_collection (collection_id job) w with
         | None => (inl null_collection, w)
         | Some _ =>
             match write_fails (metadata_of env (id job)) with
             | Some e => (inl e, w)
             | None =>
                 (inr true,
                  set_jobs
                    (update_where_id jobId
                       (apply_update approved
                          [(f_metadata_path, Some (metadata_of env (id job)))])
                       (jobs w))
                    (set_files (metadata_of env (id job) :: files w) w))
             end
         end.
Proof.
  intros Hfind. unfold approveJob.
  rewrite run_rethrow, run_bind, run_await, db_ok by auto. cbn [effect fst snd].
  fold (find_job jobId (jobs w)). rewrite Hfind.
  destruct (negb (Status_eqb (status job) generated)); [reflexivity|].
  rewrite run_bind, run_await, db_ok by auto. cbn [effect fst snd].
  fold (find_collection (collection_id job) w).
  destruct (find_collection (collection_id job) w) as [c|]; [|reflexivity].
  rewrite run_bind. unfold saveMetadata. rewrite run_rethrow.
  destruct (write_fails (metadata_of env (id job))) as [e|]; [reflexivity|].
  rewrite run_bind. cbn [put run]. rewrite run_bind, run_await, db_ok by auto.
  reflexivity.
Qed.

Lemma run_approve_missing jobId w :
  find_job jobId (jobs w) = None ->
  run env (approveJob env write_fails jobId) w = (inl job_not_found, w).
Proof.
  intros Hfind. unfold approveJob.
  rewrite run_rethrow, run_bind, run_await, db_ok by auto. cbn [effect fst snd].
  fold (find_job jobId (jobs w)). now rewrite Hfind.
Qed.

End ApproveFacts.

(** X13.  [approveJob], with storage working: an unknown id fails with
    [Job not found]; a job that is not [generated] fails with [Job must be
    in generated status to approve]; a [generated] job whose metadata file
    cannot be written fails with the write error; in these cases the state
    is unchanged, the job with it.  Otherwise the metadata file
    [outputDir/id.json] is written and the row becomes [approved] with that
    path, its image path and the other rows as they were. *)
Theorem approveJob_outcome (env : Env) (write_fails : string -> option string)
        (jobId : string) (w : World) :
  only_generation_fails env ->
  let r := run env (approveJob env write_fails jobId) w in
  (find_job jobId (jobs w) = None -> r = (inl job_not_found, w))
  /\ (forall job, find_job jobId (jobs w) = Some job -> status job <> generated ->
        r = (inl not_generated, w))
  /\ (forall job c e,
        find_job jobId (jobs w) = Some job -> status job = generated ->
        find_collection (collection_id job) w = Some c ->
        write_fails (metadata_of env jobId) = Some e ->
        r = (inl e, w))
  /\ (forall job c,
        find_job jobId (jobs w) = Some job -> status job = generated ->
        find_collection (collection_id job) w = Some c ->
        write_fails (metadata_of env jobId) = None ->
        fst r = inr true
        /\ find_job jobId (jobs (snd r)) = Some (approved_row env job)
        /\ (forall other, other <> jobId ->
              find_job other (jobs (snd r)) = find_job other (jobs w))
        /\ files (snd r) = metadata_of env jobId :: files w).
Proof.
  intros Hok r. split; [|split; [|split]].
  - intros Hfind. now apply run_approve_missing.
  - intros job Hfind Hst. subst r. rewrite (@run_approve_found env write_fails Hok jobId job w Hfind).
    destruct (Status_eqb (status job) generated) eqn:E; [|reflexivity].
    now apply Status_eqb_eq in E.
  - intros job c e Hfind Hst Hc Hw. subst r.
    pose proof (@find_job_id jobId (jobs w) job Hfind) as Hid. subst jobId.
    rewrite (@run_approve_found env write_fails Hok (id job) job w Hfind).
    rewrite Hst, Hc, Hw. reflexivity.
  - intros job c Hfind Hst Hc Hw. subst r.
    pose proof (@find_job_id jobId (jobs w) job Hfind) as Hid. subst jobId.
    rewrite (@run_approve_found env write_fails Hok (id job) job w Hfind).
    rewrite Hst, Hc, Hw. cbn [Status_eqb negb fst snd jobs files set_jobs set_files].
    split; [reflexivity|]. split; [|split; [|reflexivity]].
    + rewrite find_job_update by reflexivity. rewrite Hfind.
      unfold approved_row. cbn. reflexivity.
    + intros other Hne. now apply find_job_update_other.
Qed.

(** Job [j3] of the sample state is [generated], job [j1] is not. *)
Lemma approveJob_outcome_witness :
  run sample_env (approveJob sample_env (fun _ => None) "j1") sample_world
  = (inl not_generated, sample_world)
  /\ find_job "j3" (jobs (snd (run sample_env (approveJob sample_env (fun _ => None) "j3")
                                   sample_world)))
     = Some (approved_row sample_env
                          (sample_job "j3" 3 generated (Some "uploads/j3.png") None)).
Proof.
  destruct (@approveJob_outcome sample_env (fun _ => None) "j1" sample_world
              sample_env_storage) as (_ & H1 & _).
  destruct (@approveJob_outcome sample_env (fun _ => None) "j3" sample_world
              sample_env_storage) as (_ & _ & _ & H3).
  split.
  - apply (H1 (sample_job "j1" 1 pending None None) eq_refl). discriminate.
  - apply (H3 (sample_job "j3" 3 generated (Some "uploads/j3.png") None)
              (mkCollection "c1" "Foxes" "FOX" "Some foxes" 1 4 4 1)
              eq_refl eq_refl eq_refl eq_refl).
Defined.

(** ** The guards of the routes *)

(** X14.  The routes [POST /api/jobs/:id/approve] and
    [POST /api/jobs/:id/regenerate], when the lookup of the job works:
    they answer 404 for an unknown id and 400 for a job whose status does
    not allow the operation ([generated] for an approval, [generated] or
    [error] for a regeneration), and in both cases leave the state as it
    was: no file is deleted, no row reset, the provider not called. *)
Theorem route_guards (env : Env) (write_fails : string -> option string)
        (jobId : string) (w : World) :
  fails env (JobFindById jobId) = None ->
  (find_job jobId (jobs w) = None ->
   run env (post_approve env write_fails jobId) w = (inr (404, "Job not found"), w)
   /\ run env (post_regenerate jobId) w = (inr (404, "Job not found"), w))
  /\ (forall job, find_job jobId (jobs w) = Some job ->
        (status job <> generated ->
         run env (post_approve env write_fails jobId) w
         = (inr (400, "Job must be in generated status to approve"), w))
        /\ (status job <> generated -> status job <> error ->
            run env (post_regenerate jobId) w
            = (inr (400, "Job must be in generated or error status to regenerate"), w))).
Proof.
  intros Hfind. split.
  - intros Hnone. split.
    + unfold post_approve. rewrite run_try_catch, run_bind, run_await.
      rewrite perform_ok by exact Hfind. cbn [request effect fst snd].
      fold (find_job jobId (jobs w)). now rewrite Hnone.
    + unfold post_regenerate. rewrite run_try_catch, run_bind, run_await.
      rewrite perform_ok by exact Hfind. cbn [request effect fst snd].
      fold (find_job jobId (jobs w)). now rewrite Hnone.
  - intros job Hjob. split.
    + intros Hst. unfold post_approve. rewrite run_try_catch, run_bind, run_await.
      rewrite perform_ok by exact Hfind. cbn [request effect fst snd].
      fold (find_job jobId (jobs w)). rewrite Hjob.
      destruct (status job); try reflexivity. congruence.
    + intros Hg He. unfold post_regenerate. rewrite run_try_catch, run_bind, run_await.
      rewrite perform_ok by exact Hfind. cbn [request effect fst snd].
      fold (find_job jobId (jobs w)). rewrite Hjob.
      destruct (status job); try reflexivity; congruence.
Qed.

(** Job [j4] of the sample state is [approved]. *)
Lemma route_guards_witness :
  run sample_env (post_regenerate "j4") sample_world
  = (inr (400, "Job must be in generated or error status to regenerate"), sample_world)
  /\ run sample_env (post_approve sample_env (fun _ => None) "nobody") sample_world
     = (inr (404, "Job not found"), sample_world).
Proof.
  split.
  - apply (proj2 (@route_guards sample_env (fun _ => None) "j4" sample_world eq_refl)
                 (sample_job "j4" 4 approved (Some "uploads/j4.png")
                             (Some "output/j4.json")) eq_refl);
      discriminate.
  - apply (proj1 (@route_guards sample_env (fun _ => None) "nobody" sample_world eq_refl)).
    reflexivity.
Defined.

(** ** The package *)

Section PackageFacts.
Variable env : Env.
Hypothesis storage_ok : only_generation_fails env.

Lemma run_package collectionId c w :
  find_collection collectionId w = Some c ->
  run env (createCollectionPackage env collectionId) w
  = match select_by_collection collectionId (Some approved) None (jobs w) with
    | [] => (inl no_approved_jobs, w)
    | j :: rest =>
        (inr (zip_path env c),
         set_archives ((zip_path env c, package_entries w c (j :: rest)) :: archives w)
                      (set_files (zip_path env c :: files w) w))
    end.
Proof.
  intros Hc. unfold createCollectionPackage.
  rewrite run_rethrow, run_bind, run_await, db_ok by auto. cbn [effect fst snd].
  fold (find_collection collectionId w). rewrite Hc.
  rewrite run_bind, run_await, db_ok by auto. cbn [effect fst snd].
  destruct (select_by_collection collectionId (Some approved) None (jobs w))
    as [|j rest]; [reflexivity|].
  cbn [List.length Nat.eqb]. rewrite run_bind. cbn [get run].
  rewrite run_await, db_ok by auto. reflexivity.
Qed.

Lemma run_package_missing collectionId w :
  find_collection collectionId w = None ->
  run env (createCollectionPackage env collectionId) w = (inl collection_not_found, w).
Proof.
  intros Hc. unfold createCollectionPackage.
  rewrite run_rethrow, run_bind, run_await, db_ok by auto. cbn [effect fst snd].
  fold (find_collection collectionId w). now rewrite Hc.
Qed.

End PackageFacts.

Lemma job_entries_count w (approvedJobs : list Job) :
  count is_image_entry (flat_map (job_entries w) approvedJobs)
  = List.length (filter (fun j => exists_file (image_path j) w) approvedJobs)
  /\ count is_metadata_entry (flat_map (job_entries w) approvedJobs)
     = List.length (filter (fun j => exists_file (metadata_path j) w) approvedJobs)
  /\ count is_manifest_entry (flat_map (job_entries w) approvedJobs) = 0%nat
  /\ count is_readme_entry (flat_map (job_entries w) approvedJobs) = 0%nat.
Proof.
  induction approvedJobs as [|j rest (I1 & I2 & I3 & I4)]; [repeat split|].
  cbn [flat_map filter]. rewrite !count_app, I1, I2, I3, I4.
  unfold job_entries, count.
  destruct (png_is_image (string_of_Z (edition_in_drop j))) as [P1 P2].
  destruct (json_is_metadata (string_of_Z (edition_in_drop j))) as [J1 J2].
  destruct (exists_file (image_path j) w), (exists_file (metadata_path j) w);
    cbn [app filter is_image_entry is_metadata_entry is_manifest_entry is_readme_entry
         List.length]; rewrite ?P1, ?P2, ?J1, ?J2; cbn [List.length]; repeat split; lia.
Qed.

(** X15.  [createCollectionPackage], with storage working: an unknown
    collection fails with [Collection not found] and nothing is written.
    For a collection with approved jobs a missing file never fails the
    package, it is left out: the archive holds one image entry for each
    approved job whose image file exists, one metadata entry for each whose
    metadata file exists, one [collection.json] and one [README.md]. *)
Theorem createCollectionPackage_skips (env : Env) (collectionId : string) (w : World) :
  only_generation_fails env ->
  let approvedJobs := select_by_collection collectionId (Some approved) None (jobs w) in
  let r := run env (createCollectionPackage env collectionId) w in
  (find_collection collectionId w = None -> r = (inl collection_not_found, w))
  /\ (forall c, find_collection collectionId w = Some c -> approvedJobs <> [] ->
        exists entries,
          fst r = inr (zip_path env c)
          /\ archives (snd r) = (zip_path env c, entries) :: archives w
          /\ jobs (snd r) = jobs w
          /\ count is_image_entry entries
             = List.length (filter (fun j => exists_file (image_path j) w) approvedJobs)
          /\ count is_metadata_entry entries
             = List.length (filter (fun j => exists_file (metadata_path j) w)
                                   approvedJobs)
          /\ count is_manifest_entry entries = 1%nat
          /\ count is_readme_entry entries = 1%nat).
Proof.
  intros Hok approvedJobs r. split.
  - intros Hc. now apply run_package_missing.
  - intros c Hc Hne. subst r. rewrite (@run_package env Hok collectionId c w Hc). fold approvedJobs.
    destruct approvedJobs as [|j rest] eqn:E; [congruence|].
    exists (package_entries w c (j :: rest)).
    cbn [fst snd archives jobs set_archives set_files].
    split; [reflexivity|]. split; [reflexivity|]. split; [reflexivity|].
    destruct (job_entries_count w (j :: rest)) as (I1 & I2 & I3 & I4).
    unfold package_entries. rewrite !count_app, I1, I2, I3, I4.
    unfold count. cbn. repeat split; lia.
Qed.

(** In the sample state with the metadata file of its approved job lost,
    the package of collection [c1] holds the image only. *)
Lemma createCollectionPackage_skips_witness :
  exists entries,
    archives (snd (run sample_env (createCollectionPackage sample_env "c1") half_world))
    = [("output/Foxes_1.zip", entries)]
    /\ count is_image_entry entries = 1%nat
    /\ count is_metadata_entry entries = 0%nat
    /\ count is_manifest_entry entries = 1%nat.
Proof.
  destruct (proj2 (@createCollectionPackage_skips sample_env "c1" half_world
                     sample_env_storage)
                  (mkCollection "c1" "Foxes" "FOX" "Some foxes" 1 4 4 1) eq_refl)
    as (entries & _ & Ha & _ & Hi & Hm & Hc & _).
  - discriminate.
  - exists entries. split; [exact Ha|]. split; [exact Hi|]. split; [exact Hm|exact Hc].
Defined.

(** ** From approval to the package *)

Lemma path_join_not_empty dir file : path_join dir file <> EmptyString.
Proof. unfold path_join. destruct dir; discriminate. Qed.

Lemma exists_file_more path w f :
  exists_file path w = true -> exists_file path (set_files (f :: files w) w) = true.
Proof.
  unfold exists_file. destruct path as [p|]; [|discriminate].
  rewrite !andb_true_iff. intros [H1 H2]. split; [exact H1|].
  cbn. rewrite H2. apply orb_true_r.
Qed.

(** X16.  Approval feeds the package: once a [generated] job whose image
    file exists has been approved, the package of its collection succeeds
    and holds the job's image under the name [edition.png] and its new
    metadata file under the name [edition.json]. *)
Theorem approved_job_is_packaged (env : Env) (write_fails : string -> option string)
        (jobId : string) (job : Job) (c : Collection) (w : World) :
  only_generation_fails env ->
  find_job jobId (jobs w) = Some job ->
  status job = generated ->
  find_collection (collection_id job) w = Some c ->
  write_fails (metadata_of env jobId) = None ->
  exists_file (image_path job) w = true ->
  let w1 := snd (run env (approveJob env write_fails jobId) w) in
  let r := run env (createCollectionPackage env (collection_id job)) w1 in
  exists entries,
    fst r = inr (zip_path env c)
    /\ archives (snd r) = (zip_path env c, entries) :: archives w
    /\ In (FileEntry (or_empty (image_path job))
                     (string_of_Z (edition_in_drop job) ++ ".png")%string) entries
    /\ In (FileEntry (metadata_of env jobId)
                     (string_of_Z (edition_in_drop job) ++ ".json")%string) entries.
Proof.
  intros Hok Hfind Hst Hc Hw Himg w1 r.
  pose proof (@find_job_id jobId (jobs w) job Hfind) as Hid. subst jobId.
  assert (Hw1 : w1 = set_jobs
                       (update_where_id (id job)
                          (apply_update approved
                             [(f_metadata_path, Some (metadata_of env (id job)))])
                          (jobs w))
                       (set_files (metadata_of env (id job) :: files w) w)).
  { subst w1. rewrite (@run_approve_found env write_fails Hok (id job) job w Hfind).
    now rewrite Hst, Hc, Hw. }
  assert (Hrow : In (approved_row env job) (jobs w1)).
  { assert (H : find_job (id job) (jobs w1) = Some (approved_row env job)).
    { rewrite Hw1. cbn [jobs set_jobs]. rewrite find_job_update by reflexivity.
      now rewrite Hfind. }
    unfold find_job in H. now apply find_some in H. }
  assert (Hsel : In (approved_row env job)
                    (select_by_collection (collection_id job) (Some approved) None
                                          (jobs w1))).
  { rewrite select_unlimited by exact I. apply in_sorted_filter.
    split; [exact Hrow|]. split; reflexivity. }
  assert (Hc1 : find_collection (collection_id job) w1 = Some c).
  { rewrite Hw1. exact Hc. }
  subst r. rewrite (@run_package env Hok (collection_id job) c w1 Hc1).
  destruct (select_by_collection (collection_id job) (Some approved) None (jobs w1))
    as [|j rest] eqn:E; [destruct Hsel|].
  exists (package_entries w1 c (j :: rest)).
  cbn [fst snd archives set_archives set_files].
  split; [reflexivity|]. split; [now rewrite Hw1|].
  assert (Hi1 : exists_file (image_path job) w1 = true).
  { rewrite Hw1. now apply (@exists_file_more (image_path job) w). }
  assert (Hm1 : exists_file (Some (metadata_of env (id job))) w1 = true).
  { rewrite Hw1. unfold exists_file. cbn [files set_jobs set_files existsb].
    rewrite String.eqb_refl.
    destruct (String.eqb_spec (metadata_of env (id job)) EmptyString) as [E0|_];
      [now apply path_join_not_empty in E0|reflexivity]. }
  unfold package_entries.
  split; (apply in_or_app; right; apply in_or_app; left;
          apply (proj2 (in_flat_map (job_entries w1) (j :: rest) _));
          exists (approved_row env job); split; [exact Hsel|]);
    unfold job_entries; cbn [image_path metadata_path edition_in_drop approved_row];
    rewrite Hi1, Hm1; cbn; auto.
Qed.

(** Job [j3] of the sample state, approved and packaged with job [j4]. *)
Lemma approved_job_is_packaged_witness :
  let w1 := snd (run sample_env (approveJob sample_env (fun _ => None) "j3")
                     sample_world) in
  exists entries,
    archives (snd (run sample_env (createCollectionPackage sample_env "c1") w1))
    = [("output/Foxes_1.zip", entries)]
    /\ In (FileEntry "uploads/j3.png" "3.png") entries
    /\ In (FileEntry "output/j3.json" "3.json") entries.
Proof.
  cbv zeta.
  destruct (@approved_job_is_packaged sample_env (fun _ => None) "j3"
              (sample_job "j3" 3 generated (Some "uploads/j3.png") None)
              (mkCollection "c1" "Foxes" "FOX" "Some foxes" 1 4 4 1) sample_world
              sample_env_storage eq_refl eq_refl eq_refl eq_refl eq_refl)
    as (entries & _ & Ha & Hi & Hm).
  exists entries. split; [exact Ha|]. split; [exact Hi|exact Hm].
Defined.

(** ** Cleaning up *)

Lemma filter_true_id (A : Type) (l : list A) : filter (fun _ => true) l = l.
Proof. induction l as [|x l IH]; cbn; [reflexivity|now rewrite IH]. Qed.

Lemma filter_filter (A : Type) (f g : A -> bool) (l : list A) :
  filter f (filter g l) = filter (fun x => g x && f x) l.
Proof.
  induction l as [|x l IH]; cbn; [reflexivity|].
  destruct (g x); cbn; [destruct (f x)|]; now rewrite IH.
Qed.

Lemma unlink_if_exists_files path w :
  files (unlink_if_exists path w)
  = filter (fun q => negb (refers path q)) (files w).
Proof.
  unfold unlink_if_exists, exists_file, unlink, refers.
  destruct path as [p|]; [|now rewrite filter_true_id].
  destruct (String.eqb p EmptyString); cbn [negb andb].
  - symmetry. apply filter_true_id.
  - destruct (existsb (String.eqb p) (files w)) eqn:E; [reflexivity|].
    symmetry. rewrite (@filter_ext_in _ _ (fun _ => true)); [apply filter_true_id|].
    intros q Hq. destruct (String.eqb_spec q p) as [->|]; [|reflexivity].
    assert (existsb (String.eqb p) (files w) = true); [|congruence].
    apply existsb_exists. exists p. split; [exact Hq|apply String.eqb_refl].
Qed.

Lemma unlink_if_exists_rest path w :
  jobs (unlink_if_exists path w) = jobs w
  /\ collections (unlink_if_exists path w) = collections w
  /\ archives (unlink_if_exists path w) = archives w
  /\ isProcessing (unlink_if_exists path w) = isProcessing w
  /\ aiRequests (unlink_if_exists path w) = aiRequests w.
Proof.
  unfold unlink_if_exists, unlink. destruct (exists_file path w); [|repeat split].
  destruct path; repeat split.
Qed.

Lemma cleanup_files : forall batch w,
  files (fold_left cleanup_job batch w)
  = filter (fun q => negb (referenced batch q)) (files w)
  /\ jobs (fold_left cleanup_job batch w) = jobs w
  /\ archives (fold_left cleanup_job batch w) = archives w
  /\ isProcessing (fold_left cleanup_job batch w) = isProcessing w
  /\ aiRequests (fold_left cleanup_job batch w) = aiRequests w.
Proof.
  induction batch as [|j rest IH]; intros w; cbn [fold_left].
  - split; [|repeat split]. symmetry. unfold referenced. cbn. apply filter_true_id.
  - destruct (IH (cleanup_job w j)) as (Hf & Hj & Ha & Hp & Hr).
    rewrite Hf, Hj, Ha, Hp, Hr. unfold cleanup_job.
    destruct (unlink_if_exists_rest (metadata_path j)
                (unlink_if_exists (image_path j) w)) as (J1 & _ & A1 & P1 & R1).
    destruct (unlink_if_exists_rest (image_path j) w) as (J2 & _ & A2 & P2 & R2).
    rewrite J1, A1, P1, R1, J2, A2, P2, R2. split; [|repeat split].
    rewrite !unlink_if_exists_files.
    rewrite !filter_filter. apply filter_ext. intros q. unfold referenced. cbn [existsb].
    destruct (refers (image_path j) q), (refers (metadata_path j) q),
             (existsb _ rest); reflexivity.
Qed.

Lemma flat_map_nil (A B : Type) (f : A -> list B) (l : list A) :
  (forall x, In x l -> f x = []) -> flat_map f l = [].
Proof.
  induction l as [|x l IH]; intros H; cbn [flat_map]; [reflexivity|].
  rewrite (H x (or_introl eq_refl)). apply IH. intros y Hy. apply H. now right.
Qed.

Lemma cleanup_collections : forall batch w,
  collections (fold_left cleanup_job batch w) = collections w.
Proof.
  induction batch as [|j rest IH]; intros w; cbn [fold_left]; [reflexivity|].
  rewrite IH. unfold cleanup_job.
  destruct (unlink_if_exists_rest (metadata_path j)
              (unlink_if_exists (image_path j) w)) as (_ & C1 & _).
  destruct (unlink_if_exists_rest (image_path j) w) as (_ & C2 & _).
  now rewrite C1, C2.
Qed.

(** X17.  [cleanupTempFiles], when the fetch of the jobs works, deletes
    exactly the files that some job of the collection names as its image or
    its metadata: afterwards none of these jobs has an existing file, every
    other file is still there, and the rows are untouched, so that they
    still carry the paths of the deleted files.  A package built afterwards
    for a collection with approved jobs succeeds and holds no image and no
    metadata at all, only [collection.json] and [README.md]. *)
Theorem cleanupTempFiles_effect (env : Env) (collectionId : string) (w : World) :
  only_generation_fails env ->
  let mine := select_by_collection collectionId None None (jobs w) in
  let r := run env (cleanupTempFiles collectionId) w in
  fst r = inr tt
  /\ jobs (snd r) = jobs w
  /\ (forall q, In q (files (snd r)) <-> In q (files w) /\ referenced mine q = false)
  /\ (forall j, In j (jobs w) -> collection_id j = collectionId ->
        exists_file (image_path j) (snd r) = false
        /\ exists_file (metadata_path j) (snd r) = false)
  /\ (forall c, find_collection collectionId w = Some c ->
        select_by_collection collectionId (Some approved) None (jobs w) <> [] ->
        exists entries,
          archives (snd (run env (createCollectionPackage env collectionId) (snd r)))
          = (zip_path env c, entries) :: archives w
          /\ List.length entries = 2%nat
          /\ count is_image_entry entries = 0%nat
          /\ count is_metadata_entry entries = 0%nat).
Proof.
  intros Hok mine r.
  assert (Hr : r = (inr tt, fold_left cleanup_job mine w)).
  { subst r. unfold cleanupTempFiles.
    rewrite run_rethrow, run_bind, run_await, db_ok by auto. reflexivity. }
  destruct (cleanup_files mine w) as (Hf & Hj & Ha & Hp & Hq).
  rewrite Hr. cbn [fst snd].
  assert (Hfiles : forall q, In q (files (fold_left cleanup_job mine w))
                             <-> In q (files w) /\ referenced mine q = false).
  { intros q. rewrite Hf, filter_In, negb_true_iff. reflexivity. }
  assert (Hgone : forall j, In j (jobs w) -> collection_id j = collectionId ->
             exists_file (image_path j) (fold_left cleanup_job mine w) = false
             /\ exists_file (metadata_path j) (fold_left cleanup_job mine w) = false).
  { intros j Hin Hcid.
    assert (Hm : In j mine).
    { unfold mine. rewrite select_unlimited by exact I.
      apply in_sorted_filter. split; [exact Hin|]. split; [exact Hcid|exact I]. }
    assert (Hno : forall p, (image_path j = Some p \/ metadata_path j = Some p) ->
                            p <> EmptyString ->
                            ~ In p (files (fold_left cleanup_job mine w))).
    { intros p Hpath Hne Hin'. apply Hfiles in Hin' as [_ Hnot].
      assert (referenced mine p = true); [|congruence].
      unfold referenced. apply existsb_exists. exists j. split; [exact Hm|].
      unfold refers.
      apply String.eqb_neq in Hne.
      destruct Hpath as [-> | ->]; rewrite String.eqb_refl, Hne; cbn;
        [reflexivity|apply orb_true_r]. }
    assert (Hex : forall path, (path = image_path j \/ path = metadata_path j) ->
                   exists_file path (fold_left cleanup_job mine w) = false).
    { intros path Hpath. unfold exists_file. destruct path as [p|]; [|reflexivity].
      destruct (String.eqb_spec p EmptyString) as [|Hne]; [reflexivity|]. cbn [negb andb].
      destruct (existsb (String.eqb p) (files (fold_left cleanup_job mine w))) eqn:E;
        [|reflexivity].
      exfalso. apply existsb_exists in E as (q & Hq1 & Hq2).
      apply String.eqb_eq in Hq2. subst q.
      apply (Hno p); auto. destruct Hpath as [<-|<-]; auto. }
    split; apply Hex; auto. }
  split; [reflexivity|]. split; [exact Hj|]. split; [exact Hfiles|].
  split; [exact Hgone|].
  intros c Hc Hne.
  set (w' := fold_left cleanup_job mine w) in *.
  assert (Hc' : find_collection collectionId w' = Some c).
  { unfold find_collection in *. 
    assert (H : collections w' = collections w) by apply cleanup_collections.
    now rewrite H. }
  rewrite (@run_package env Hok collectionId c w' Hc'). rewrite Hj.
  destruct (select_by_collection collectionId (Some approved) None (jobs w))
    as [|j0 rest] eqn:E; [congruence|].
  exists (package_entries w' c (j0 :: rest)).
  cbn [snd archives set_archives set_files]. rewrite Ha.
  split; [reflexivity|].
  assert (Hempty : flat_map (job_entries w') (j0 :: rest) = []).
  { assert (Hall : forall j, In j (j0 :: rest) -> job_entries w' j = []).
    { intros j Hjin. rewrite <- E in Hjin. apply select_in in Hjin as [Hin [Hcid _]].
      destruct (Hgone j Hin Hcid) as [G1 G2]. unfold job_entries. now rewrite G1, G2. }
    now apply flat_map_nil. }
  unfold package_entries. rewrite Hempty. repeat split.
Qed.

(** Collection [c1] of the sample state: its three files go, and its
    package then has two entries. *)
Lemma cleanupTempFiles_effect_witness :
  files (snd (run sample_env (cleanupTempFiles "c1") sample_world)) = []
  /\ exists entries,
       archives (snd (run sample_env (createCollectionPackage sample_env "c1")
                          (snd (run sample_env (cleanupTempFiles "c1") sample_world))))
       = [("output/Foxes_1.zip", entries)]
       /\ List.length entries = 2%nat.
Proof.
  split; [reflexivity|].
  destruct (proj2 (proj2 (proj2 (proj2
              (@cleanupTempFiles_effect sample_env "c1" sample_world
                 sample_env_storage))))
              (mkCollection "c1" "Foxes" "FOX" "Some foxes" 1 4 4 1) eq_refl)
    as (entries & Ha & Hl & _).
  - discriminate.
  - exists entries. split; [exact Ha|exact Hl].
Defined.

(** ** The jobs of a new collection *)

Lemma createBatch_jobs_loop (f : Z -> Job) : forall n lo acc,
  for_loop n lo (fun i jobs => jobs ++ [f i]) acc = acc ++ map f (count_from lo n).
Proof.
  induction n as [|n IH]; intros lo acc; cbn [for_loop count_from map].
  - now rewrite app_nil_r.
  - rewrite IH, <- app_assoc. reflexivity.
Qed.

Lemma count_from_in : forall n lo i,
  In i (count_from lo n) <-> lo <= i < lo + Z.of_nat n.
Proof.
  induction n as [|n IH]; intros lo i; cbn [count_from In].
  - lia.
  - rewrite IH. lia.
Qed.

Lemma count_from_length : forall n lo, List.length (count_from lo n) = n.
Proof. induction n as [|n IH]; intros lo; cbn; [reflexivity|now rewrite IH]. Qed.

Lemma count_from_NoDup : forall n lo, NoDup (count_from lo n).
Proof.
  induction n as [|n IH]; intros lo; cbn [count_from]; constructor; [|apply IH].
  rewrite count_from_in. lia.
Qed.

Lemma firstn_count_from : forall k n lo,
  firstn k (count_from lo n) = count_from lo (Nat.min k n).
Proof.
  induction k as [|k IH]; intros [|n] lo; cbn; try reflexivity. now rewrite IH.
Qed.

Lemma NoDup_map_on (A B : Type) (f : A -> B) (l : list A) :
  (forall x y, In x l -> In y l -> f x = f y -> x = y) ->
  NoDup l -> NoDup (map f l).
Proof.
  induction l as [|a l IH]; intros Hinj Hnd; cbn [map]; [constructor|].
  inversion Hnd as [|? ? Hnotin Hnd']; subst. constructor.
  - intros Hin. apply in_map_iff in Hin as (b & E & Hb).
    apply Hnotin. rewrite <- (Hinj b a); cbn; auto.
  - apply IH; [|exact Hnd']. intros x y Hx Hy. apply Hinj; now right.
Qed.

Lemma increasing_new_jobs uuid collectionId aiPrompt : forall n lo,
  increasing (map (new_job uuid collectionId aiPrompt) (count_from lo n)).
Proof.
  induction n as [|n IH]; intros lo; cbn [count_from map increasing]; [exact I|].
  split; [|apply IH]. rewrite Forall_forall. intros y Hy.
  apply in_map_iff in Hy as (i & <- & Hi). apply count_from_in in Hi. cbn. lia.
Qed.

Lemma changes_false jobId table :
  changes jobId table = false <-> ~ In jobId (map id table).
Proof.
  unfold changes. rewrite <- not_true_iff_false, existsb_exists, in_map_iff.
  split; intros H (j & A & B); apply H; exists j.
  - split; [exact B|]. now apply String.eqb_eq.
  - split; [now apply String.eqb_eq|exact A].
Qed.

Lemma insert_fresh : forall batch table,
  NoDup (map id batch) ->
  (forall j, In j batch -> changes (id j) table = false) ->
  fold_left insert_row batch table = table ++ batch.
Proof.
  induction batch as [|j batch IH]; intros table Hnd Hfresh; cbn [fold_left].
  - now rewrite app_nil_r.
  - inversion Hnd as [|? ? Hnotin Hnd']; subst.
    unfold insert_row at 2. rewrite (Hfresh j (or_introl eq_refl)).
    rewrite IH; [now rewrite <- app_assoc|exact Hnd'|].
    intros j' Hj'. apply changes_false. rewrite map_app, in_app_iff. cbn [map In].
    intros [H|[H|[]]].
    + apply (proj1 (changes_false (id j') table)); [|exact H]. apply Hfresh. now right.
    + apply Hnotin. rewrite H. now apply in_map.
Qed.

Lemma filter_none (A : Type) (f : A -> bool) (l : list A) :
  (forall x, In x l -> f x = false) -> filter f l = [].
Proof.
  induction l as [|x l IH]; intros H; cbn [filter]; [reflexivity|].
  rewrite (H x (or_introl eq_refl)). apply IH. intros y Hy. apply H. now right.
Qed.

Lemma filter_all (A : Type) (f : A -> bool) (l : list A) :
  (forall x, In x l -> f x = true) -> filter f l = l.
Proof.
  induction l as [|x l IH]; intros H; cbn [filter]; [reflexivity|].
  rewrite (H x (or_introl eq_refl)), IH; [reflexivity|].
  intros y Hy. apply H. now right.
Qed.

Section NewCollection.
Variable uuid : Z -> string.
Variables collectionId aiPrompt : string.
Variable totalSupply : Z.
Variable table : list Job.

Hypothesis fresh : forall i, 1 <= i <= totalSupply -> changes (uuid i) table = false.
Hypothesis distinct :
  forall i j, 1 <= i <= totalSupply -> 1 <= j <= totalSupply -> uuid i = uuid j -> i = j.
Hypothesis unused : forall j, In j table -> collection_id j <> collectionId.

Let batch := createBatch_jobs uuid collectionId totalSupply aiPrompt.

Lemma batch_eq :
  batch = map (new_job uuid collectionId aiPrompt) (count_from 1 (Z.to_nat totalSupply)).
Proof. unfold batch, createBatch_jobs. now rewrite createBatch_jobs_loop. Qed.

Lemma batch_ids : map id batch = map uuid (count_from 1 (Z.to_nat totalSupply)).
Proof. rewrite batch_eq, map_map. reflexivity. Qed.

Lemma batch_NoDup : NoDup (map id batch).
Proof.
  rewrite batch_ids. apply NoDup_map_on; [|apply count_from_NoDup].
  intros x y Hx Hy. apply count_from_in in Hx, Hy. apply distinct; lia.
Qed.

Lemma batch_in j :
  In j batch ->
  exists i, 1 <= i <= totalSupply /\ j = new_job uuid collectionId aiPrompt i.
Proof.
  rewrite batch_eq, in_map_iff. intros (i & <- & Hi). apply count_from_in in Hi.
  exists i. split; [lia|reflexivity].
Qed.

Lemma batch_inserted : fold_left insert_row batch table = table ++ batch.
Proof.
  apply insert_fresh; [apply batch_NoDup|].
  intros j Hj. apply batch_in in Hj as (i & Hi & ->). cbn. now apply fresh.
Qed.

Lemma batch_selected st :
  (forall s, st = Some s -> s = pending) ->
  order_by_edition (filter (matchb collectionId st) (table ++ batch)) = batch.
Proof.
  intros Hst. rewrite filter_app, filter_none, filter_all.
  - cbn [app]. apply order_increasing_fixed. rewrite batch_eq. apply increasing_new_jobs.
  - intros j Hj. apply batch_in in Hj as (i & _ & ->). unfold matchb. cbn.
    rewrite String.eqb_refl. destruct st as [s|]; [|reflexivity].
    now rewrite (Hst s eq_refl).
  - intros j Hj. unfold matchb.
    destruct (String.eqb_spec (collection_id j) collectionId) as [E|_]; [|reflexivity].
    now apply unused in Hj.
Qed.

Lemma batch_of_collection :
  filter (fun j => String.eqb (collection_id j) collectionId) (table ++ batch) = batch
  /\ filter (fun j => negb (String.eqb (collection_id j) collectionId)) (table ++ batch)
     = table.
Proof.
  rewrite !filter_app. split.
  - rewrite filter_none, filter_all; [reflexivity| |].
    + intros j Hj. apply batch_in in Hj as (i & _ & ->). cbn. apply String.eqb_refl.
    + intros j Hj. apply String.eqb_neq. now apply unused.
  - rewrite filter_all, filter_none; [apply app_nil_r| |].
    + intros j Hj. apply batch_in in Hj as (i & _ & ->). cbn.
      now rewrite String.eqb_refl.
    + intros j Hj. apply negb_true_iff, String.eqb_neq. now apply unused.
Qed.

Lemma batch_pending st :
  count_status st batch = if Status_eqb st pending then List.length batch else 0%nat.
Proof.
  unfold count_status. destruct (Status_eqb st pending) eqn:E.
  - apply Status_eqb_eq in E. subst st. rewrite filter_all; [reflexivity|].
    intros j Hj. apply batch_in in Hj as (i & _ & ->). reflexivity.
  - rewrite filter_none; [reflexivity|].
    intros j Hj. apply batch_in in Hj as (i & _ & ->). cbn.
    destruct st; try reflexivity; discriminate.
Qed.

End NewCollection.

(** X18.  [Job.createBatch] for a collection that has no job yet, with
    identifiers that are new and distinct: it returns and stores, after the
    rows already there, one job per edition [1 .. totalSupply], each
    [pending], with its drop edition equal to its edition, no file and no
    retry.  [Job.findByCollectionId] then returns exactly these jobs, in this
    order, with no status asked for and with [pending] asked for;
    [Collection.getStats] counts them all as pending, and gives [NULL] sums
    when [totalSupply] is not positive; and [Job.deleteByCollectionId]
    removes exactly them, reporting their number and leaving the table as it
    was before. *)
Theorem createBatch_round_trip (uuid : Z -> string) (collectionId aiPrompt : string)
        (totalSupply : Z) (table : list Job) :
  (forall i, 1 <= i <= totalSupply -> changes (uuid i) table = false) ->
  (forall i j, 1 <= i <= totalSupply -> 1 <= j <= totalSupply ->
               uuid i = uuid j -> i = j) ->
  (forall j, In j table -> collection_id j <> collectionId) ->
  let created := map (new_job uuid collectionId aiPrompt)
                     (count_from 1 (Z.to_nat totalSupply)) in
  let n := Z.to_nat totalSupply in
  createBatch None uuid collectionId totalSupply aiPrompt table
  = (inr created, table ++ created)
  /\ List.length created = n
  /\ select_by_collection collectionId None None (table ++ created) = created
  /\ select_by_collection collectionId (Some pending) None (table ++ created) = created
  /\ getStats collectionId (table ++ created)
     = (if 0 <? totalSupply
        then mkStats n (Some n) (Some 0%nat) (Some 0%nat) (Some 0%nat) (Some 0%nat)
        else mkStats 0 None None None None None)
  /\ deleteByCollectionId collectionId (table ++ created) = (n, table)
  /\ (NoDup (map id table) -> NoDup (map id (table ++ created))).
Proof.
  intros Hfresh Hdistinct Hunused created n.
  pose proof (@batch_eq uuid collectionId aiPrompt totalSupply) as Heq.
  fold created in Heq.
  assert (Hlen : List.length created = n).
  { unfold created. now rewrite length_map, count_from_length. }
  split.
  { unfold createBatch. rewrite (@batch_inserted uuid collectionId aiPrompt totalSupply
                                   table Hfresh Hdistinct). now rewrite Heq. }
  split; [exact Hlen|].
  split.
  { rewrite select_unlimited by exact I. rewrite <- Heq.
    apply (@batch_selected uuid collectionId aiPrompt totalSupply table Hunused None).
    discriminate. }
  split.
  { rewrite select_unlimited by exact I. rewrite <- Heq.
    apply (@batch_selected uuid collectionId aiPrompt totalSupply table Hunused
             (Some pending)).
    now intros s [= <-]. }
  destruct (@batch_of_collection uuid collectionId aiPrompt totalSupply table Hunused)
    as [Hmine Hrest].
  rewrite Heq in Hmine, Hrest.
  split.
  { unfold getStats. rewrite Hmine, Hlen. unfold sum_status.
    pose proof (@batch_pending uuid collectionId aiPrompt totalSupply) as Hc.
    rewrite Heq in Hc.
    destruct (Z.ltb_spec 0 totalSupply) as [Hpos|Hneg].
    - destruct created as [|j0 rest] eqn:E; [cbn in Hlen; lia|].
      rewrite !Hc, Hlen. reflexivity.
    - destruct created as [|j0 rest]; [now rewrite <- Hlen|cbn in Hlen; lia]. }
  split.
  { unfold deleteByCollectionId. now rewrite Hmine, Hrest, Hlen. }
  intros Hnd. rewrite map_app. apply NoDup_app; [exact Hnd| |].
  - rewrite <- Heq.
    apply (@batch_NoDup uuid collectionId aiPrompt totalSupply Hdistinct).
  - intros x Hx Hy. unfold created in Hy. rewrite map_map in Hy.
    apply in_map_iff in Hy as (i & <- & Hi). apply count_from_in in Hi. cbn in Hx.
    apply (proj1 (changes_false (uuid i) table)); [apply Hfresh; lia|exact Hx].
Qed.

(** Two jobs for a new collection [c9] beside the four of the sample
    state. *)
Lemma createBatch_round_trip_witness :
  let created := [new_job sample_uuid "c9" "a fox" 1; new_job sample_uuid "c9" "a fox" 2] in
  createBatch None sample_uuid "c9" 2 "a fox" (jobs sample_world)
  = (inr created, jobs sample_world ++ created)
  /\ getStats "c9" (jobs sample_world ++ created)
     = mkStats 2 (Some 2%nat) (Some 0%nat) (Some 0%nat) (Some 0%nat) (Some 0%nat)
  /\ deleteByCollectionId "c9" (jobs sample_world ++ created) = (2%nat, jobs sample_world).
Proof.
  cbv zeta.
  assert (Hfresh : forall i, 1 <= i <= 2 ->
                     changes (sample_uuid i) (jobs sample_world) = false).
  { intros i Hi. assert (E : i = 1 \/ i = 2) by lia. destruct E as [->| ->]; reflexivity. }
  assert (Hdistinct : forall i j, 1 <= i <= 2 -> 1 <= j <= 2 ->
                        sample_uuid i = sample_uuid j -> i = j).
  { intros i j Hi Hj. assert (Ei : i = 1 \/ i = 2) by lia.
    assert (Ej : j = 1 \/ j = 2) by lia.
    destruct Ei as [->| ->], Ej as [->| ->]; vm_compute; congruence. }
  assert (Hunused : forall j, In j (jobs sample_world) -> collection_id j <> "c9").
  { intros j Hj. vm_compute in Hj.
    destruct Hj as [<-|[<-|[<-|[<-|[]]]]]; discriminate. }
  destruct (@createBatch_round_trip sample_uuid "c9" "a fox" 2 (jobs sample_world)
              Hfresh Hdistinct Hunused) as (H1 & _ & _ & _ & H2 & H3 & _).
  split; [exact H1|]. split; [exact H2|exact H3].
Defined.

(** ** The first batch of a new collection *)

Lemma settle_outside env batch r :
  ~ In (id r) (map id batch) -> settle env batch r = r.
Proof.
  intros H. unfold settle. destruct (in_batch batch r) eqn:E; [|reflexivity].
  now apply in_batch_true in E.
Qed.

Lemma settle_inside env batch r :
  In r batch -> settle env batch r = outcome env r.
Proof.
  intros H. unfold settle.
  assert (E : in_batch batch r = true) by (apply in_batch_true; now apply in_map).
  now rewrite E.
Qed.

Lemma map_fixed (A : Type) (f : A -> A) (l : list A) :
  (forall x, In x l -> f x = x) -> map f l = l.
Proof.
  intros H. rewrite <- (map_id l) at 2. now apply map_ext_in.
Qed.

Lemma NoDup_app_disjoint (A : Type) (a b : list A) x :
  NoDup (a ++ b) -> In x a -> ~ In x b.
Proof.
  induction a as [|h a IH]; cbn [app In]; intros Hnd Hx; [contradiction|].
  inversion Hnd as [|? ? Hnotin Hnd']; subst. destruct Hx as [->|Hx].
  - intros Hb. apply Hnotin. apply in_or_app. now right.
  - now apply IH.
Qed.

(** X19.  [Job.createBatch] followed by [processInitialBatch], for a
    collection that has no job yet and a positive supply, with distinct new
    identifiers and a storage that works: the batch asks the provider for
    the first editions, in order [1, 2, ...], at most [initialBatchSize] of
    them (all of them when that size is zero or negative), and for no other
    job; it returns those of them whose generation worked; the rows of the
    other collections are untouched and the later editions of the new
    collection are still pending. *)
Theorem first_batch_of_new_collection (env : Env) (uuid : Z -> string)
        (collectionId aiPrompt : string) (totalSupply : Z) (w : World) :
  only_generation_fails env ->
  isProcessing w = false ->
  NoDup (map id (jobs w)) ->
  (forall i, 1 <= i <= totalSupply -> changes (uuid i) (jobs w) = false) ->
  (forall i j, 1 <= i <= totalSupply -> 1 <= j <= totalSupply ->
               uuid i = uuid j -> i = j) ->
  (forall j, In j (jobs w) -> collection_id j <> collectionId) ->
  0 < totalSupply ->
  let created := map (new_job uuid collectionId aiPrompt)
                     (count_from 1 (Z.to_nat totalSupply)) in
  let w0 := set_jobs (snd (createBatch None uuid collectionId totalSupply aiPrompt
                                       (jobs w))) w in
  let k := if 0 <? initialBatchSize env
           then Z.to_nat (Z.min (initialBatchSize env) totalSupply)
           else Z.to_nat totalSupply in
  let r := run env (processInitialBatch env collectionId) w0 in
  fst r = inr (filter (succeeds env) (firstn k created))
  /\ aiRequests (snd r) = aiRequests w ++ map uuid (count_from 1 k)
  /\ jobs (snd r)
     = jobs w ++ map (outcome env) (firstn k created) ++ skipn k created
  /\ isProcessing (snd r) = false.
Proof.
  intros Hok Hflag Hnd Hfresh Hdistinct Hunused Hpos created w0 k r.
  pose proof (@batch_eq uuid collectionId aiPrompt totalSupply) as Heq.
  fold created in Heq.
  assert (Hlen : List.length created = Z.to_nat totalSupply).
  { unfold created. now rewrite length_map, count_from_length. }
  assert (Hw0 : jobs w0 = jobs w ++ created).
  { unfold w0, createBatch. cbn [snd jobs set_jobs].
    rewrite (@batch_inserted uuid collectionId aiPrompt totalSupply (jobs w)
               Hfresh Hdistinct). now rewrite Heq. }
  assert (Hsorted : order_by_edition
                      (filter (matchb collectionId (Some pending)) (jobs w ++ created))
                    = created).
  { rewrite <- Heq.
    apply (@batch_selected uuid collectionId aiPrompt totalSupply (jobs w) Hunused
             (Some pending)).
    now intros s [= <-]. }
  assert (Hk : (0 < k <= Z.to_nat totalSupply)%nat).
  { unfold k. destruct (Z.ltb_spec 0 (initialBatchSize env)); lia. }
  assert (Hbatch : select_by_collection collectionId (Some pending)
                     (Some (initialBatchSize env)) (jobs w0) = firstn k created).
  { rewrite Hw0. unfold k. destruct (Z.ltb_spec 0 (initialBatchSize env)) as [Hs|Hs].
    - rewrite select_limited by exact Hs. rewrite Hsorted.
      destruct (Z_le_gt_dec (initialBatchSize env) totalSupply) as [Hle|Hgt].
      + now rewrite Z.min_l by exact Hle.
      + rewrite Z.min_r by lia. rewrite !firstn_all2 by lia. reflexivity.
    - rewrite select_unlimited by exact Hs. rewrite Hsorted.
      rewrite firstn_all2 by lia. reflexivity. }
  assert (Hne : firstn k created <> []).
  { intros E. apply (f_equal (@List.length Job)) in E.
    rewrite length_firstn in E. cbn in E. lia. }
  assert (Hnd0 : NoDup (map id created)).
  { rewrite <- Heq. apply (@batch_NoDup uuid collectionId aiPrompt totalSupply Hdistinct). }
  assert (Hnew : forall j, In j created -> ~ In (id j) (map id (jobs w))).
  { intros j Hj. unfold created in Hj. apply in_map_iff in Hj as (i & <- & Hi).
    apply count_from_in in Hi. cbn. apply changes_false. apply Hfresh. lia. }
  assert (Hndw0 : NoDup (map id (jobs w0))).
  { rewrite Hw0, map_app. apply NoDup_app; [exact Hnd|exact Hnd0|].
    intros x Hx Hy. apply in_map_iff in Hy as (j & <- & Hj). now apply (Hnew j). }
  assert (Hsplit : created = firstn k created ++ skipn k created)
    by (symmetry; apply firstn_skipn).
  assert (Hndb : NoDup (map id (firstn k created))).
  { rewrite Hsplit, map_app in Hnd0. now apply NoDup_app_remove_r in Hnd0. }
  assert (Hincl : incl (firstn k created) (jobs w0)).
  { intros j Hj. rewrite Hw0. apply in_or_app. right. rewrite Hsplit.
    apply in_or_app. now left. }
  assert (Hflag0 : isProcessing w0 = false) by exact Hflag.
  pose proof (@run_initial env collectionId w0 Hok Hflag0) as Hrun.
  cbv zeta in Hrun. rewrite Hbatch in Hrun. specialize (Hrun Hne).
  destruct (@batch_jobs env w0 (firstn k created) Hndw0 Hndb Hincl) as (Hj & Hr & Hp).
  unfold r. rewrite Hrun. cbn [fst snd].
  split; [reflexivity|]. split; [|split; [|exact Hp]].
  - rewrite Hr. cbn [aiRequests w0 set_jobs]. f_equal.
    unfold created. rewrite firstn_map, map_map, firstn_count_from.
    rewrite Nat.min_l by lia. reflexivity.
  - rewrite Hj, Hw0, map_app. f_equal.
    + apply map_fixed. intros x Hx. apply settle_outside. intros Hin.
      apply in_map_iff in Hin as (j & E & Hjin).
      apply (Hnew j); [rewrite Hsplit; apply in_or_app; now left|].
      rewrite E. now apply in_map.
    + transitivity (map (settle env (firstn k created))
                        (firstn k created ++ skipn k created));
        [now rewrite firstn_skipn|].
      rewrite map_app. f_equal.
      * apply map_ext_in. intros x Hx. now apply settle_inside.
      * apply map_fixed. intros x Hx. apply settle_outside.
        rewrite Hsplit, map_app in Hnd0.
        intros Hin. apply (NoDup_app_disjoint _ _ (id x) Hnd0 Hin). now apply in_map.
Qed.

(** Four jobs for a new collection [c9] in the sample state, whose
    initial batches have three jobs. *)
Lemma first_batch_of_new_collection_witness :
  let w0 := set_jobs (snd (createBatch None sample_uuid "c9" 4 "a fox"
                                       (jobs sample_world))) sample_world in
  aiRequests (snd (run sample_env (processInitialBatch sample_env "c9") w0))
  = aiRequests sample_world ++ map sample_uuid [1; 2; 3].
Proof.
  cbv zeta.
  assert (Hfresh : forall i, 1 <= i <= 4 ->
                     changes (sample_uuid i) (jobs sample_world) = false).
  { intros i Hi. assert (E : i = 1 \/ i = 2 \/ i = 3 \/ i = 4) by lia.
    destruct E as [->|[->|[->| ->]]]; reflexivity. }
  assert (Hdistinct : forall i j, 1 <= i <= 4 -> 1 <= j <= 4 ->
                        sample_uuid i = sample_uuid j -> i = j).
  { intros i j Hi Hj. assert (Ei : i = 1 \/ i = 2 \/ i = 3 \/ i = 4) by lia.
    assert (Ej : j = 1 \/ j = 2 \/ j = 3 \/ j = 4) by lia.
    destruct Ei as [->|[->|[->| ->]]], Ej as [->|[->|[->| ->]]];
      vm_compute; congruence. }
  assert (Hunused : forall j, In j (jobs sample_world) -> collection_id j <> "c9").
  { intros j Hj. vm_compute in Hj.
    destruct Hj as [<-|[<-|[<-|[<-|[]]]]]; discriminate. }
  assert (Hnd : NoDup (map id (jobs sample_world))) by exact sample_world_ids.
  exact (proj1 (proj2 (@first_batch_of_new_collection sample_env sample_uuid "c9" "a fox"
                         4 sample_world sample_env_storage eq_refl Hnd
                         Hfresh Hdistinct Hunused eq_refl))).
Defined.

(** ** Approving many jobs *)

Section BatchApproveFacts.
Variable env : Env.
Variable write_fails : string -> option string.

Lemma approveJob_true jobId w b w' :
  run env (approveJob env write_fails jobId) w = (inr b, w') -> b = true.
Proof.
  unfold approveJob. rewrite run_rethrow, run_bind, run_await.
  destruct (perform env (JobFindById jobId) w) as [[e|found] w1]; [discriminate|].
  destruct found as [job|]; [|discriminate].
  destruct (negb (Status_eqb (status job) generated)); [discriminate|].
  rewrite run_bind, run_await.
  destruct (perform env (CollectionFindById (collection_id job)) w1) as [[e|c] w2];
    [discriminate|].
  destruct c as [c|]; [|discriminate].
  rewrite run_bind. unfold saveMetadata. rewrite run_rethrow.
  destruct (write_fails (metadata_of env (id job))) as [e|]; [discriminate|].
  rewrite run_bind. cbn [put run]. rewrite run_bind, run_await.
  destruct (perform env _ _) as [[e|x] w3]; [discriminate|].
  cbn. now intros [= <- _].
Qed.

Lemma batch_approve_loop_accounts : forall job_ids results errors w,
  exists acc w',
    run env (batch_approve_loop env write_fails job_ids results errors) w = (inr acc, w')
    /\ exists oks errs,
         fst acc = results ++ oks /\ snd acc = errors ++ errs
         /\ (List.length oks + List.length errs = List.length job_ids)%nat
         /\ Forall (fun b => b = true) oks
         /\ incl (map fst errs) job_ids.
Proof.
  induction job_ids as [|jobId rest IH]; intros results errors w.
  - exists (results, errors), w. split; [reflexivity|]. exists [], [].
    rewrite !app_nil_r. repeat split; auto. intros x [].
  - cbn [batch_approve_loop]. rewrite run_bind, run_try_catch.
    assert (Hstep : exists acc w1,
               match
                 run env
                     (found <- await (JobFindById jobId) ;;
                      match found with
                      | None => Ret (results, errors ++ [(jobId, "Job not found")])
                      | Some job =>
                          if negb (Status_eqb (status job) generated)
                          then Ret (results,
                                    errors ++
                                    [(jobId, "Job must be in generated status to approve")])
                          else
                            approvedJob <- approveJob env write_fails jobId ;;
                            Ret (results ++ [approvedJob], errors)
                      end) w
               with
               | (inl e, w') => run env (Ret (results, errors ++ [(jobId, e)])) w'
               | (inr a, w') => (inr a, w')
               end = (inr acc, w1)
               /\ ((fst acc = results ++ [true] /\ snd acc = errors)
                   \/ (fst acc = results /\ exists e, snd acc = errors ++ [(jobId, e)]))).
    { rewrite run_bind, run_await.
      destruct (perform env (JobFindById jobId) w) as [[e|found] w1].
      - eexists _, _. split; [reflexivity|]. right. cbn. eauto.
      - destruct found as [job|].
        + destruct (negb (Status_eqb (status job) generated)).
          * eexists _, _. split; [reflexivity|]. right. cbn. eauto.
          * rewrite run_bind.
            destruct (run env (approveJob env write_fails jobId) w1) as [[e|b] w2] eqn:E.
            -- eexists _, _. split; [reflexivity|]. right. cbn. eauto.
            -- apply approveJob_true in E. subst b.
               eexists _, _. split; [reflexivity|]. left. cbn. auto.
        + eexists _, _. split; [reflexivity|]. right. cbn. eauto. }
    destruct Hstep as (acc & w1 & -> & Hacc).
    destruct (IH (fst acc) (snd acc) w1) as (acc' & w' & Hrun & oks & errs & H1 & H2 & H3 & H4 & H5).
    exists acc', w'. split; [exact Hrun|].
    destruct Hacc as [[Ha Hb]|[Ha [e Hb]]]; rewrite Ha, Hb in *.
    + exists (true :: oks), errs. rewrite H1, H2, <- app_assoc. cbn [app List.length].
      repeat split; auto; [lia|]. intros x Hx. right. now apply H5.
    + exists oks, ((jobId, e) :: errs). rewrite H1, H2, <- app_assoc.
      cbn [app List.length map fst]. repeat split; auto; [lia|].
      intros x [<-|Hx]; [now left|right; now apply H5].
Qed.

End BatchApproveFacts.

(** X20.  [POST /api/jobs/batch-approve] for a body whose [job_ids] is an
    array, whatever fails underneath (the lookups, the metadata file, the
    update): the route never answers 500.  With an empty array it answers
    400 and changes nothing; otherwise it answers 200 and every identifier
    of the array is accounted for once, by a [true] among the results or by
    an entry among the errors, and every error entry names an identifier of
    the array. *)
Theorem batch_approve_accounts (env : Env) (write_fails : string -> option string)
        (job_ids : list string) (w : World) :
  let r := run env (post_batch_approve env write_fails job_ids) w in
  exists a,
    fst r = inr a
    /\ match job_ids with
       | [] => code a = 400 /\ results a = [] /\ errors a = [] /\ snd r = w
       | _ :: _ =>
           code a = 200
           /\ (List.length (results a) + List.length (errors a)
               = List.length job_ids)%nat
           /\ Forall (fun b => b = true) (results a)
           /\ incl (map fst (errors a)) job_ids
       end.
Proof.
  cbv zeta. unfold post_batch_approve. rewrite run_try_catch.
  destruct job_ids as [|jobId rest].
  - cbn. eexists. split; [reflexivity|]. repeat split.
  - cbn [List.length Nat.eqb]. rewrite run_bind.
    destruct (batch_approve_loop_accounts env write_fails (jobId :: rest) [] [] w)
      as (acc & w' & Hrun & oks & errs & H1 & H2 & H3 & H4 & H5).
    rewrite Hrun. cbn [run fst snd]. eexists. split; [reflexivity|].
    cbn [code results errors]. cbn [app] in H1, H2. rewrite H1, H2.
    repeat split; auto.
Qed.

Section BatchApproveAll.
Variable env : Env.
Variable write_fails : string -> option string.
Hypothesis storage_ok : only_generation_fails env.

Lemma batch_approve_loop_all : forall job_ids results errors w,
  NoDup job_ids -> approvable env write_fails job_ids w ->
  exists w',
    run env (batch_approve_loop env write_fails job_ids results errors) w
    = (inr (results ++ repeat true (List.length job_ids), errors), w')
    /\ (forall jobId job, In jobId job_ids -> find_job jobId (jobs w) = Some job ->
          find_job jobId (jobs w') = Some (approved_row env job)
          /\ In (metadata_of env jobId) (files w'))
    /\ (forall other, ~ In other job_ids ->
          find_job other (jobs w') = find_job other (jobs w))
    /\ collections w' = collections w
    /\ incl (files w) (files w').
Proof.
  induction job_ids as [|jobId rest IH]; intros results errors w Hnd Hall.
  - exists w. cbn. rewrite app_nil_r. repeat split; auto; try contradiction.
    apply incl_refl.
  - inversion Hnd as [|? ? Hnotin Hnd']; subst.
    destruct (Hall jobId (or_introl eq_refl)) as (Hw & job & c & Hfind & Hst & Hc).
    pose proof (@find_job_id jobId (jobs w) job Hfind) as Hid. subst jobId.
    set (w1 := set_jobs
                 (update_where_id (id job)
                    (apply_update approved
                       [(f_metadata_path, Some (metadata_of env (id job)))])
                    (jobs w))
                 (set_files (metadata_of env (id job) :: files w) w)).
    assert (Hother : forall other, other <> (id job) ->
                       find_job other (jobs w1) = find_job other (jobs w)).
    { intros other Hne. unfold w1. cbn [jobs set_jobs set_files].
      now apply find_job_update_other. }
    assert (Hall1 : approvable env write_fails rest w1).
    { intros j Hj. destruct (Hall j (or_intror Hj)) as (Hwj & job' & c' & F & S & C).
      split; [exact Hwj|]. exists job', c'. split; [|split; [exact S|exact C]].
      rewrite Hother; [exact F|]. intros ->. contradiction. }
    destruct (IH (results ++ [true]) errors w1 Hnd' Hall1)
      as (w' & Hrun & Hdone & Hkeep & Hcol & Hfiles).
    exists w'. split; [|split; [|split; [|split]]].
    + cbn [batch_approve_loop]. rewrite run_bind, run_try_catch, run_bind, run_await.
      rewrite db_ok by auto. cbn [effect fst snd]. fold (find_job (id job) (jobs w)).
      rewrite Hfind, Hst. cbn [Status_eqb negb]. rewrite run_bind.
      rewrite (@run_approve_found env write_fails storage_ok (id job) job w Hfind).
      rewrite Hst, Hc. cbn [Status_eqb negb]. rewrite Hw. cbn [run fst snd].
      fold w1. rewrite Hrun, <- app_assoc. reflexivity.
    + intros j row [<-|Hj] Hrow.
      * rewrite Hfind in Hrow. injection Hrow as <-.
        rewrite (Hkeep (id job) Hnotin). split.
        -- unfold w1. cbn [jobs set_jobs set_files].
           rewrite find_job_update by reflexivity. now rewrite Hfind.
        -- apply Hfiles. unfold w1. cbn [files set_jobs set_files]. now left.
      * apply Hdone; [exact Hj|]. rewrite Hother; [exact Hrow|].
        intros ->. contradiction.
    + intros other Hno. rewrite Hkeep by (intros H; apply Hno; now right).
      apply Hother. intros ->. apply Hno. now left.
    + exact Hcol.
    + intros p Hp. apply Hfiles. unfold w1. cbn [files set_jobs set_files]. now right.
Qed.

End BatchApproveAll.

(** X21.  [POST /api/jobs/batch-approve] on distinct identifiers of
    [generated] jobs whose collections exist, with a storage and a file
    system that work: the answer is 200 with one [true] per identifier and
    no error; afterwards every job of the array is [approved] with its
    metadata path set and its metadata file written, its other columns as
    before, and every job outside the array is as it was. *)
Theorem batch_approve_all (env : Env) (write_fails : string -> option string)
        (job_ids : list string) (w : World) :
  only_generation_fails env ->
  NoDup job_ids ->
  job_ids <> [] ->
  approvable env write_fails job_ids w ->
  let r := run env (post_batch_approve env write_fails job_ids) w in
  exists a,
    fst r = inr a
    /\ code a = 200
    /\ results a = repeat true (List.length job_ids)
    /\ errors a = []
    /\ (forall jobId job, In jobId job_ids -> find_job jobId (jobs w) = Some job ->
          find_job jobId (jobs (snd r)) = Some (approved_row env job)
          /\ In (metadata_of env jobId) (files (snd r)))
    /\ (forall other, ~ In other job_ids ->
          find_job other (jobs (snd r)) = find_job other (jobs w)).
Proof.
  intros Hok Hnd Hne Hall. cbv zeta. unfold post_batch_approve. rewrite run_try_catch.
  destruct job_ids as [|jobId rest]; [congruence|].
  cbn [List.length Nat.eqb]. rewrite run_bind.
  destruct (@batch_approve_loop_all env write_fails Hok (jobId :: rest) [] [] w Hnd Hall)
    as (w' & Hrun & Hdone & Hkeep & _).
  rewrite Hrun. cbn [run fst snd app]. eexists. split; [reflexivity|].
  cbn [code results errors fst snd].
  split; [reflexivity|]. split; [reflexivity|]. split; [reflexivity|].
  split; [exact Hdone|exact Hkeep].
Qed.

(** Job [j3], the one [generated] job of the sample state. *)
Lemma batch_approve_all_witness :
  exists a,
    fst (run sample_env (post_batch_approve sample_env (fun _ => None) ["j3"])
             sample_world) = inr a
    /\ code a = 200 /\ results a = [true] /\ errors a = [].
Proof.
  assert (Hall : approvable sample_env (fun _ => None) ["j3"] sample_world).
  { intros jobId [<-|[]]. split; [reflexivity|].
    exists (sample_job "j3" 3 generated (Some "uploads/j3.png") None),
           (mkCollection "c1" "Foxes" "FOX" "Some foxes" 1 4 4 1).
    repeat split. }
  assert (Hnd : NoDup ["j3"]) by (constructor; [intros []|constructor]).
  assert (Hne : ["j3"] <> []) by discriminate.
  destruct (@batch_approve_all sample_env (fun _ => None) ["j3"] sample_world
              sample_env_storage Hnd Hne Hall) as (a & H1 & H2 & H3 & H4 & _).
  exists a. repeat split; assumption.
Defined.

End StudioExtraFacts.
